(** * update_counts.py: marker history cache and flame-graph builder

    A shallow embedding of [src/update_counts.py] and the properties of
    its two cores: the per-commit metric cache ([lookup_commit],
    [save_cache], [run]) and the aggregation tree ([generate_flame_graph]
    with its inner [get_node] and [set_value]); and of what surrounds
    them: the commit list ([determine_commit_and_date_list]) and the plots
    ([write_graphs]).

    Conventions of the embedding:
    - Python [str] is [string]; the model covers ASCII text (code points
      below 128), on which [str.upper] and [str.strip] are written out.
    - Python [int] counts are [nat] (they are lengths and sums of lengths).
    - a Python [float] is a binary64, held as the whole number of units
      of 2^-1074 it is made of; division and product round to the
      nearest such float, ties to even, as IEEE 754 has it.
    - the [dict] cache is a [gmap string (nat * nat * nat)].
    - external collaborators (git, the json decoder, the files of the
      working tree) are fields of a [World] record or explicit inputs. *)

From Stdlib Require Import String Ascii List ZArith Lia Bool Arith.
From Stdlib Require Import DecimalString DecimalPos DecimalZ Floats Uint63.
From stdpp Require Import gmap strings list fin_maps sorting.
Import ListNotations.
Local Open Scope string_scope.
Local Open Scope nat_scope.
#[local] Set Warnings "-register-all".

(** ** Python built-ins used by the script *)
Module Py.

Definition newline : ascii := ascii_of_nat 10.
Definition quote : ascii := ascii_of_nat 34.

(** [s.split(sep)] for a one-character separator: never returns the
    empty list, and a trailing separator yields a trailing [""]. *)
Fixpoint split (sep : ascii) (s : string) : list string :=
  match s with
  | EmptyString => [EmptyString]
  | String c rest =>
      if Ascii.eqb c sep then EmptyString :: split sep rest
      else match split sep rest with
           | [] => [String c EmptyString]
           | w :: ws => String c w :: ws
           end
  end.

(** [lines[-1]] on a list of strings; [None] stands for IndexError. *)
Definition last_item (l : list string) : option string := List.last (map Some l) None.

(** [str.isspace] on one ASCII character: TAB, LF, VT, FF, CR, the four
    separators FS GS RS US, and the space. *)
Definition isspace (c : ascii) : bool :=
  let n := nat_of_ascii c in
  ((9 <=? n) && (n <=? 13)) || ((28 <=? n) && (n <=? 32)).

Fixpoint lstrip (s : string) : string :=
  match s with
  | EmptyString => EmptyString
  | String c rest => if isspace c then lstrip rest else s
  end.

(** Removes trailing white space: a character is dropped when all that
    follows it has been dropped and it is white space itself. *)
Fixpoint rstrip (s : string) : string :=
  match s with
  | EmptyString => EmptyString
  | String c rest =>
      match rstrip rest with
      | EmptyString => if isspace c then EmptyString else String c EmptyString
      | r => String c r
      end
  end.

(** [s.strip()] on ASCII text.  ([str.strip] also removes the white space
    beyond ASCII, such as U+0085 and U+00A0; the statements about lines
    assume ASCII text.) *)
Definition strip (s : string) : string := rstrip (lstrip s).

Definition upper_char (c : ascii) : ascii :=
  let n := nat_of_ascii c in
  if (97 <=? n) && (n <=? 122) then ascii_of_nat (n - 32) else c.

(** [s.upper()] on ASCII text: the letters a to z are the only characters
    it changes.  ([str.upper] also maps letters beyond ASCII, some of
    them onto ASCII letters; the statements about lines assume ASCII
    text.) *)
Fixpoint upper (s : string) : string :=
  match s with
  | EmptyString => EmptyString
  | String c rest => String (upper_char c) (upper rest)
  end.

Definition startswith (s pre : string) : bool := String.prefix pre s.

(** [s.endswith(suf)]: some tail of [s] is [suf]. *)
Fixpoint endswith (s suf : string) : bool :=
  String.eqb s suf ||
  match s with
  | EmptyString => false
  | String _ rest => endswith rest suf
  end.

(** [s.count(sub)]: occurrences found by a left-to-right scan that
    resumes after the end of each match (non-overlapping).  [skip] is the
    number of characters of the last match still to be passed over. *)
Fixpoint count_from (sub : string) (skip : nat) (s : string) : nat :=
  match s with
  | EmptyString => 0
  | String _ rest =>
      match skip with
      | S k => count_from sub k rest
      | O => if String.prefix sub s
             then S (count_from sub (String.length sub - 1) rest)
             else count_from sub 0 rest
      end
  end.

Definition count (s sub : string) : nat :=
  match sub with
  | EmptyString => S (String.length s)
  | _ => count_from sub 0 s
  end.

(** [str(n)] for a non-negative int. *)
Definition str_of_nat (n : nat) : string := NilZero.string_of_uint (Nat.to_uint n).

(** Truthiness of an int and of a str. *)
Definition truthy_nat (n : nat) : bool := negb (n =? 0).
Definition truthy_str (s : string) : bool := negb (String.eqb s EmptyString).

End Py.

(** ** The world outside the script *)

(** What [subprocess.run(..., capture_output=True, text=True)] returns. *)
Record CompletedProcess := mkProc { returncode : Z; stdout : string }.

(** A metric triple: fixmes, deprecated strings, deprecated files. *)
Definition Triple : Type := nat * nat * nat.

Inductive Exn :=
| AssertionError
| CalledProcessError
| FileNotFoundError
| JSONDecodeError
| IndexError
| ValueError
| SystemExit (code : Z).

(** The collaborators the script calls but does not implement.  [git argv
    head] is the outcome of running the command line [argv] while the work
    tree holds commit [head]; [json_load] is [json.load] on the text of a
    cache file; [cold_file] is the read-only seed; [strftime_local] is
    [datetime.fromtimestamp(date).strftime("%Y-%m-%d %H:%M:%S")]. *)
Record World := mkWorld {
  git : list string -> option string -> CompletedProcess;
  json_load : string -> option (gmap string Triple);
  cold_file : option string;
  readme_exists : bool;
  strftime_local : Z -> string
}.

Inductive Event :=
| Ran (argv : list string)
| Saved (content : string)
| Printed (msg : string).

(** The mutable state a run acts on: the dict object bound to [cache] in
    [run] (shared by reference with [lookup_commit]), the live cache file,
    the commit checked out in the work tree, and what happened so far
    (most recent event first). *)
Record State := mkState {
  cache : gmap string Triple;
  live_file : option string;
  head : option string;
  events : list Event
}.

Inductive Outcome (A : Type) :=
| Return (a : A)
| Raise (e : Exn).
Arguments Return {A} a.
Arguments Raise {A} e.

(** State and exception monad: the state reached is kept when an
    exception is raised, as Python keeps the heap and the disk. *)
Definition M (A : Type) : Type := State -> Outcome A * State.

#[global] Instance M_ret : MRet M := fun A a st => (Return a, st).
#[global] Instance M_bind : MBind M := fun A B f m st =>
  match m st with
  | (Return a, st') => f a st'
  | (Raise e, st') => (Raise e, st')
  end.

Definition raise {A} (e : Exn) : M A := fun st => (Raise e, st).
Definition get_state : M State := fun st => (Return st, st).
Definition log (ev : Event) : M unit := fun st =>
  (Return tt, mkState (cache st) (live_file st) (head st) (ev :: events st)).
Definition py_assert (b : bool) : M unit := if b then mret tt else raise AssertionError.

(** [for x in l: body(x)] collecting results, as a list comprehension does. *)
Fixpoint mapM {A B} (f : A -> M B) (l : list A) : M (list B) :=
  match l with
  | [] => mret []
  | x :: xs => y ← f x; ys ← mapM f xs; mret (y :: ys)
  end.

(** ** Constants of the script *)
Definition SERENITY_DIR : string := "serenity/".
Definition SAVE_CACHE_INV_FREQ : nat := 200.

(** ** json.dump(cache, f, sort_keys=True, separators=(",", ":"), indent=0) *)
Module Json.

Definition nl : string := String Py.newline EmptyString.

Definition hex_digit (n : nat) : ascii :=
  if n <? 10 then ascii_of_nat (48 + n) else ascii_of_nat (87 + n).

(** One character of [encode_basestring_ascii]: the short escapes, the
    printable range as it is, everything else as a \u escape. *)
Definition escape_char (c : ascii) : string :=
  let n := nat_of_ascii c in
  if n =? 34 then String "\" (String Py.quote EmptyString)
  else if n =? 92 then "\\"
  else if n =? 10 then "\n"
  else if n =? 13 then "\r"
  else if n =? 9 then "\t"
  else if n =? 12 then "\f"
  else if n =? 8 then "\b"
  else if (32 <=? n) && (n <=? 126) then String c EmptyString
  else "\u00" +:+ String (hex_digit (n / 16)) (String (hex_digit (n mod 16)) EmptyString).

Fixpoint escape (s : string) : string :=
  match s with
  | EmptyString => EmptyString
  | String c rest => escape_char c +:+ escape rest
  end.

Definition encode_str (s : string) : string :=
  String Py.quote (escape s +:+ String Py.quote EmptyString).

(** The chunks [_iterencode_list] yields for a list of ints one level
    below the top, with the item separator "," and an indent of zero
    columns: the first item carries the opening bracket. *)
Fixpoint iterencode_items (buf : string) (l : list nat) : list string :=
  match l with
  | [] => []
  | v :: vs => (buf +:+ Py.str_of_nat v) :: iterencode_items ("," +:+ nl) vs
  end.

Definition iterencode_list (l : list nat) : list string :=
  match l with
  | [] => ["[]"]
  | _ => iterencode_items ("[" +:+ nl) l ++ [nl; "]"]
  end.

Definition triple_items (t : Triple) : list nat :=
  let '(a, b, c) := t in [a; b; c].

(** [sorted(dct.items())]: keys are distinct, so the order is that of the
    keys, compared character by character. *)
Definition key_le (x y : string * Triple) : Prop := Is_true (String.leb x.1 y.1).
#[global] Instance key_le_dec x y : Decision (key_le x y) := _.

Definition sorted_items (dct : gmap string Triple) : list (string * Triple) :=
  merge_sort key_le (map_to_list dct).

Fixpoint iterencode_pairs (first : bool) (items : list (string * Triple)) : list string :=
  match items with
  | [] => []
  | (k, v) :: rest =>
      (if first then [] else ["," +:+ nl])
        ++ [encode_str k; ":"] ++ iterencode_list (triple_items v)
        ++ iterencode_pairs false rest
  end.

(** The chunks [json.dump] passes to [fp.write], in order. *)
Definition iterencode_dict (dct : gmap string Triple) : list string :=
  match sorted_items dct with
  | [] => ["{}"]
  | items => ["{"; nl] ++ iterencode_pairs true items ++ [nl; "}"]
  end.

Definition dumps (dct : gmap string Triple) : string :=
  String.concat EmptyString (iterencode_dict dct).

End Json.

(** ** The history half of the script: scans, cache, run *)

Definition FILENAME_CSV : string := "tagged_history.csv".
Definition FILENAME_CACHE : string := "cache_v4.json".

(** One row of [tagged_commits], the dict [lookup_commit] returns. *)
Record Row := mkRow {
  row_commit : string;
  unix_timestamp : Z;
  human_readable_time : string;
  fixmes : nat;
  deprecated_strings : nat;
  deprecated_files : nat
}.

(** [int(s)] on the text git prints for %ct: an optional minus sign and
    decimal digits; anything else is a ValueError. *)
Fixpoint digits_value (acc : Z) (s : string) : option Z :=
  match s with
  | EmptyString => Some acc
  | String c rest =>
      let n := nat_of_ascii c in
      if (48 <=? n) && (n <=? 57)
      then digits_value (10 * acc + Z.of_nat (n - 48)) rest
      else None
  end.

Definition int_of_str (s : string) : option Z :=
  match s with
  | EmptyString => None
  | String "-" EmptyString => None
  | String "-" rest => Z.opp <$> digits_value 0 rest
  | _ => digits_value 0 s
  end.

Definition str_of_Z (z : Z) : string := NilZero.string_of_int (Z.to_int z).

Section Script.
Variable w : World.

(** [subprocess.run(argv, check=False, capture_output=True, text=True)]. *)
Definition subprocess_run (argv : list string) : M CompletedProcess := fun st =>
  (Return (git w argv (head st)),
   mkState (cache st) (live_file st) (head st) (Ran argv :: events st)).

(** [subprocess.run(argv, check=True)]. *)
Definition subprocess_run_checked (argv : list string) : M CompletedProcess :=
  result ← subprocess_run argv;
  if (returncode result =? 0)%Z then mret result else raise CalledProcessError.

Definition set_head (commit : string) : M unit := fun st =>
  (Return tt, mkState (cache st) (live_file st) (Some commit) (events st)).

Definition get_cache : M (gmap string Triple) := fun st => (Return (cache st), st).

Definition set_cache (c : gmap string Triple) : M unit := fun st =>
  (Return tt, mkState c (live_file st) (head st) (events st)).

(** [cache[commit] = triple] on the shared dict. *)
Definition cache_store (commit : string) (t : Triple) : M unit := fun st =>
  (Return tt, mkState (<[commit := t]> (cache st)) (live_file st) (head st) (events st)).

Definition fetch_new : M unit :=
  subprocess_run_checked ["git"; "-C"; SERENITY_DIR; "fetch"];; mret tt.

Definition parse_log_line (line : string) : M (string * Z) :=
  match Py.split " " line with
  | [hash; ct] =>
      match int_of_str ct with
      | Some date => mret (hash, date)
      | None => raise ValueError
      end
  | _ => raise AssertionError
  end.

Definition determine_commit_and_date_list : M (list (string * Z)) :=
  result ← subprocess_run_checked
    ["git"; "-C"; SERENITY_DIR; "log"; "origin/master"; "--reverse"; "--format=%H %ct"];
  let lines := Py.split Py.newline (stdout result) in
  py_assert (bool_decide (Py.last_item lines = Some EmptyString));;
  let lines := removelast lines in
  match Py.last_item lines with
  | None => raise IndexError
  | Some l =>
      py_assert (negb (String.eqb l EmptyString));;
      log (Printed ("Repo has " +:+ Py.str_of_nat (length lines) +:+ " commits."));;
      mapM parse_log_line lines
  end.

(** [save_cache]: seen from the running script the file holds the whole
    serialization when the call returns. *)
Definition save_cache (c : gmap string Triple) : M unit := fun st =>
  (Return tt,
   mkState (cache st) (Some (Json.dumps c)) (head st) (Saved (Json.dumps c) :: events st)).

Definition json_load_text (text : string) : M (gmap string Triple) :=
  match json_load w text with
  | Some c => mret c
  | None => raise JSONDecodeError
  end.

Definition load_cache : M (gmap string Triple) :=
  st ← get_state;
  match live_file st with
  | None =>
      match cold_file w with
      | None => raise FileNotFoundError
      | Some text => c ← json_load_text text; save_cache c;; mret c
      end
  | Some text => json_load_text text
  end.

Definition count_fixmes_here : M nat :=
  result ← subprocess_run ["git"; "-C"; SERENITY_DIR; "grep"; "-IiEh"; "FIXME|TODO"];
  py_assert (bool_decide (returncode result ∈ [0; 1]%Z));;
  let lines := Py.split Py.newline (stdout result) in
  py_assert (bool_decide (Py.last_item lines = Some EmptyString));;
  mret (length lines).

Definition count_deprecated_strings_here : M nat :=
  result ← subprocess_run ["git"; "-C"; SERENITY_DIR; "grep"; "-IEh"; "DeprecatedFlyString"];
  py_assert (bool_decide (returncode result ∈ [0; 1]%Z));;
  let lines := Py.split Py.newline (stdout result) in
  py_assert (bool_decide (Py.last_item lines = Some EmptyString));;
  mret (length lines).

Definition count_deprecated_files_here : M nat :=
  result ← subprocess_run ["git"; "-C"; SERENITY_DIR; "grep"; "-IFh"; "DeprecatedFile"];
  py_assert (bool_decide (returncode result ∈ [0; 1]%Z));;
  let lines := Py.split Py.newline (stdout result) in
  py_assert (bool_decide (Py.last_item lines = Some EmptyString));;
  mret (length lines).

Definition make_row (commit : string) (date : Z) (t : Triple) : Row :=
  let '(f, ds, df) := t in
  mkRow commit date (strftime_local w date) f ds df.

(** [lookup_commit(commit, date, cache)]; [cache] is the dict of the
    state.  The two [time.time()] readings only feed the printed message,
    whose timing part is left out of the logged text. *)
Definition lookup_commit (commit : string) (date : Z) : M Row :=
  c ← get_cache;
  match c !! commit with
  | Some t => mret (make_row commit date t)
  | None =>
      subprocess_run_checked ["git"; "-C"; SERENITY_DIR; "checkout"; "-q"; commit];;
      set_head commit;;
      f ← count_fixmes_here;
      ds ← count_deprecated_strings_here;
      df ← count_deprecated_files_here;
      cache_store commit (f, ds, df);;
      c' ← get_cache;
      (if size c' mod SAVE_CACHE_INV_FREQ =? 0
       then log (Printed "    (actually saving cache)");; save_cache c'
       else mret tt);;
      log (Printed ("Extended cache by " +:+ commit +:+ " (now containing "
                      +:+ Py.str_of_nat (size c') +:+ " keys)"));;
      mret (make_row commit date (f, ds, df))
  end.

Definition csv_line (entry : Row) : string :=
  str_of_Z (unix_timestamp entry) +:+ "," +:+ Py.str_of_nat (fixmes entry) +:+ ","
    +:+ Py.str_of_nat (deprecated_strings entry) +:+ ","
    +:+ Py.str_of_nat (deprecated_files entry) +:+ Json.nl.

(** [run] up to the writing of the time series (the plots and the flame
    graph follow and do not touch the cache).  Returns the text written
    to FILENAME_CSV.  The two prints about the newest commits and the
    clock, which read [time.time()], are left out. *)
Definition run : M string :=
  (if readme_exists w then mret tt
   else log (Printed "Can't find Serenity checkout");; raise (SystemExit 1));;
  fetch_new;;
  commits_and_dates ← determine_commit_and_date_list;
  c ← load_cache;
  set_cache c;;
  tagged_commits ← mapM (fun cd => lookup_commit cd.1 cd.2) commits_and_dates;
  c' ← get_cache;
  save_cache c';;
  mret (String.concat EmptyString (map csv_line tagged_commits)).

End Script.

(** ** The plots: [write_graphs] *)

(** A double quote, for the quoted names inside the gnuplot scripts. *)
Definition dq : string := String Py.quote EmptyString.

(** The message of [print(f"Plotting with {time_now=}")]. *)
Definition plotting_message (time_now : Z) : string :=
  "Plotting with time_now=" +:+ str_of_Z time_now.

(** The three f-strings appended to [timed_plot_commands]. *)
Definition week_plots (time_now time_last_week gnuplot_stupidity : Z) : string :=
  Json.nl +:+ "            set output " +:+ dq +:+ "output_week.png" +:+ dq +:+
    "; plot [" +:+ str_of_Z (time_last_week - gnuplot_stupidity)%Z +:+ ":" +:+
    str_of_Z (time_now - gnuplot_stupidity)%Z +:+ "] " +:+ dq +:+ "tagged_history.csv" +:+
    dq +:+ " using 1:2 with lines title " +:+ dq +:+ "FIXMEs and TODOs" +:+ dq +:+ ";" +:+
    Json.nl +:+ "            set output " +:+ dq +:+ "output_week_depstr.png" +:+ dq +:+
    "; plot [" +:+ str_of_Z (time_last_week - gnuplot_stupidity)%Z +:+ ":" +:+
    str_of_Z (time_now - gnuplot_stupidity)%Z +:+ "] " +:+ dq +:+ "tagged_history.csv" +:+
    dq +:+ " using 1:3 with lines title " +:+ dq +:+ "DeprecatedFlyStrings" +:+ dq +:+
    ";" +:+ Json.nl +:+ "        ".

Definition month_plots (time_now time_last_month gnuplot_stupidity : Z) : string :=
  Json.nl +:+ "            set output " +:+ dq +:+ "output_month.png" +:+ dq +:+
    "; plot [" +:+ str_of_Z (time_last_month - gnuplot_stupidity)%Z +:+ ":" +:+
    str_of_Z (time_now - gnuplot_stupidity)%Z +:+ "] " +:+ dq +:+ "tagged_history.csv" +:+
    dq +:+ " using 1:2 with lines title " +:+ dq +:+ "FIXMEs and TODOs" +:+ dq +:+ ";" +:+
    Json.nl +:+ "            set output " +:+ dq +:+ "output_month_depstr.png" +:+ dq +:+
    "; plot [" +:+ str_of_Z (time_last_month - gnuplot_stupidity)%Z +:+ ":" +:+
    str_of_Z (time_now - gnuplot_stupidity)%Z +:+ "] " +:+ dq +:+ "tagged_history.csv" +:+
    dq +:+ " using 1:3 with lines title " +:+ dq +:+ "DeprecatedFlyStrings" +:+ dq +:+
    ";" +:+ Json.nl +:+ "        ".

Definition year_plots (time_now time_last_year gnuplot_stupidity : Z) : string :=
  Json.nl +:+ "            set output " +:+ dq +:+ "output_year.png" +:+ dq +:+
    "; plot [" +:+ str_of_Z (time_last_year - gnuplot_stupidity)%Z +:+ ":" +:+
    str_of_Z (time_now - gnuplot_stupidity)%Z +:+ "] " +:+ dq +:+ "tagged_history.csv" +:+
    dq +:+ " using 1:2 with lines title " +:+ dq +:+ "FIXMEs and TODOs" +:+ dq +:+ ";" +:+
    Json.nl +:+ "            set output " +:+ dq +:+ "output_year_depstr.png" +:+ dq +:+
    "; plot [" +:+ str_of_Z (time_last_year - gnuplot_stupidity)%Z +:+ ":" +:+
    str_of_Z (time_now - gnuplot_stupidity)%Z +:+ "] " +:+ dq +:+ "tagged_history.csv" +:+
    dq +:+ " using 1:3 with lines title " +:+ dq +:+ "DeprecatedFlyStrings" +:+ dq +:+
    ";" +:+ Json.nl +:+ "            set output " +:+ dq +:+ "output_year_depfil.png" +:+
    dq +:+ "; plot [" +:+ str_of_Z (time_last_year - gnuplot_stupidity)%Z +:+ ":" +:+
    str_of_Z (time_now - gnuplot_stupidity)%Z +:+ "] " +:+ dq +:+ "tagged_history.csv" +:+
    dq +:+ " using 1:4 with lines title " +:+ dq +:+ "DeprecatedFile" +:+ dq +:+ ";" +:+
    Json.nl +:+ "        ".

Definition week_warning (time_now time_last_week most_recent_commit : Z) : string :=
  "WARNING: No commits in the last week?! (now=" +:+ str_of_Z time_now +:+
    ", a week ago=" +:+ str_of_Z time_last_week +:+ ", latest_commit=" +:+
    str_of_Z most_recent_commit +:+ ")".

Definition month_error (time_now time_last_month most_recent_commit : Z) : string :=
  "ERROR: No commits in the last month?! (now=" +:+ str_of_Z time_now +:+
    ", a month ago=" +:+ str_of_Z time_last_month +:+ ", latest_commit=" +:+
    str_of_Z most_recent_commit +:+ ")".

Definition year_error (time_now time_last_year most_recent_commit : Z) : string :=
  "ERROR: No commits in the last YEAR?! (now=" +:+ str_of_Z time_now +:+
    ", a year ago=" +:+ str_of_Z time_last_year +:+ ", latest_commit=" +:+
    str_of_Z most_recent_commit +:+ ")".

(** The script handed to gnuplot -e. *)
Definition plot_script (time_now gnuplot_stupidity : Z) (timed_plot_commands : string) : string :=
  Json.nl +:+ "                set terminal png size 1700,300 enhanced;" +:+ Json.nl +:+
    "                set xdata time;" +:+ Json.nl +:+ "                set timefmt " +:+
    dq +:+ "%s" +:+ dq +:+ ";" +:+ Json.nl +:+ "                set xlabel " +:+ dq +:+
    "Time" +:+ dq +:+ ";" +:+ Json.nl +:+ "                set format x " +:+ dq +:+
    "%Y-%m-%d %H:%M" +:+ dq +:+ ";" +:+ Json.nl +:+ "                set ylabel " +:+
    dq +:+ "Count" +:+ dq +:+ ";" +:+ Json.nl +:+
    "                set datafile separator " +:+ dq +:+ "," +:+ dq +:+ ";" +:+ Json.nl +:+
    "                set output " +:+ dq +:+ "output_total.png" +:+ dq +:+ ";" +:+
    Json.nl +:+ "                plot [:" +:+ str_of_Z (time_now - gnuplot_stupidity)%Z +:+
    "] " +:+ dq +:+ "tagged_history.csv" +:+ dq +:+ " using 1:2 with lines title " +:+
    dq +:+ "FIXMEs and TODOs" +:+ dq +:+ ";" +:+ Json.nl +:+
    "                set output " +:+ dq +:+ "output_total_depstr.png" +:+ dq +:+ ";" +:+
    Json.nl +:+ "                plot [:" +:+ str_of_Z (time_now - gnuplot_stupidity)%Z +:+
    "] " +:+ dq +:+ "tagged_history.csv" +:+ dq +:+ " using 1:3 with lines title " +:+
    dq +:+ "DeprecatedFlyStrings" +:+ dq +:+ ";" +:+ Json.nl +:+
    "                set output " +:+ dq +:+ "output_total_depfil.png" +:+ dq +:+ ";" +:+
    Json.nl +:+ "                plot [:" +:+ str_of_Z (time_now - gnuplot_stupidity)%Z +:+
    "] " +:+ dq +:+ "tagged_history.csv" +:+ dq +:+ " using 1:4 with lines title " +:+
    dq +:+ "DeprecatedFile" +:+ dq +:+ ";" +:+ Json.nl +:+ "                " +:+
    timed_plot_commands +:+ Json.nl +:+ "            ".

(** White space for [bytes.split()]: blank, TAB, LF, VT, FF, CR. *)
Definition is_bytes_space (c : ascii) : bool :=
  let n := nat_of_ascii c in
  (n =? 32) || ((9 <=? n) && (n <=? 13)).

(** [b.split()]: the maximal runs of characters that are not white space;
    [word] holds the run being read. *)
Fixpoint split_whitespace_from (word : string) (s : string) : list string :=
  match s with
  | EmptyString => if String.eqb word EmptyString then [] else [word]
  | String c rest =>
      if is_bytes_space c
      then (if String.eqb word EmptyString then split_whitespace_from EmptyString rest
            else word :: split_whitespace_from EmptyString rest)
      else split_whitespace_from (word +:+ String c EmptyString) rest
  end.

Definition split_whitespace (s : string) : list string :=
  split_whitespace_from EmptyString s.

(** The command line of the version probe. *)
Definition GNUPLOT_VERSION : list string := ["gnuplot"; "--version"].

(** [write_graphs(most_recent_commit)], with the reading [time_now] of the
    clock as an input.  [int] is the reading of decimal digits of
    [int_of_str]. *)
Definition write_graphs (w : World) (time_now most_recent_commit : Z) : M unit :=
  log (Printed (plotting_message time_now));;
  let time_last_week := (time_now - 3600 * 24 * 7)%Z in
  let time_last_month := (time_now - 3600 * 24 * 31)%Z in
  let time_last_year := (time_now - 3600 * 24 * 366)%Z in
  let timed_plot_commands := EmptyString in
  result ← subprocess_run_checked w GNUPLOT_VERSION;
  match split_whitespace (stdout result) with
  | [] => raise IndexError
  | first :: rest =>
      py_assert (String.eqb first "gnuplot");;
      match rest with
      | [] => raise IndexError
      | second :: _ =>
          match int_of_str (hd EmptyString (Py.split "." second)) with
          | None => raise ValueError
          | Some major =>
              let gnuplot_stupidity := (if (major <? 5)%Z then 946684800 else 0)%Z in
              timed_plot_commands ←
                (if (time_last_week <? most_recent_commit)%Z
                 then mret (timed_plot_commands
                              +:+ week_plots time_now time_last_week gnuplot_stupidity)
                 else log (Printed (week_warning time_now time_last_week most_recent_commit));;
                      mret timed_plot_commands);
              timed_plot_commands ←
                (if (time_last_month <? most_recent_commit)%Z
                 then mret (timed_plot_commands
                              +:+ month_plots time_now time_last_month gnuplot_stupidity)
                 else log (Printed (month_error time_now time_last_month most_recent_commit));;
                      raise AssertionError);
              timed_plot_commands ←
                (if (time_last_year <? most_recent_commit)%Z
                 then mret (timed_plot_commands
                              +:+ year_plots time_now time_last_year gnuplot_stupidity)
                 else log (Printed (year_error time_now time_last_year most_recent_commit));;
                      raise AssertionError);
              subprocess_run_checked w
                ["gnuplot"; "-e"; plot_script time_now gnuplot_stupidity timed_plot_commands];;
              mret tt
          end
      end
  end.

(** ** [save_cache] as the file system sees it

    [open(FILENAME_CACHE, "w")] truncates the live file in place, then
    [json.dump] hands the chunks of the encoder to [write] one by one, and
    leaving the [with] block closes the file.  The file object is
    buffered, so what [write] was given reaches the disk later, at the
    close at the latest.  A kill can fall between any two of these
    steps. *)
Inductive FileOp :=
| OpenTruncate
| WriteChunk (chunk : string)
| CloseFile.

Definition save_cache_ops (c : gmap string Triple) : list FileOp :=
  OpenTruncate :: map WriteChunk (Json.iterencode_dict c) ++ [CloseFile].

(** The first [n] characters of [s], all of [s] when it is shorter. *)
Fixpoint take_chars (n : nat) (s : string) : string :=
  match n, s with
  | S n', String c rest => String c (take_chars n' rest)
  | _, _ => EmptyString
  end.

(** The live file while a flush is under way: what the disk holds, and
    the text handed to [write] since the file was opened.  The file
    object is buffered: of the text handed over, only a leading part has
    reached the disk. *)
Record LiveFile := mkLive {
  on_disk : option string;
  handed : string
}.

(** One step of a flush.  [reached] is the policy of the buffers: given
    the text handed over so far, how many of its leading characters have
    been passed on to the disk when [write] returns.  Opening with "w"
    truncates the file at once; closing passes on all that is left. *)
Definition apply_op (reached : string -> nat) (file : LiveFile) (op : FileOp) : LiveFile :=
  match op with
  | OpenTruncate => mkLive (Some EmptyString) EmptyString
  | WriteChunk chunk =>
      let text := handed file +:+ chunk in
      mkLive ((fun _ => take_chars (reached text) text) <$> on_disk file) text
  | CloseFile => mkLive ((fun _ => handed file) <$> on_disk file) (handed file)
  end.

(** What the disk holds when the process is killed after [k] steps of a
    flush. *)
Definition file_after_kill (reached : string -> nat) (k : nat) (c : gmap string Triple)
    (file : option string) : option string :=
  on_disk (fold_left (apply_op reached) (take k (save_cache_ops c)) (mkLive file EmptyString)).

(** ** The flame-graph half: paths *)

(** [posixpath.join(a, b)] for two components. *)
Definition path_join (a b : string) : string :=
  if Py.startswith b "/" then b
  else if String.eqb a EmptyString || Py.endswith a "/" then a +:+ b
  else a +:+ "/" +:+ b.

(** The loop of [posixpath.normpath] over the components; [new_comps] is
    kept reversed ([pop] and [new_comps[-1]] act on its head). *)
Fixpoint normpath_comps (initial_slashes : bool) (rev_new : list string) (comps : list string) : list string :=
  match comps with
  | [] => rev rev_new
  | comp :: rest =>
      if String.eqb comp EmptyString || String.eqb comp "." then
        normpath_comps initial_slashes rev_new rest
      else if negb (String.eqb comp "..")
              || (negb initial_slashes && bool_decide (rev_new = []))
              || match rev_new with top :: _ => String.eqb top ".." | [] => false end
      then normpath_comps initial_slashes (comp :: rev_new) rest
      else normpath_comps initial_slashes (tl rev_new) rest
  end.

Definition normpath (path : string) : string :=
  if String.eqb path EmptyString then "."
  else
    let initial_slashes :=
      if Py.startswith path "/"
      then (if Py.startswith path "//" && negb (Py.startswith path "///") then 2 else 1)
      else 0 in
    let comps := normpath_comps (negb (initial_slashes =? 0)) [] (Py.split "/" path) in
    let joined := String.concat "/" comps in
    let joined := (if initial_slashes =? 2 then "//" else if initial_slashes =? 1 then "/" else EmptyString) +:+ joined in
    if String.eqb joined EmptyString then "." else joined.

(** [os.path.normpath(path).split(os.path.sep)]. *)
Definition path_segments (path : string) : list string := Py.split "/" (normpath path).

(** ** The flame-graph half: the aggregation tree *)

(** [class Node]; [todos] and [locs] default to 0. *)
Inductive Node := mkNode {
  name : string;
  children : list Node;
  todos : nat;
  locs : nat
}.

Definition new_node (file_name : string) : Node := mkNode file_name [] 0 0.

Definition with_children (node : Node) (cs : list Node) : Node :=
  mkNode (name node) cs (todos node) (locs node).

Definition excluded_segment (file_name : string) : bool :=
  bool_decide (file_name ∈ [".git"; ".devcontainer"]).

(** [get_node] acting on the tree below [node] along the segments still to
    go.  Python returns a reference into the one shared tree; here the
    result is the tree after the walk down (new nodes appended where no
    child had the name) and whether a node was returned ([false] is
    [None]; nodes made before the excluded segment was met stay).  The
    node returned is the one the same segments lead to, see [update_node]. *)
Fixpoint get_node_from (segments : list string) (node : Node) {struct segments} : bool * Node :=
  match segments with
  | [] => (true, node)
  | file_name :: rest =>
      if excluded_segment file_name then (false, node)
      else
        let fix search (cs : list Node) : bool * list Node :=
          match cs with
          | [] =>
              let '(found, made) := get_node_from rest (new_node file_name) in
              (found, [made])
          | child :: cs' =>
              if String.eqb (name child) file_name
              then let '(found, child') := get_node_from rest child in (found, child' :: cs')
              else let '(found, cs'') := search cs' in (found, child :: cs'')
          end in
        let '(found, cs) := search (children node) in
        (found, with_children node cs)
  end.

Definition get_node (path : string) (flamegraph : Node) : bool * Node :=
  get_node_from (path_segments path) flamegraph.

(** Assignment through the reference [get_node] returned: at each level
    the first child of that name, as the search of [get_node] picks it. *)
Fixpoint update_node (segments : list string) (f : Node -> Node) (node : Node) {struct segments} : Node :=
  match segments with
  | [] => f node
  | file_name :: rest =>
      let fix search (cs : list Node) : list Node :=
        match cs with
        | [] => []
        | child :: cs' =>
            if String.eqb (name child) file_name
            then update_node rest f child :: cs'
            else child :: search cs'
        end in
      with_children node (search (children node))
  end.

(** Reading through the same reference. *)
Fixpoint find_node (segments : list string) (node : Node) {struct segments} : option Node :=
  match segments with
  | [] => Some node
  | file_name :: rest =>
      let fix search (cs : list Node) : option Node :=
        match cs with
        | [] => None
        | child :: cs' =>
            if String.eqb (name child) file_name then find_node rest child else search cs'
        end in
      search (children node)
  end.

Definition sum_list (l : list nat) : nat := fold_left Nat.add l 0.

Definition set_counts (t l : nat) (node : Node) : Node :=
  mkNode (name node) (children node) t l.

(** [node.todos = sum(child.todos ...); node.locs = sum(child.locs ...)]. *)
Definition aggregate (node : Node) : Node :=
  set_counts (sum_list (map todos (children node))) (sum_list (map locs (children node))) node.

(** ** The flame-graph half: the working tree and [os.walk] *)

(** What [open(full_name, "rt", encoding="utf-8")] iterates over: the
    lines of the file, or a UnicodeDecodeError somewhere on the way. *)
Inductive FileText :=
| Lines (lines : list string)
| Undecodable.

Inductive FsEntry :=
| FsFile (file_name : string) (text : FileText)
| FsDir (dir_name : string) (entries : list FsEntry).

Definition dir_names (entries : list FsEntry) : list string :=
  omap (fun e => match e with FsDir n _ => Some n | FsFile _ _ => None end) entries.

Definition file_entries (entries : list FsEntry) : list (string * FileText) :=
  omap (fun e => match e with FsFile n t => Some (n, t) | FsDir _ _ => None end) entries.

(** One triple [(root, dirs, files)] of the walk; each file name comes
    with the text [open] will find under it. *)
Definition WalkItem : Type := string * list string * list (string * FileText).

(** [os.walk(top, topdown=False)] where [top] is the path of directory
    [dir]: the walks of the sub-directories in listing order, then the
    directory itself.  (The name stored in [dir] is that of its entry in
    the parent; the walk only uses the path.) *)
Fixpoint walk_dir (top : string) (dir : FsEntry) {struct dir} : list WalkItem :=
  match dir with
  | FsFile _ _ => []
  | FsDir _ entries =>
      let fix subwalks (es : list FsEntry) : list WalkItem :=
        match es with
        | [] => []
        | e :: es' =>
            (match e with
             | FsDir n _ => walk_dir (path_join top n) e
             | FsFile _ _ => []
             end ++ subwalks es')%list
        end in
      (subwalks entries ++ [(top, dir_names entries, file_entries entries)])%list
  end.

(** [os.walk(".", topdown=False)] after [os.chdir(SERENITY_DIR)], the work
    tree holding [tree]. *)
Definition walk (tree : list FsEntry) : list WalkItem := walk_dir "." (FsDir "." tree).

(** ** The flame-graph half: scanning and aggregating *)

Definition EXTENSIONS : list string :=
  [".h"; ".c"; ".cpp"; ".html"; ".js"; ".sh"; "*.txt"; "*.cmake"].

Definition SKIPPED_FIXTURES : list string :=
  ["./Tests/LibWeb/Layout/input/html-encoding-detection-crash.html";
   "./Tests/LibWeb/Layout/input/utf-16-be-xhtml-file-should-decode-correctly.html"].

(** [any(name.endswith(ext) for ext in [...])]. *)
Definition has_extension (file_name : string) : bool :=
  existsb (Py.endswith file_name) EXTENSIONS.

(** The body of [for line in file_p] on the pair [(todos, locs)]. *)
Definition scan_line (acc : nat * nat) (line : string) : nat * nat :=
  let '(t, l) := acc in
  let line := Py.upper (Py.strip line) in
  let t := t + (Py.count line "FIXME" + Py.count line "TODO") in
  if Py.truthy_str line && negb (Py.startswith line "//") then (t, l + 1) else (t, l).

Definition scan_lines (lines : list string) : nat * nat :=
  fold_left scan_line lines (0, 0).

(** Rounding of [num / den] ([den] positive) to the nearest integer, ties
    to the even one: the rule of IEEE 754 arithmetic and of the correctly
    rounded conversion behind the format type "f". *)
Definition round_half_even (num den : Z) : Z :=
  let q := (num / den)%Z in
  let r := (num mod den)%Z in
  if (2 * r <? den)%Z then q
  else if (den <? 2 * r)%Z then (q + 1)%Z
  else if Z.even q then q else (q + 1)%Z.

(** A non-negative binary64 below infinity, as the whole number of units
    of 2^-1074 it holds: every such float is a multiple of the smallest
    subnormal. *)
Definition Binary64 : Type := Z.

Definition UNIT : Z := 2 ^ 1074.

(** The binary64 nearest to the fraction [num / den] ([num] not negative,
    [den] positive, the fraction below the overflow threshold), ties to
    the even mantissa: the result IEEE 754 asks of a division or a
    product.  The quotient is rounded to a multiple of
    the spacing of the floats around it, which is 2^(a - 52) units for a
    value of 2^a units or more (a mantissa of 53 bits), and one unit
    among the subnormals. *)
Definition nearest_binary64 (num den : Z) : Binary64 :=
  let q := (num * UNIT)%Z in
  let a := Z.log2 (q / den) in
  let spacing := (2 ^ Z.max 0 (a - 52))%Z in
  (round_half_even q (den * spacing) * spacing)%Z.

(** [todos / locs]: true division of two ints, the binary64 nearest to
    the quotient. *)
Definition true_divide (a b : nat) : Binary64 :=
  nearest_binary64 (Z.of_nat a) (Z.of_nat b).

(** One element of [ratios_list]. *)
Record RatioEntry := mkRatio {
  r_todos : nat;
  r_locs : nat;
  r_ratio : Binary64;
  r_name : string
}.

(** [full_name[2:]]. *)
Definition drop2 (s : string) : string :=
  match s with
  | String _ (String _ rest) => rest
  | _ => EmptyString
  end.

(** The state of the walk: the tree under [flamegraph] and [ratios_list]
    (appended at the end). *)
Definition WalkState : Type := Node * list RatioEntry.

(** The body of [for name in files] for one file of directory [root]. *)
Definition scan_file (root : string) (st : WalkState) (file : string * FileText) : WalkState :=
  let '(flamegraph, ratios_list) := st in
  let '(file_name, text) := file in
  let full_name := path_join root file_name in
  if negb (has_extension file_name) then st
  else if bool_decide (full_name ∈ SKIPPED_FIXTURES) then st
  else
    let '(found, flamegraph) := get_node full_name flamegraph in
    if negb found then (flamegraph, ratios_list)
    else
      match text with
      | Undecodable => (flamegraph, ratios_list)
      | Lines lines =>
          let '(t, l) := scan_lines lines in
          let flamegraph := update_node (path_segments full_name) (set_counts t l) flamegraph in
          if Py.truthy_nat t && Py.truthy_nat l then
            let shown := if Py.startswith full_name "./" then drop2 full_name else full_name in
            (flamegraph, (ratios_list ++ [mkRatio t l (true_divide t l) shown])%list)
          else (flamegraph, ratios_list)
      end.

(** The body of [for name in dirs] for one sub-directory of [root]. *)
Definition sum_dir (root : string) (st : WalkState) (dir_name : string) : WalkState :=
  let '(flamegraph, ratios_list) := st in
  let path := path_join root dir_name in
  let '(found, flamegraph) := get_node path flamegraph in
  if negb found then (flamegraph, ratios_list)
  else (update_node (path_segments path) aggregate flamegraph, ratios_list).

(** The body of [for root, dirs, files in os.walk(...)]. *)
Definition walk_step (st : WalkState) (item : WalkItem) : WalkState :=
  let '(root, dirs, files) := item in
  fold_left (sum_dir root) dirs (fold_left (scan_file root) files st).

(** The tree and the ratio list when the walk over the work tree ends. *)
Definition build_flamegraph (tree : list FsEntry) : WalkState :=
  fold_left walk_step (walk tree) (new_node ".", []).

(** ** The flame-graph half: the projections written out *)

(** An [OutputNode]: the key "children" is present only when the list is
    not empty. *)
Inductive OutputNode := mkOut {
  out_name : string;
  out_value : nat;
  out_children : option (list OutputNode)
}.

(** [new_child.get("children", [])]. *)
Definition get_children (o : OutputNode) : list OutputNode :=
  default [] (out_children o).

(** The test that keeps a child: [new_child["value"] or
    new_child.get("children", [])]. *)
Definition kept (new_child : OutputNode) : bool :=
  Py.truthy_nat (out_value new_child)
  || match get_children new_child with [] => false | _ :: _ => true end.

Fixpoint set_value (calculate : Node -> nat) (node : Node) {struct node} : OutputNode :=
  let fix each (cs : list Node) : list OutputNode :=
    match cs with
    | [] => []
    | child :: cs' =>
        let new_child := set_value calculate child in
        if kept new_child then new_child :: each cs'
        else each cs'
    end in
  let kids := each (children node) in
  mkOut (name node) (calculate node)
        (match kids with [] => None | _ :: _ => Some kids end).

Definition todo_graph (flamegraph : Node) : OutputNode := set_value todos flamegraph.
Definition loc_graph (flamegraph : Node) : OutputNode := set_value locs flamegraph.

(** ** The flame-graph half: the ranked report *)

Definition two_digits (n : Z) : string :=
  (if (n <? 10)%Z then "0" else EmptyString) +:+ str_of_Z n.

(** A count of hundredths printed with two decimals. *)
Definition fixed2 (negative : bool) (hundredths : Z) : string :=
  (if negative then "-" else EmptyString)
    +:+ str_of_Z (hundredths / 100) +:+ "." +:+ two_digits (hundredths mod 100).

(** [format(x, ".2%")]: the float is multiplied by 100 as a binary64, the
    product is printed in fixed notation with two decimals, rounded from
    its exact value, and a percent sign follows. *)
Definition format_percent2 (x : Binary64) : string :=
  let product := nearest_binary64 (x * 100) UNIT in
  fixed2 false (round_half_even (product * 100) UNIT) +:+ "%".

Definition RATIO_HEADER : string := "TODO,LOC,TODO/LOC,FILE" +:+ Json.nl.

(** [f"{e[0]},{e[1]},{e[2]:.2%},{e[3]}\n"]. *)
Definition ratio_row (e : RatioEntry) : string :=
  Py.str_of_nat (r_todos e) +:+ "," +:+ Py.str_of_nat (r_locs e) +:+ ","
    +:+ format_percent2 (r_ratio e) +:+ "," +:+ r_name e +:+ Json.nl.

(** The lines written to ratio.csv, the header first. *)
Definition ratio_csv_lines (ratios_list : list RatioEntry) : list string :=
  RATIO_HEADER :: map ratio_row ratios_list.

(** What [generate_flame_graph] writes: todo.json and loc.json as
    structures, ratio.csv as its lines. *)
Definition generate_flame_graph (tree : list FsEntry) : OutputNode * OutputNode * list string :=
  let '(flamegraph, ratios_list) := build_flamegraph tree in
  (todo_graph flamegraph, loc_graph flamegraph, ratio_csv_lines ratios_list).

(** ** Vocabulary of the statements *)



Fixpoint last_char (s : string) : option ascii :=
  match s with
  | EmptyString => None
  | String c rest =>
      match last_char rest with
      | None => Some c
      | Some d => Some d
      end
  end.

(** An ordinary file name: no asterisk in it. *)
Definition ordinary_name (file_name : string) : Prop :=
  ~ In "*"%char (list_ascii_of_string file_name).

(** The text git grep -h prints for a list of matching lines: each line
    followed by a newline. *)
Fixpoint grep_output (matches : list string) : string :=
  match matches with
  | [] => EmptyString
  | m :: ms => m +:+ Json.nl +:+ grep_output ms
  end.

Definition newline_free (line : string) : Prop :=
  ~ In Py.newline (list_ascii_of_string line).

(** A world whose git answers every command line with [answer], with an
    empty seed cache that decodes to the empty dict. *)
Definition world_of (answer : list string -> option string -> CompletedProcess) : World :=
  mkWorld answer (fun _ => Some ∅) (Some "{}") true (fun _ => EmptyString).

(** Every grep finds nothing (exit status 1, no output); every other git
    command succeeds silently. *)
Definition no_match_world : World :=
  world_of (fun argv _ =>
    if bool_decide ("grep" ∈ argv) then mkProc 1 EmptyString else mkProc 0 EmptyString).

(** The state before anything ran: empty dict, no live cache file. *)
Definition fresh_state : State := mkState ∅ None None [].

(** *** Vocabulary for the lines of a file *)














(** *** Vocabulary for the cache *)

Definition CHECKOUT (commit : string) : list string :=
  ["git"; "-C"; SERENITY_DIR; "checkout"; "-q"; commit].
Definition GREP_FIXMES : list string :=
  ["git"; "-C"; SERENITY_DIR; "grep"; "-IiEh"; "FIXME|TODO"].
Definition GREP_STRINGS : list string :=
  ["git"; "-C"; SERENITY_DIR; "grep"; "-IEh"; "DeprecatedFlyString"].
Definition GREP_FILES : list string :=
  ["git"; "-C"; SERENITY_DIR; "grep"; "-IFh"; "DeprecatedFile"].

(** The count a scan draws from a grep result, when its two assertions
    hold. *)
Definition grep_count (result : CompletedProcess) : option nat :=
  if bool_decide (returncode result ∈ [0; 1]%Z)
     && bool_decide (Py.last_item (Py.split Py.newline (stdout result)) = Some EmptyString)
  then Some (length (Py.split Py.newline (stdout result)))
  else None.

(** The triple a fresh computation for [commit] arrives at: the checkout
    (run while the work tree holds [before]) must exit with 0 and each of
    the three greps over the tree of [commit] must pass its assertions. *)
Definition fresh_triple (w : World) (before : option string) (commit : string) : option Triple :=
  if (returncode (git w (CHECKOUT commit) before) =? 0)%Z then
    f ← grep_count (git w GREP_FIXMES (Some commit));
    ds ← grep_count (git w GREP_STRINGS (Some commit));
    df ← grep_count (git w GREP_FILES (Some commit));
    Some (f, ds, df)
  else None.

(** The loop of [run] over the commit list. *)
Definition lookup_all (w : World) (commits_and_dates : list (string * Z)) : M (list Row) :=
  mapM (fun cd => lookup_commit w cd.1 cd.2) commits_and_dates.

(** The live file holds a flush of a part of the dict that lacks at most
    [size (cache st) mod 200] of its entries. *)
Definition durable (st : State) : Prop :=
  exists flushed : gmap string Triple,
    live_file st = Some (Json.dumps flushed)
    /\ flushed ⊆ cache st
    /\ size (cache st) - size flushed <= size (cache st) mod SAVE_CACHE_INV_FREQ.

(** Number of flushes among the events. *)
Definition saves (evs : list Event) : nat :=
  length (List.filter (fun ev => match ev with Saved _ => true | _ => false end) evs).

(** A dict of [n] entries, keyed by the decimal numerals below [n]. *)
Definition numbered_cache (n : nat) : gmap string Triple :=
  list_to_map (map (fun i => (Py.str_of_nat i, (i, 0, 0))) (seq 0 n)).

(** A git that refuses everything. *)
Definition broken_world : World :=
  world_of (fun _ _ => mkProc 128 "fatal: not a git repository").

Definition push (ev : Event) (st : State) : State :=
  mkState (cache st) (live_file st) (head st) (ev :: events st).

Definition scan_outcome (result : CompletedProcess) : Outcome nat :=
  match grep_count result with
  | Some n => Return n
  | None => Raise AssertionError
  end.

(** The state a completed fresh computation leaves: the triple stored,
    the file rewritten when the dict has reached a multiple of 200 keys,
    the work tree at [commit], and the events of the call. *)
Definition after_miss (st : State) (commit : string) (t : Triple) : State :=
  let c' := <[commit := t]> (cache st) in
  let flush := size c' mod SAVE_CACHE_INV_FREQ =? 0 in
  mkState c'
    (if flush then Some (Json.dumps c') else live_file st)
    (Some commit)
    (Printed ("Extended cache by " +:+ commit +:+ " (now containing "
                +:+ Py.str_of_nat (size c') +:+ " keys)")
     :: (if flush then [Saved (Json.dumps c'); Printed "    (actually saving cache)"] else [])
     ++ [Ran GREP_FILES; Ran GREP_STRINGS; Ran GREP_FIXMES; Ran (CHECKOUT commit)]
     ++ events st)%list.

(** [run] up to the loop over the commits: the list to walk, with the
    loaded dict in place. *)
Definition run_prefix (w : World) : M (list (string * Z)) :=
  (if readme_exists w then mret tt
   else log (Printed "Can't find Serenity checkout");; raise (SystemExit 1));;
  fetch_new w;;
  commits_and_dates ← determine_commit_and_date_list w;
  c ← load_cache w;
  set_cache c;;
  mret commits_and_dates.

(** The live file, when there is one, was written by an earlier flush and
    the decoder gives back what was flushed. *)
Definition file_from_flush (w : World) (st : State) : Prop :=
  forall text, live_file st = Some text ->
    exists flushed, text = Json.dumps flushed /\ json_load w text = Some flushed.

(** Steps that touch neither the dict nor the live file. *)
Definition keeps_cache {A} (m : M A) : Prop :=
  forall st, cache (snd (m st)) = cache st /\ live_file (snd (m st)) = live_file st.

(** When a flush is due if one counts the entries computed in this run,
    as the specification words it. *)
Definition flush_due_by_new_entries (new_entries : nat) : bool :=
  new_entries mod SAVE_CACHE_INV_FREQ =? 0.

(** A state holding one computed commit, flushed. *)
Definition one_key_state : State :=
  mkState {["abc" := (5, 2, 1)]} (Some (Json.dumps {["abc" := (5, 2, 1)]})) None [].

(** A state whose live file is the flush of its dict. *)
Definition flushed_state (c : gmap string Triple) : State :=
  mkState c (Some (Json.dumps c)) None [].

(** [n] commits that no numbered cache holds. *)
Definition new_commits (n : nat) : list (string * Z) :=
  map (fun i => ("n" +:+ Py.str_of_nat i, Z.of_nat i)) (seq 0 n).

(** [lookup_commit] on a commit that is no key, up to and including the
    store of line 143: the checkout, the three scans, and the assignment
    into the dict. *)
Definition compute_and_store (w : World) (commit : string) : M Triple :=
  subprocess_run_checked w ["git"; "-C"; SERENITY_DIR; "checkout"; "-q"; commit];;
  set_head commit;;
  f ← count_fixmes_here w;
  ds ← count_deprecated_strings_here w;
  df ← count_deprecated_files_here w;
  cache_store commit (f, ds, df);;
  mret (f, ds, df).

(** The rest of that call, lines 144 to 158: the flush when the size of
    the dict is a multiple of 200, the message, and the row. *)
Definition flush_and_report (w : World) (commit : string) (date : Z) (t : Triple) : M Row :=
  c' ← get_cache;
  (if size c' mod SAVE_CACHE_INV_FREQ =? 0
   then log (Printed "    (actually saving cache)");; save_cache c'
   else mret tt);;
  log (Printed ("Extended cache by " +:+ commit +:+ " (now containing "
                  +:+ Py.str_of_nat (size c') +:+ " keys)"));;
  mret (make_row w commit date t).

(** The state at the store: the entry is in the dict, the file is as it
    was. *)
Definition at_store (st : State) (commit : string) (t : Triple) : State :=
  mkState (<[commit := t]> (cache st)) (live_file st) (Some commit)
    ([Ran GREP_FILES; Ran GREP_STRINGS; Ran GREP_FIXMES; Ran (CHECKOUT commit)] ++ events st).

(** A state holding [n] entries of which none is in the live file. *)
Definition unflushed_state (n : nat) : State :=
  mkState (numbered_cache n) (Some (Json.dumps ∅)) None [].

(** Buffers that pass nothing on before the file is closed, as for a text
    that fits them. *)
Definition nothing_before_close : string -> nat := fun _ => 0.

(** *** Vocabulary for the tree *)



(** A small tree: a directory whose own count was left at zero above a
    file with three markers, beside two silent files. *)
Definition sample_dir : Node :=
  mkNode "src" [mkNode "main.cpp" [] 3 12; mkNode "empty.h" [] 0 0] 0 0.
Definition sample_root : Node :=
  mkNode "." [sample_dir; mkNode "README.md" [] 0 0] 0 0.

(** *** Vocabulary for the report *)

(** No segment of the path is one of the two excluded names. *)
Definition path_allowed (path : string) : bool :=
  forallb (fun seg => negb (excluded_segment seg)) (path_segments path).

(** A file the walk reads to the end, with its full name and its two
    counts: it has a configured extension, is not one of the skipped
    fixtures, lies under no excluded directory, and decodes. *)
Definition scanned (root : string) (file : string * FileText) : option (string * (nat * nat)) :=
  let full_name := path_join root file.1 in
  match file.2 with
  | Lines lines =>
      if has_extension file.1
         && negb (bool_decide (full_name ∈ SKIPPED_FIXTURES))
         && path_allowed full_name
      then Some (full_name, scan_lines lines)
      else None
  | Undecodable => None
  end.

Definition scanned_in (item : WalkItem) : list (string * (nat * nat)) :=
  omap (scanned item.1.1) item.2.

Definition scanned_files (tree : list FsEntry) : list (string * (nat * nat)) :=
  flat_map scanned_in (walk tree).

Definition both_nonzero (x : string * (nat * nat)) : bool :=
  negb (x.2.1 =? 0) && negb (x.2.2 =? 0).

Definition ratio_entry (x : string * (nat * nat)) : RatioEntry :=
  mkRatio x.2.1 x.2.2 (true_divide x.2.1 x.2.2)
          (if Py.startswith x.1 "./" then drop2 x.1 else x.1).

(** The entries of the report for a list of scanned files. *)
Definition ranked (xs : list (string * (nat * nat))) : list RatioEntry :=
  map ratio_entry (List.filter both_nonzero xs).

(** The character of a decimal digit. *)
Definition digit (d : nat) : ascii := ascii_of_nat (48 + d).

(** A count converted to a float of the machine, exact below 2^53. *)
Definition float_of_nat (n : nat) : float := PrimFloat.of_uint63 (Uint63.of_Z (Z.of_nat n)).

(** The units a float of the machine holds, for a finite positive one. *)
Definition units_of_float (x : float) : option Z :=
  match Prim2SF x with
  | S754_finite false m e => Some (Z.pos m * 2 ^ (e + 1074))%Z
  | S754_zero false => Some 0%Z
  | _ => None
  end.

(** A work tree with one file of 3 markers and 12 counted lines. *)
Definition sample_fs : list FsEntry :=
  [FsDir "src"
     [FsFile "main.cpp"
        (Lines (repeat "// TODO: later" 3 ++ repeat "  return x;" 12)%list);
      FsFile "empty.h" (Lines [])];
   FsFile "README.md" (Lines ["TODO: write me"])].

(** The two counts stored in a node itself. *)
Definition own_counts (node : Node) : nat * nat := (todos node, locs node).

(** *** Vocabulary for the walk *)

(** [p] is an initial part of [q]. *)
Fixpoint is_prefix (p q : list string) : bool :=
  match p, q with
  | [], _ => true
  | a :: p', b :: q' => String.eqb a b && is_prefix p' q'
  | _ :: _, [] => false
  end.

(** The first child called [seg], as the searches of [get_node] pick it. *)
Fixpoint first_named (seg : string) (cs : list Node) : option Node :=
  match cs with
  | [] => None
  | c :: cs' => if String.eqb (name c) seg then Some c else first_named seg cs'
  end.

(** The children after [get_node] has gone through [seg] into them. *)
Fixpoint descend (seg : string) (enter : Node -> bool * Node) (cs : list Node) : bool * list Node :=
  match cs with
  | [] => let '(found, made) := enter (new_node seg) in (found, [made])
  | c :: cs' =>
      if String.eqb (name c) seg
      then let '(found, c') := enter c in (found, c' :: cs')
      else let '(found, cs'') := descend seg enter cs' in (found, c :: cs'')
  end.

(** The children after an assignment through the reference has gone
    through [seg] into them: the first child of that name is replaced. *)
Fixpoint replace_first (seg : string) (f : Node -> Node) (cs : list Node) : list Node :=
  match cs with
  | [] => []
  | c :: cs' => if String.eqb (name c) seg then f c :: cs' else c :: replace_first seg f cs'
  end.

(** The node [get_node] goes into for [seg]: the first child of that name,
    or the node it makes. *)
Definition child_or_new (seg : string) (cs : list Node) : Node :=
  match first_named seg cs with
  | Some c => c
  | None => new_node seg
  end.

(** [f] leaves the name and the children of a node alone. *)
Definition keeps_shape (f : Node -> Node) : Prop :=
  forall n, name (f n) = name n /\ children (f n) = children n.

(** No segment is one of the two excluded names. *)
Definition allowed (p : list string) : bool :=
  forallb (fun seg => negb (excluded_segment seg)) p.

(** The counts of a node are the sums over its children. *)
Definition summed (n : Node) : Prop :=
  todos n = sum_list (map todos (children n)) /\ locs n = sum_list (map locs (children n)).

(** A name a directory listing can hold: not empty, not "." or "..", and
    without a slash. *)
Definition valid_name (n : string) : bool :=
  negb (String.eqb n EmptyString) && negb (String.eqb n ".") && negb (String.eqb n "..")
  && forallb (fun c => negb (Ascii.eqb c "/")) (list_ascii_of_string n).

Definition entry_name (e : FsEntry) : string :=
  match e with
  | FsFile n _ => n
  | FsDir n _ => n
  end.

(** No string occurs twice. *)
Fixpoint distinct (l : list string) : bool :=
  match l with
  | [] => true
  | x :: l' => negb (existsb (String.eqb x) l') && distinct l'
  end.

(** The names of a directory are valid and differ from one another, all
    the way down. *)
Fixpoint wf_entry (e : FsEntry) : bool :=
  match e with
  | FsFile n _ => valid_name n
  | FsDir n es => valid_name n && distinct (map entry_name es) && forallb wf_entry es
  end.

Definition wf_tree (tree : list FsEntry) : bool :=
  distinct (map entry_name tree) && forallb wf_entry tree.

(** [p] leads from the entries [es] down to a directory. *)
Fixpoint dir_at (p : list string) (es : list FsEntry) {struct p} : bool :=
  match p with
  | [] => false
  | seg :: rest =>
      existsb (fun e => match e with
                        | FsDir n sub =>
                            String.eqb n seg
                            && match rest with [] => true | _ :: _ => dir_at rest sub end
                        | FsFile _ _ => false
                        end) es
  end.

(** The path [os.walk] builds for the directory reached through [P]. *)
Fixpoint slashes (P : list string) : string :=
  match P with
  | [] => EmptyString
  | seg :: P' => "/" +:+ seg +:+ slashes P'
  end.

Definition render (P : list string) : string := "." +:+ slashes P.

(** [top] is the path the walk gives the directory reached through the
    valid segments [P]. *)
Definition walk_top (top : string) (P : list string) : Prop :=
  top = render P /\ Forall (fun seg => valid_name seg = true) P.

Definition slash_free (s : string) : Prop := ~ In "/"%char (list_ascii_of_string s).

(** The part of a walk that belongs to one entry of the directory [top]. *)
Definition sub_walk (top : string) (e : FsEntry) : list WalkItem :=
  match e with
  | FsDir n _ => walk_dir (path_join top n) e
  | FsFile _ _ => []
  end.

Definition entries_of (e : FsEntry) : list FsEntry :=
  match e with
  | FsDir _ es => es
  | FsFile _ _ => []
  end.

(** What walking the directory [e], found at [top], does to the tree: a
    path that neither leads to [P] nor passes through it still leads to
    the same node, and every directory below [P] that no excluded name
    hides has a node whose counts are the sums over its children. *)
Definition walked_well (e : FsEntry) : Prop :=
  forall top P st, wf_tree (entries_of e) = true -> walk_top top P ->
    (forall r, is_prefix r P = false -> is_prefix P r = false ->
       find_node r (fst (fold_left walk_step (walk_dir top e) st)) = find_node r (fst st))
    /\ (forall p, dir_at p (entries_of e) = true -> allowed (P ++ p) = true ->
          exists node, find_node (P ++ p) (fst (fold_left walk_step (walk_dir top e) st)) = Some node
                       /\ summed node).

(** A work tree two directories deep. *)
Definition nested_fs : list FsEntry :=
  [FsDir "Kernel"
     [FsDir "Arch" [FsFile "cpu.cpp" (Lines ["// FIXME: one"; "int a;"; "int b; // TODO"])];
      FsFile "init.c" (Lines ["/* todo */ int c;"]);
      FsDir ".git" [FsFile "hook.sh" (Lines ["# TODO"])]];
   FsFile "main.cpp" (Lines ["int main() {}"])].

(** *** Vocabulary for the commit list, the time series and the plots *)

(** A decimal digit. *)
Definition is_digit (c : ascii) : bool :=
  (48 <=? nat_of_ascii c) && (nat_of_ascii c <=? 57).

(** The command line of [determine_commit_and_date_list]. *)
Definition LOG : list string :=
  ["git"; "-C"; SERENITY_DIR; "log"; "origin/master"; "--reverse"; "--format=%H %ct"].

(** The line git log prints for one commit under the format "%H %ct". *)
Definition log_line (entry : string * Z) : string :=
  entry.1 +:+ " " +:+ str_of_Z entry.2.

(** What git log answers. *)
Definition log_answer (w : World) (st : State) : CompletedProcess := git w LOG (head st).

(** A commit name as git prints it: no blank and no newline in it. *)
Definition plain_hash (hash : string) : Prop :=
  ~ In " "%char (list_ascii_of_string hash) /\ newline_free hash.

(** A git with two commits in its log and nothing to find in either. *)
Definition two_commit_world : World :=
  world_of (fun argv _ =>
    if bool_decide ("grep" ∈ argv) then mkProc 1 EmptyString
    else if bool_decide ("log" ∈ argv)
         then mkProc 0 ("abc 7" +:+ Json.nl +:+ "def 9" +:+ Json.nl)
         else mkProc 0 EmptyString).

(** The row of the time series for a commit, read from a dict that holds it. *)
Definition row_of (w : World) (c : gmap string Triple) (cd : string * Z) : Row :=
  make_row w cd.1 cd.2 (default ((0, 0, 0) : Triple) (c !! cd.1)).

(** A world whose gnuplot answers the version probe with [version] and
    runs every script. *)
Definition gnuplot_world (version : string) : World :=
  world_of (fun argv _ =>
    if bool_decide (argv = GNUPLOT_VERSION) then mkProc 0 version else mkProc 0 EmptyString).

(** The version probe succeeds and names the major version [major]. *)
Definition probe_ok (w : World) (st : State) (major : Z) : Prop :=
  exists out second rest,
    git w GNUPLOT_VERSION (head st) = mkProc 0 out
    /\ split_whitespace out = "gnuplot" :: second :: rest
    /\ int_of_str (hd EmptyString (Py.split "." second)) = Some major.

(** The offset taken off every range bound. *)
Definition epoch_offset (major : Z) : Z := if (major <? 5)%Z then 946684800%Z else 0%Z.

(** The state once the probe has been made. *)
Definition probed (time_now : Z) (st : State) : State :=
  push (Ran GNUPLOT_VERSION) (push (Printed (plotting_message time_now)) st).

(** What gnuplot answers to the probe. *)
Definition version_answer (w : World) (st : State) : CompletedProcess :=
  git w GNUPLOT_VERSION (head st).

(** The newest commit is less than seven days old. *)
Definition week_is_fresh (time_now most_recent_commit : Z) : bool :=
  (time_now - 3600 * 24 * 7 <? most_recent_commit)%Z.

(** The command line of the plots when nothing stops them: the week plots
    when the week is fresh, then the month and the year plots. *)
Definition PLOT (time_now most_recent_commit major : Z) : list string :=
  let offset := epoch_offset major in
  ["gnuplot"; "-e";
   plot_script time_now offset
     (((if week_is_fresh time_now most_recent_commit
        then week_plots time_now (time_now - 3600 * 24 * 7) offset
        else EmptyString)
       +:+ month_plots time_now (time_now - 3600 * 24 * 31) offset)
      +:+ year_plots time_now (time_now - 3600 * 24 * 366) offset)].

(** The state after the probe and the warning about a quiet week. *)
Definition warned (time_now most_recent_commit : Z) (st : State) : State :=
  if week_is_fresh time_now most_recent_commit then probed time_now st
  else push (Printed (week_warning time_now (time_now - 3600 * 24 * 7) most_recent_commit))
            (probed time_now st).

(** *** Vocabulary for the counts of the tree *)

(** The entry [e] lies in the directory reached from the entries [es]
    through the directories [Q]. *)
Fixpoint entry_at (Q : list string) (e : FsEntry) (es : list FsEntry) : Prop :=
  match Q with
  | [] => In e es
  | seg :: rest => exists sub, In (FsDir seg sub) es /\ entry_at rest e sub
  end.

(** The two counts the walk stores for a file: those of its lines, or the
    defaults of a new node when the text does not decode. *)
Definition leaf_counts (text : FileText) : nat * nat :=
  match text with
  | Lines lines => scan_lines lines
  | Undecodable => (0, 0)
  end.

(** The node of the file [f] whose full name is [full_name], if the walk
    makes one. *)
Definition expected_leaf (full_name : string) (f : string * FileText) : option Node :=
  if has_extension f.1 && negb (bool_decide (full_name ∈ SKIPPED_FIXTURES))
  then Some (mkNode f.1 [] (leaf_counts f.2).1 (leaf_counts f.2).2)
  else None.

(** What walking the directory [e], found at [top], does for the files
    below it: a file whose path led to no node before has the node
    [expected_leaf] names afterwards, or still none. *)
Definition leafed (e : FsEntry) : Prop :=
  forall top P st Q f, wf_tree (entries_of e) = true -> walk_top top P ->
    entry_at Q (FsFile f.1 f.2) (entries_of e) -> allowed (P ++ Q ++ [f.1]) = true ->
    find_node (P ++ Q ++ [f.1]) (fst st) = None ->
    find_node (P ++ Q ++ [f.1]) (fst (fold_left walk_step (walk_dir top e) st))
    = expected_leaf (render (P ++ Q ++ [f.1])) f.

(** The children of a node bear different names, none of them excluded. *)
Definition tidy (node : Node) : Prop :=
  NoDup (map name (children node))
  /\ Forall (fun c => excluded_segment (name c) = false) (children node).

(** [phi] holds of the node and of every node below it. *)
Inductive all_nodes (phi : Node -> Prop) : Node -> Prop :=
| all_nodes_intro (node : Node) :
    phi node -> Forall (all_nodes phi) (children node) -> all_nodes phi node.

(** The two counts the walk ends with for an entry found in the directory
    [top]: those of its lines for a file that is scanned, the sums over
    its entries for a directory, nothing under an excluded name. *)
Fixpoint entry_total (top : string) (e : FsEntry) : nat * nat :=
  match e with
  | FsFile file_name text =>
      if has_extension file_name
         && negb (bool_decide (path_join top file_name ∈ SKIPPED_FIXTURES))
      then leaf_counts text
      else (0, 0)
  | FsDir dir_name sub =>
      if excluded_segment dir_name then (0, 0)
      else let below := map (entry_total (path_join top dir_name)) sub in
           (sum_list (map fst below), sum_list (map snd below))
  end.

(** The totals over the entries of the directory [top]. *)
Definition total (top : string) (es : list FsEntry) : nat * nat :=
  (sum_list (map fst (map (entry_total top) es)),
   sum_list (map snd (map (entry_total top) es))).

(** The counts found at the end of a path, [(0, 0)] where it leads nowhere. *)
Definition counts_at (r : list string) (node : Node) : nat * nat :=
  match find_node r node with
  | Some n => own_counts n
  | None => (0, 0)
  end.

(** The first entry called [x]. *)
Definition entry_named (x : string) (es : list FsEntry) : option FsEntry :=
  List.find (fun e => String.eqb (entry_name e) x) es.

(** What the entry called [x] of the directory [top] adds to its totals. *)
Definition share (top : string) (es : list FsEntry) (x : string) : nat * nat :=
  match entry_named x es with
  | Some e => entry_total top e
  | None => (0, 0)
  end.

(** The tree [t] holds what the walk of the directory [top], reached
    through [P] and holding the entries [es], has to leave: under each
    name the share of the entry of that name, and for each directory
    below a node with its totals. *)
Definition settled (top : string) (P : list string) (es : list FsEntry) (t : Node) : Prop :=
  (forall x, counts_at (P ++ [x]) t = share top es x)
  /\ (forall Q d sub, entry_at Q (FsDir d sub) es -> allowed (P ++ Q ++ [d]) = true ->
        exists node, find_node (P ++ Q ++ [d]) t = Some node
                     /\ own_counts node = total (render (P ++ Q ++ [d])) sub).

(** What walking the directory [e], found at [top], leaves in a tree that
    held nothing below it before. *)
Definition totaled (e : FsEntry) : Prop :=
  forall top P st, wf_tree (entries_of e) = true -> walk_top top P -> allowed P = true ->
    all_nodes tidy (fst st) -> (forall x, find_node (P ++ [x]) (fst st) = None) ->
    settled top P (entries_of e) (fst (fold_left walk_step (walk_dir top e) st)).

(** *** Vocabulary for the work tree *)

(** The commits of the list that are no key of the dict [c]. *)
Definition uncached (c : gmap string Triple) (cds : list (string * Z)) : list (string * Z) :=
  List.filter (fun cd => bool_decide (c !! cd.1 = None)) cds.

(** Steps that leave the work tree at the commit it holds. *)
Definition keeps_head {A} (m : M A) : Prop :=
  forall st, head (snd (m st)) = head st.

(** * Properties *)

(** ** Strings *)

Lemma append_empty_r (s : string) : s +:+ EmptyString = s.
Proof.
  induction s as [|c s IH]; [reflexivity|].
  change (String c s +:+ EmptyString) with (String c (s +:+ EmptyString)). now rewrite IH.
Qed.

Lemma append_assoc (a b c : string) : (a +:+ b) +:+ c = a +:+ (b +:+ c).
Proof.
  induction a as [|x a IH]; [reflexivity|].
  change ((String x a +:+ b) +:+ c) with (String x ((a +:+ b) +:+ c)). now rewrite IH.
Qed.

Lemma concat_cons (x : string) (l : list string) :
  String.concat EmptyString (x :: l) = x +:+ String.concat EmptyString l.
Proof.
  destruct l as [|y l]; [cbn [String.concat]; now rewrite append_empty_r|reflexivity].
Qed.

Lemma prefix_append (p q : string) : String.prefix p (p +:+ q) = true.
Proof.
  induction p as [|c p IH]; [now destruct q|].
  change (String c p +:+ q) with (String c (p +:+ q)).
  cbn [String.prefix]. destruct (ascii_dec c c); [exact IH|contradiction].
Qed.





Lemma endswith_nil (suf : string) : Py.endswith EmptyString suf = true -> suf = EmptyString.
Proof. destruct suf; [reflexivity|discriminate]. Qed.

Lemma endswith_cons (c : ascii) (s suf : string) :
  Py.endswith (String c s) suf = true -> String c s = suf \/ Py.endswith s suf = true.
Proof.
  change (Py.endswith (String c s) suf)
    with (String.eqb (String c s) suf || Py.endswith s suf).
  intros H. apply orb_true_iff in H. destruct H as [H|H]; [left|now right].
  now apply String.eqb_eq.
Qed.

Lemma endswith_last_char (s suf : string) :
  Py.endswith s suf = true -> last_char suf <> None -> last_char s = last_char suf.
Proof.
  induction s as [|c s IH]; intros H Hsuf.
  - apply endswith_nil in H. now subst.
  - apply endswith_cons in H. destruct H as [H|H]; [now subst|].
    specialize (IH H Hsuf). simpl. rewrite IH.
    destruct (last_char suf); [reflexivity|contradiction].
Qed.

Lemma endswith_chars (s suf : string) (c : ascii) :
  Py.endswith s suf = true -> In c (list_ascii_of_string suf) -> In c (list_ascii_of_string s).
Proof.
  induction s as [|d s IH]; intros H Hin.
  - apply endswith_nil in H. now subst.
  - apply endswith_cons in H. destruct H as [H|H]; [now subst|].
    simpl. right. now apply IH.
Qed.

Lemma endswith_clash (s a b : string) :
  Py.endswith s a = true -> last_char a <> None -> last_char b <> None ->
  last_char a <> last_char b -> Py.endswith s b = false.
Proof.
  intros Ha Hla Hlb Hne. destruct (Py.endswith s b) eqn:Hb; [|reflexivity].
  exfalso. apply Hne.
  rewrite <- (endswith_last_char s a Ha Hla). now apply endswith_last_char.
Qed.

(** ** Scanning one file *)






















(** ** The two starred extensions *)

Lemma has_extension_starred (file_name : string) :
  (Py.endswith file_name ".txt" = true \/ Py.endswith file_name ".cmake" = true) ->
  ordinary_name file_name ->
  has_extension file_name = false.
Proof.
  intros Hend Hord. unfold has_extension, EXTENSIONS. cbn [existsb].
  assert (Hstar : forall suf, In "*"%char (list_ascii_of_string suf) ->
                              Py.endswith file_name suf = false).
  { intros suf Hin. destruct (Py.endswith file_name suf) eqn:E; [|reflexivity].
    exfalso. apply Hord. now apply (endswith_chars file_name suf). }
  rewrite (Hstar "*.txt") by (simpl; tauto).
  rewrite (Hstar "*.cmake") by (simpl; tauto).
  destruct Hend as [H|H];
    rewrite !(endswith_clash file_name _ _ H) by (cbn; congruence); reflexivity.
Qed.

(** C10: a file whose name ends in .txt or .cmake and holds no asterisk
    passes none of the configured suffix tests (the two entries meant for
    it are the literal strings "*.txt" and "*.cmake"), so the walk leaves
    the tree and the ratio list as they were. *)
Theorem starred_extensions_are_never_scanned
    (root file_name : string) (text : FileText) (st : WalkState) :
  (Py.endswith file_name ".txt" = true \/ Py.endswith file_name ".cmake" = true) ->
  ordinary_name file_name ->
  has_extension file_name = false
  /\ scan_file root st (file_name, text) = st
  /\ In "*.txt" EXTENSIONS /\ In "*.cmake" EXTENSIONS
  /\ ~ In ".txt" EXTENSIONS /\ ~ In ".cmake" EXTENSIONS.
Proof.
  intros Hend Hord.
  pose proof (has_extension_starred file_name Hend Hord) as Hext.
  split; [exact Hext|]. split.
  - unfold scan_file. destruct st as [flamegraph ratios_list]. now rewrite Hext.
  - unfold EXTENSIONS. cbn [In].
    repeat split; try tauto; intros H; repeat (destruct H as [H|H]; [discriminate|]); exact H.
Qed.

Lemma starred_extensions_are_never_scanned_witness :
  has_extension "CMakeLists.txt" = false
  /\ scan_file "./Meta" (new_node ".", []) ("CMakeLists.txt", Lines ["# TODO"]) = (new_node ".", [])
  /\ In "*.txt" EXTENSIONS /\ In "*.cmake" EXTENSIONS
  /\ ~ In ".txt" EXTENSIONS /\ ~ In ".cmake" EXTENSIONS.
Proof.
  apply (starred_extensions_are_never_scanned "./Meta" "CMakeLists.txt").
  - left. reflexivity.
  - unfold ordinary_name. simpl. intros H.
    repeat (destruct H as [H|H]; [discriminate|]). exact H.
Defined.

(** A name that does hold the asterisk before the suffix is scanned. *)
Example starred_name_matches : has_extension "notes*.txt" = true.
Proof. reflexivity. Qed.

(** ** The three scans *)

Lemma split_line (line rest : string) :
  newline_free line ->
  Py.split Py.newline (line +:+ Json.nl +:+ rest) = line :: Py.split Py.newline rest.
Proof.
  induction line as [|c line IH]; intros Hfree.
  - reflexivity.
  - change (String c line +:+ Json.nl +:+ rest) with (String c (line +:+ Json.nl +:+ rest)).
    cbn [Py.split].
    destruct (Ascii.eqb_spec c Py.newline) as [->|Hne].
    + exfalso. apply Hfree. now left.
    + rewrite IH; [reflexivity|]. intros Hin. apply Hfree. now right.
Qed.

Lemma split_grep_output (matches : list string) :
  Forall newline_free matches ->
  Py.split Py.newline (grep_output matches) = (matches ++ [EmptyString])%list.
Proof.
  induction 1 as [|m ms Hm _ IH]; [reflexivity|].
  cbn [grep_output]. now rewrite split_line, IH.
Qed.

Lemma last_item_snoc (l : list string) (x : string) : Py.last_item (l ++ [x]) = Some x.
Proof.
  unfold Py.last_item. rewrite map_app. cbn [map]. apply last_last.
Qed.

(** What the body shared by the three scans makes of a grep result. *)
Lemma scan_tail_counts (rc : Z) (matches : list string) :
  (rc = 0 \/ rc = 1)%Z ->
  Forall newline_free matches ->
  bool_decide (rc ∈ [0; 1]%Z) = true
  /\ bool_decide (Py.last_item (Py.split Py.newline (grep_output matches)) = Some EmptyString) = true
  /\ length (Py.split Py.newline (grep_output matches)) = S (length matches).
Proof.
  intros Hrc Hfree. rewrite split_grep_output by exact Hfree.
  rewrite last_item_snoc, length_app. cbn [length].
  split; [|split; [|lia]].
  - apply bool_decide_eq_true. destruct Hrc as [->| ->]; set_solver.
  - now apply bool_decide_eq_true.
Qed.

(** C1 (as the code has it): when grep reports the matching lines [mf],
    [ms], [md] with exit status 0 or 1, each scan returns the number of
    matching lines plus one, the empty string after the last newline being
    counted as a line; with no match at all each scan returns 1, not 0. *)
Theorem scans_count_one_more_than_matches
    (w : World) (st : State) (mf ms md : list string) (rf rs rd : Z) :
  git w ["git"; "-C"; SERENITY_DIR; "grep"; "-IiEh"; "FIXME|TODO"] (head st)
    = mkProc rf (grep_output mf) ->
  git w ["git"; "-C"; SERENITY_DIR; "grep"; "-IEh"; "DeprecatedFlyString"] (head st)
    = mkProc rs (grep_output ms) ->
  git w ["git"; "-C"; SERENITY_DIR; "grep"; "-IFh"; "DeprecatedFile"] (head st)
    = mkProc rd (grep_output md) ->
  ((rf = 0 \/ rf = 1) /\ (rs = 0 \/ rs = 1) /\ (rd = 0 \/ rd = 1))%Z ->
  Forall newline_free (mf ++ ms ++ md) ->
  fst (count_fixmes_here w st) = Return (S (length mf))
  /\ fst (count_deprecated_strings_here w st) = Return (S (length ms))
  /\ fst (count_deprecated_files_here w st) = Return (S (length md)).
Proof.
  intros Hf Hs Hd (Hrf & Hrs & Hrd) Hfree.
  apply Forall_app in Hfree as [Hmf Hfree]. apply Forall_app in Hfree as [Hms Hmd].
  destruct (scan_tail_counts rf mf Hrf Hmf) as (Ef1 & Ef2 & Ef3).
  destruct (scan_tail_counts rs ms Hrs Hms) as (Es1 & Es2 & Es3).
  destruct (scan_tail_counts rd md Hrd Hmd) as (Ed1 & Ed2 & Ed3).
  unfold count_fixmes_here, count_deprecated_strings_here, count_deprecated_files_here.
  unfold mbind, M_bind, subprocess_run, py_assert, mret, M_ret.
  rewrite Hf, Hs, Hd. cbn [returncode stdout fst].
  rewrite Ef1, Ef2, Ef3, Es1, Es2, Es3, Ed1, Ed2, Ed3. auto.
Qed.

Lemma scans_count_one_more_than_matches_witness :
  fst (count_fixmes_here no_match_world fresh_state) = Return 1
  /\ fst (count_deprecated_strings_here no_match_world fresh_state) = Return 1
  /\ fst (count_deprecated_files_here no_match_world fresh_state) = Return 1.
Proof.
  apply (scans_count_one_more_than_matches no_match_world fresh_state [] [] [] 1 1 1);
    try reflexivity.
  - repeat split; now right.
  - constructor.
Defined.

(** ** Running the monad *)

Lemma bind_run {A B} (m : M A) (f : A -> M B) (st : State) :
  (m ≫= f) st = match m st with
                | (Return a, st') => f a st'
                | (Raise e, st') => (Raise e, st')
                end.
Proof. reflexivity. Qed.

Lemma scan_run (argv : list string) (w : World) (st : State) :
  (result ← subprocess_run w argv;
   py_assert (bool_decide (returncode result ∈ [0; 1]%Z));;
   let lines := Py.split Py.newline (stdout result) in
   py_assert (bool_decide (Py.last_item lines = Some EmptyString));;
   mret (length lines)) st
  = (scan_outcome (git w argv (head st)), push (Ran argv) st).
Proof.
  unfold scan_outcome, grep_count, subprocess_run, py_assert, mbind, M_bind, mret, M_ret, push.
  destruct (bool_decide (returncode _ ∈ _)); [|reflexivity].
  destruct (bool_decide (Py.last_item _ = _)); reflexivity.
Qed.

Lemma count_fixmes_here_run (w : World) (st : State) :
  count_fixmes_here w st = (scan_outcome (git w GREP_FIXMES (head st)), push (Ran GREP_FIXMES) st).
Proof. apply scan_run. Qed.

Lemma count_deprecated_strings_here_run (w : World) (st : State) :
  count_deprecated_strings_here w st
  = (scan_outcome (git w GREP_STRINGS (head st)), push (Ran GREP_STRINGS) st).
Proof. apply scan_run. Qed.

Lemma count_deprecated_files_here_run (w : World) (st : State) :
  count_deprecated_files_here w st
  = (scan_outcome (git w GREP_FILES (head st)), push (Ran GREP_FILES) st).
Proof. apply scan_run. Qed.

Lemma run_checked_run (w : World) (argv : list string) (st : State) :
  subprocess_run_checked w argv st
  = if (returncode (git w argv (head st)) =? 0)%Z
    then (Return (git w argv (head st)), push (Ran argv) st)
    else (Raise CalledProcessError, push (Ran argv) st).
Proof.
  unfold subprocess_run_checked, subprocess_run, mbind, M_bind, mret, M_ret, push, raise.
  destruct (_ =? _)%Z; reflexivity.
Qed.

Lemma scan_outcome_Some (r : CompletedProcess) (n : nat) :
  grep_count r = Some n -> scan_outcome r = Return n.
Proof. unfold scan_outcome. now intros ->. Qed.

Lemma scan_outcome_None (r : CompletedProcess) :
  grep_count r = None -> scan_outcome r = Raise AssertionError.
Proof. unfold scan_outcome. now intros ->. Qed.

(** ** [lookup_commit] *)

Lemma lookup_hit (w : World) (st : State) (commit : string) (date : Z) (t : Triple) :
  cache st !! commit = Some t ->
  lookup_commit w commit date st = (Return (make_row w commit date t), st).
Proof.
  intros H. unfold lookup_commit, get_cache. rewrite bind_run. now rewrite H.
Qed.

Lemma lookup_miss_success (w : World) (st : State) (commit : string) (date : Z) (t : Triple) :
  cache st !! commit = None -> fresh_triple w (head st) commit = Some t ->
  lookup_commit w commit date st = (Return (make_row w commit date t), after_miss st commit t).
Proof.
  intros Hmiss Hfresh. unfold fresh_triple in Hfresh.
  destruct (returncode (git w (CHECKOUT commit) (head st)) =? 0)%Z eqn:Hrc; [|discriminate].
  destruct (grep_count (git w GREP_FIXMES (Some commit))) as [f|] eqn:Hf; [|discriminate].
  destruct (grep_count (git w GREP_STRINGS (Some commit))) as [ds|] eqn:Hs; [|discriminate].
  destruct (grep_count (git w GREP_FILES (Some commit))) as [df|] eqn:Hd; [|discriminate].
  cbn in Hfresh. injection Hfresh as <-.
  unfold lookup_commit. rewrite bind_run. unfold get_cache at 1. rewrite Hmiss.
  fold (CHECKOUT commit).
  rewrite bind_run, run_checked_run, Hrc.
  rewrite bind_run. unfold set_head at 1.
  rewrite bind_run, count_fixmes_here_run. cbn [head push].
  rewrite (scan_outcome_Some _ _ Hf).
  rewrite bind_run, count_deprecated_strings_here_run. cbn [head push].
  rewrite (scan_outcome_Some _ _ Hs).
  rewrite bind_run, count_deprecated_files_here_run. cbn [head push].
  rewrite (scan_outcome_Some _ _ Hd).
  unfold after_miss, cache_store, get_cache, save_cache, log, mbind, M_bind, mret, M_ret.
  cbn [cache live_file head events].
  destruct (size _ mod _ =? 0); reflexivity.
Qed.

Lemma lookup_miss_failure (w : World) (st : State) (commit : string) (date : Z) :
  cache st !! commit = None -> fresh_triple w (head st) commit = None ->
  exists e st', lookup_commit w commit date st = (Raise e, st')
                /\ cache st' = cache st /\ live_file st' = live_file st.
Proof.
  intros Hmiss Hfresh. unfold fresh_triple in Hfresh.
  unfold lookup_commit. rewrite bind_run. unfold get_cache at 1. rewrite Hmiss.
  fold (CHECKOUT commit).
  rewrite bind_run, run_checked_run.
  destruct (returncode (git w (CHECKOUT commit) (head st)) =? 0)%Z eqn:Hrc;
    [|eexists _, _; split; [reflexivity|split; reflexivity]].
  rewrite bind_run. unfold set_head at 1.
  rewrite bind_run, count_fixmes_here_run. cbn [head push].
  destruct (grep_count (git w GREP_FIXMES (Some commit))) as [f|] eqn:Hf;
    [rewrite (scan_outcome_Some _ _ Hf)
    |rewrite (scan_outcome_None _ Hf); eexists _, _; split; [reflexivity|split; reflexivity]].
  rewrite bind_run, count_deprecated_strings_here_run. cbn [head push].
  destruct (grep_count (git w GREP_STRINGS (Some commit))) as [ds|] eqn:Hs;
    [rewrite (scan_outcome_Some _ _ Hs)
    |rewrite (scan_outcome_None _ Hs); eexists _, _; split; [reflexivity|split; reflexivity]].
  rewrite bind_run, count_deprecated_files_here_run. cbn [head push].
  destruct (grep_count (git w GREP_FILES (Some commit))) as [df|] eqn:Hd;
    [rewrite (scan_outcome_Some _ _ Hd)
    |rewrite (scan_outcome_None _ Hd); eexists _, _; split; [reflexivity|split; reflexivity]].
  discriminate.
Qed.

(** ** The loop of [run] and the durable file *)

Lemma lookup_all_nil w st : lookup_all w [] st = (Return [], st).
Proof. reflexivity. Qed.

Lemma lookup_all_cons w cd cds st :
  lookup_all w (cd :: cds) st =
  match lookup_commit w cd.1 cd.2 st with
  | (Return row, st1) =>
      match lookup_all w cds st1 with
      | (Return rows, st2) => (Return (row :: rows), st2)
      | (Raise e, st2) => (Raise e, st2)
      end
  | (Raise e, st1) => (Raise e, st1)
  end.
Proof.
  unfold lookup_all. cbn [mapM]. rewrite bind_run.
  destruct (lookup_commit w cd.1 cd.2 st) as [[row|e] st1]; [|reflexivity].
  rewrite bind_run. fold (lookup_all w cds).
  destruct (lookup_all w cds st1) as [[rows|e] st2]; reflexivity.
Qed.

Lemma lookup_all_app_raise w done cd rest st_a rows st e st' :
  lookup_all w done st_a = (Return rows, st) ->
  lookup_commit w cd.1 cd.2 st = (Raise e, st') ->
  lookup_all w (done ++ cd :: rest) st_a = (Raise e, st').
Proof.
  revert st_a rows. induction done as [|d done IH]; intros st_a rows Hdone Hcd.
  - rewrite lookup_all_nil in Hdone. injection Hdone as <- <-.
    cbn [app]. rewrite lookup_all_cons. now rewrite Hcd.
  - cbn [app]. rewrite lookup_all_cons in *.
    destruct (lookup_commit w d.1 d.2 st_a) as [[row|e0] st1]; [|discriminate].
    destruct (lookup_all w done st1) as [[rows1|e1] st2] eqn:E; [|discriminate].
    injection Hdone as <- <-. now rewrite (IH st1 rows1 E Hcd).
Qed.

Lemma run_split w st :
  run w st =
  match run_prefix w st with
  | (Return cds, st1) =>
      match lookup_all w cds st1 with
      | (Return rows, st2) =>
          (Return (String.concat EmptyString (map csv_line rows)),
           mkState (cache st2) (Some (Json.dumps (cache st2))) (head st2)
                   (Saved (Json.dumps (cache st2)) :: events st2))
      | (Raise e, st2) => (Raise e, st2)
      end
  | (Raise e, st1) => (Raise e, st1)
  end.
Proof.
  unfold run, run_prefix, mbind, M_bind.
  destruct (readme_exists w); [|reflexivity].
  unfold mret at 1 3, M_ret.
  destruct (fetch_new w st) as [[[]|e] st2]; [|reflexivity].
  destruct (determine_commit_and_date_list w st2) as [[cds|e] st3]; [|reflexivity].
  destruct (load_cache w st3) as [[c|e] st4]; [|reflexivity].
  unfold set_cache, mret, M_ret. fold (lookup_all w cds).
  destruct (lookup_all w cds _) as [[rows|e] st5]; reflexivity.
Qed.

Lemma succ_mod_200 n : S n mod 200 <> 0 -> S n mod 200 = S (n mod 200).
Proof.
  intros H. pose proof (Nat.div_mod_eq n 200). pose proof (Nat.div_mod_eq (S n) 200).
  pose proof (Nat.mod_upper_bound n 200). pose proof (Nat.mod_upper_bound (S n) 200).
  assert (S n / 200 = n / 200 \/ S n / 200 = S (n / 200)) by nia.
  lia.
Qed.

Lemma durable_after_miss st commit t :
  cache st !! commit = None -> durable st -> durable (after_miss st commit t).
Proof.
  intros Hmiss (flushed & Hfile & Hsub & Hsize).
  unfold durable, after_miss. cbn [cache live_file].
  assert (Hs : size (<[commit:=t]> (cache st)) = S (size (cache st)))
    by now apply map_size_insert_None.
  destruct (size (<[commit:=t]> (cache st)) mod SAVE_CACHE_INV_FREQ =? 0) eqn:E.
  - exists (<[commit:=t]> (cache st)). split; [reflexivity|]. split; [reflexivity|]. lia.
  - exists flushed. split; [exact Hfile|]. split.
    + etransitivity; [exact Hsub|]. now apply insert_subseteq.
    + apply Nat.eqb_neq in E. rewrite Hs in *. unfold SAVE_CACHE_INV_FREQ in *.
      rewrite succ_mod_200 by exact E. lia.
Qed.

Lemma durable_frame st st' :
  cache st' = cache st -> live_file st' = live_file st -> durable st -> durable st'.
Proof. unfold durable. intros -> ->. auto. Qed.

Lemma durable_lookup w commit date st :
  durable st -> durable (snd (lookup_commit w commit date st)).
Proof.
  intros Hd. destruct (cache st !! commit) as [t|] eqn:Hc.
  - now rewrite (lookup_hit w st commit date t Hc).
  - destruct (fresh_triple w (head st) commit) as [t|] eqn:Hf.
    + rewrite (lookup_miss_success w st commit date t Hc Hf). now apply durable_after_miss.
    + destruct (lookup_miss_failure w st commit date Hc Hf) as (e & st' & -> & H1 & H2).
      now apply (durable_frame st).
Qed.

Lemma durable_lookup_all w commits st :
  durable st -> durable (snd (lookup_all w commits st)).
Proof.
  revert st. induction commits as [|cd cds IH]; intros st Hd; [exact Hd|].
  rewrite lookup_all_cons.
  pose proof (durable_lookup w cd.1 cd.2 st Hd) as H1.
  destruct (lookup_commit w cd.1 cd.2 st) as [[row|e] st1]; [|exact H1].
  pose proof (IH st1 H1) as H2.
  destruct (lookup_all w cds st1) as [[rows|e] st2]; exact H2.
Qed.

Lemma durable_bound st :
  durable st ->
  exists flushed, live_file st = Some (Json.dumps flushed) /\ flushed ⊆ cache st
                  /\ size (cache st) - size flushed <= 199.
Proof.
  intros (flushed & H1 & H2 & H3). exists flushed. split; [exact H1|]. split; [exact H2|].
  pose proof (Nat.mod_upper_bound (size (cache st)) SAVE_CACHE_INV_FREQ).
  unfold SAVE_CACHE_INV_FREQ in *. lia.
Qed.

Lemma keeps_ret {A} (a : A) : keeps_cache (mret a).
Proof. intros st. auto. Qed.
Lemma keeps_raise {A} (e : Exn) : keeps_cache (@raise A e).
Proof. intros st. auto. Qed.
Lemma keeps_log ev : keeps_cache (log ev).
Proof. intros st. auto. Qed.
Lemma keeps_assert b : keeps_cache (py_assert b).
Proof. destruct b; intros st; auto. Qed.
Lemma keeps_bind {A B} (m : M A) (f : A -> M B) :
  keeps_cache m -> (forall a, keeps_cache (f a)) -> keeps_cache (m ≫= f).
Proof.
  intros Hm Hf st. rewrite bind_run. specialize (Hm st).
  destruct (m st) as [[a|e] st1]; cbn [snd] in *; [|exact Hm].
  destruct (Hf a st1) as [H1 H2]. destruct Hm as [H3 H4]. split; congruence.
Qed.
Lemma keeps_run_checked w argv : keeps_cache (subprocess_run_checked w argv).
Proof. intros st. rewrite run_checked_run. destruct (_ =? _)%Z; auto. Qed.
Lemma keeps_mapM {A B} (f : A -> M B) l : (forall a, keeps_cache (f a)) -> keeps_cache (mapM f l).
Proof.
  intros Hf. induction l as [|x xs IH]; [apply keeps_ret|].
  cbn [mapM]. apply keeps_bind; [apply Hf|]. intros y.
  apply keeps_bind; [exact IH|]. intros ys. apply keeps_ret.
Qed.
Lemma keeps_parse line : keeps_cache (parse_log_line line).
Proof.
  unfold parse_log_line. destruct (Py.split " " line) as [|a [|b [|c l]]];
    try apply keeps_raise. destruct (int_of_str b); [apply keeps_ret|apply keeps_raise].
Qed.
Lemma keeps_fetch w : keeps_cache (fetch_new w).
Proof. apply keeps_bind; [apply keeps_run_checked|]. intros _. apply keeps_ret. Qed.
Lemma keeps_determine w : keeps_cache (determine_commit_and_date_list w).
Proof.
  apply keeps_bind; [apply keeps_run_checked|]. intros r.
  cbv zeta. apply keeps_bind; [apply keeps_assert|]. intros _.
  destruct (Py.last_item (removelast _)); [|apply keeps_raise].
  apply keeps_bind; [apply keeps_assert|]. intros _.
  apply keeps_bind; [apply keeps_log|]. intros _.
  apply keeps_mapM. intros l. apply keeps_parse.
Qed.

Lemma load_cache_durable w st c st1 :
  file_from_flush w st -> load_cache w st = (Return c, st1) ->
  cache st1 = cache st /\ live_file st1 = Some (Json.dumps c).
Proof.
  intros Hfile. unfold load_cache. rewrite bind_run. unfold get_state at 1.
  destruct (live_file st) as [text|] eqn:Hlive.
  - destruct (Hfile text Hlive) as (flushed & -> & Hload).
    unfold json_load_text. rewrite Hload. intros [= <- <-]. now split.
  - destruct (cold_file w) as [text|]; [|discriminate].
    rewrite bind_run. unfold json_load_text.
    destruct (json_load w text) as [c0|]; [|discriminate].
    unfold mret at 1, M_ret. rewrite bind_run. unfold save_cache at 1.
    intros [= <- <-]. now split.
Qed.

Lemma run_prefix_durable w st cds st1 :
  file_from_flush w st -> run_prefix w st = (Return cds, st1) -> durable st1.
Proof.
  intros Hfile. unfold run_prefix. rewrite bind_run.
  destruct (readme_exists w); [|discriminate].
  unfold mret at 1, M_ret. rewrite bind_run.
  pose proof (keeps_fetch w st) as [F1 F2].
  destruct (fetch_new w st) as [[[]|e] st2]; [|discriminate]. cbn [snd] in *.
  rewrite bind_run.
  pose proof (keeps_determine w st2) as [D1 D2].
  destruct (determine_commit_and_date_list w st2) as [[cds0|e] st3]; [|discriminate]. cbn [snd] in *.
  rewrite bind_run.
  assert (Hfile3 : file_from_flush w st3).
  { intros text Ht. apply Hfile. congruence. }
  pose proof (load_cache_durable w st3) as HL.
  destruct (load_cache w st3) as [[c|e] st4]; [|discriminate].
  destruct (HL c st4 Hfile3 eq_refl) as [L1 L2].
  rewrite bind_run. unfold set_cache at 1. unfold mret, M_ret. intros [= <- <-].
  exists c. cbn [cache live_file]. split; [exact L2|]. split; [reflexivity|]. lia.
Qed.

(** ** Hits and misses *)

Lemma lookup_all_hits (w : World) (st : State) (commits : list (string * Z)) :
  Forall (fun cd => is_Some (cache st !! cd.1)) commits ->
  exists rows, lookup_all w commits st = (Return rows, st) /\ length rows = length commits.
Proof.
  induction 1 as [|cd cds [t Ht] _ (rows & IH & Hlen)].
  - now exists [].
  - exists (make_row w cd.1 cd.2 t :: rows).
    rewrite lookup_all_cons, (lookup_hit w st cd.1 cd.2 t Ht), IH. cbn [length]. auto.
Qed.

(** C6: a commit that is a key of the cache is answered from the cache:
    the row carries the stored triple and the state is the very same
    afterwards (same dict, same file, same work tree, no new event, hence
    no checkout and no scan); a whole list of such commits leaves the
    state as it was. *)
Theorem cached_commit_is_answered_without_effect
    (w : World) (st : State) (commit : string) (date : Z) (t : Triple)
    (commits : list (string * Z)) :
  cache st !! commit = Some t ->
  Forall (fun cd => is_Some (cache st !! cd.1)) commits ->
  (exists row, lookup_commit w commit date st = (Return row, st)
               /\ (fixmes row, deprecated_strings row, deprecated_files row) = t)
  /\ (exists rows, lookup_all w commits st = (Return rows, st) /\ length rows = length commits).
Proof.
  intros Hc Hall. split; [|now apply lookup_all_hits].
  exists (make_row w commit date t). split; [now apply lookup_hit|].
  now destruct t as [[f ds] df].
Qed.

Lemma cached_commit_is_answered_without_effect_witness :
  (exists row, lookup_commit broken_world "abc" 7 one_key_state = (Return row, one_key_state)
               /\ (fixmes row, deprecated_strings row, deprecated_files row) = (5, 2, 1))
  /\ (exists rows, lookup_all broken_world [("abc", 7%Z); ("abc", 9%Z)] one_key_state
                   = (Return rows, one_key_state) /\ length rows = 2).
Proof.
  apply (cached_commit_is_answered_without_effect broken_world one_key_state "abc" 7 (5, 2, 1)).
  - reflexivity.
  - repeat constructor; exists (5, 2, 1); reflexivity.
Defined.

Lemma run_aborts (w : World) (st0 st_a st st' : State) (cd : string * Z)
    (done rest : list (string * Z)) (rows : list Row) (e : Exn) :
  run_prefix w st0 = (Return (done ++ cd :: rest)%list, st_a) ->
  lookup_all w done st_a = (Return rows, st) ->
  lookup_commit w cd.1 cd.2 st = (Raise e, st') ->
  run w st0 = (Raise e, st').
Proof.
  intros Hp Hdone Hcd. rewrite run_split, Hp.
  now rewrite (lookup_all_app_raise w done cd rest st_a rows st e st' Hdone Hcd).
Qed.

(** C4: for a commit that is not a key, either the checkout and the
    three scans all pass and the dict gains exactly this key with the
    triple of the three counts, or one of them fails: then the call raises,
    the dict is what it was (the commit still not a key, nothing written
    to the file), and a run that reached this commit ends with the same
    exception. *)
Theorem fresh_computation_stores_whole_triple_or_nothing
    (w : World) (st : State) (commit : string) (date : Z) :
  cache st !! commit = None ->
  match fresh_triple w (head st) commit with
  | Some t =>
      lookup_commit w commit date st = (Return (make_row w commit date t), after_miss st commit t)
      /\ cache (after_miss st commit t) = <[commit := t]> (cache st)
  | None =>
      exists e st',
        lookup_commit w commit date st = (Raise e, st')
        /\ cache st' = cache st /\ cache st' !! commit = None /\ live_file st' = live_file st
        /\ forall st0 st_a done rest rows,
             run_prefix w st0 = (Return (done ++ (commit, date) :: rest)%list, st_a) ->
             lookup_all w done st_a = (Return rows, st) ->
             run w st0 = (Raise e, st')
  end.
Proof.
  intros Hmiss. destruct (fresh_triple w (head st) commit) as [t|] eqn:Hf.
  - split; [now apply lookup_miss_success|reflexivity].
  - destruct (lookup_miss_failure w st commit date Hmiss Hf) as (e & st' & Hrun & Hc & Hl).
    exists e, st'. repeat split; try assumption; [congruence|].
    intros st0 st_a done rest rows Hp Hdone.
    now apply (run_aborts w st0 st_a st st' (commit, date) done rest rows e).
Qed.

Lemma fresh_computation_stores_whole_triple_or_nothing_witness :
  (lookup_commit no_match_world "abc" 7 fresh_state
   = (Return (make_row no_match_world "abc" 7 (1, 1, 1)), after_miss fresh_state "abc" (1, 1, 1))
   /\ cache (after_miss fresh_state "abc" (1, 1, 1)) = <["abc" := (1, 1, 1)]> ∅)
  /\ exists e st',
       lookup_commit broken_world "abc" 7 fresh_state = (Raise e, st')
       /\ cache st' = ∅ /\ cache st' !! "abc" = None /\ live_file st' = None
       /\ forall st0 st_a done rest rows,
            run_prefix broken_world st0 = (Return (done ++ ("abc", 7%Z) :: rest)%list, st_a) ->
            lookup_all broken_world done st_a = (Return rows, fresh_state) ->
            run broken_world st0 = (Raise e, st').
Proof.
  split.
  - exact (fresh_computation_stores_whole_triple_or_nothing no_match_world fresh_state "abc" 7 eq_refl).
  - exact (fresh_computation_stores_whole_triple_or_nothing broken_world fresh_state "abc" 7 eq_refl).
Defined.

(** ** When the cache is flushed *)

Lemma saves_after_miss (st : State) (commit : string) (t : Triple) :
  saves (events (after_miss st commit t))
  = saves (events st)
    + (if size (cache (after_miss st commit t)) mod SAVE_CACHE_INV_FREQ =? 0 then 1 else 0).
Proof.
  unfold after_miss. cbn [cache events].
  destruct (size _ mod _ =? 0); unfold saves; cbn; lia.
Qed.

Lemma lookup_commit_in_two_steps (w : World) (commit : string) (date : Z) (st : State) :
  cache st !! commit = None ->
  lookup_commit w commit date st
  = (t ← compute_and_store w commit; flush_and_report w commit date t) st.
Proof.
  intros Hmiss. unfold lookup_commit, compute_and_store, flush_and_report.
  rewrite bind_run. unfold get_cache at 1. rewrite Hmiss.
  unfold mbind, M_bind, mret, M_ret.
  destruct (subprocess_run_checked w _ st) as [[r|e] st1]; [|reflexivity].
  destruct (set_head commit st1) as [[u|e] st2]; [|reflexivity].
  destruct (count_fixmes_here w st2) as [[f|e] st3]; [|reflexivity].
  destruct (count_deprecated_strings_here w st3) as [[ds|e] st4]; [|reflexivity].
  destruct (count_deprecated_files_here w st4) as [[df|e] st5]; [|reflexivity].
  destruct (cache_store commit (f, ds, df) st5) as [[u'|e] st6]; reflexivity.
Qed.

Lemma compute_and_store_run (w : World) (st : State) (commit : string) (t : Triple) :
  fresh_triple w (head st) commit = Some t ->
  compute_and_store w commit st = (Return t, at_store st commit t).
Proof.
  intros Hfresh. unfold fresh_triple in Hfresh.
  destruct (returncode (git w (CHECKOUT commit) (head st)) =? 0)%Z eqn:Hrc; [|discriminate].
  destruct (grep_count (git w GREP_FIXMES (Some commit))) as [f|] eqn:Hf; [|discriminate].
  destruct (grep_count (git w GREP_STRINGS (Some commit))) as [ds|] eqn:Hs; [|discriminate].
  destruct (grep_count (git w GREP_FILES (Some commit))) as [df|] eqn:Hd; [|discriminate].
  cbn in Hfresh. injection Hfresh as <-.
  unfold compute_and_store. fold (CHECKOUT commit).
  rewrite bind_run, run_checked_run, Hrc.
  rewrite bind_run. unfold set_head at 1.
  rewrite bind_run, count_fixmes_here_run. cbn [head push].
  rewrite (scan_outcome_Some _ _ Hf).
  rewrite bind_run, count_deprecated_strings_here_run. cbn [head push].
  rewrite (scan_outcome_Some _ _ Hs).
  rewrite bind_run, count_deprecated_files_here_run. cbn [head push].
  rewrite (scan_outcome_Some _ _ Hd).
  reflexivity.
Qed.

Lemma at_store_lacks_one_more (st : State) (commit : string) (t : Triple) :
  cache st !! commit = None -> durable st ->
  exists flushed,
    live_file (at_store st commit t) = Some (Json.dumps flushed)
    /\ flushed ⊆ cache (at_store st commit t)
    /\ size (cache (at_store st commit t)) - size flushed <= 200.
Proof.
  intros Hmiss Hd. destruct (durable_bound st Hd) as (flushed & Hfile & Hsub & Hsize).
  exists flushed. cbn [at_store live_file cache]. split; [exact Hfile|]. split.
  - etransitivity; [exact Hsub|]. now apply insert_subseteq.
  - rewrite map_size_insert_None by exact Hmiss. lia.
Qed.

(** C5 (amended): a newly computed entry is followed by a flush exactly
    when the dict, initial entries included, then holds a multiple of 200
    keys; from a live file that an earlier flush wrote, whenever a call of
    [lookup_commit] has returned the file holds a flush of a part of the
    dict that lacks at most 199 entries; a run that completes ends with a
    flush of the whole dict.  Inside a call the entry is stored before the
    flush is considered: at that point the file is still the old one and
    lacks one entry more, at most 200, and 200 it is when 199 were waiting. *)
Theorem flush_follows_total_key_count (w : World) :
  (forall (st : State) (commit : string) (date : Z) (t : Triple),
      cache st !! commit = None -> fresh_triple w (head st) commit = Some t ->
      exists st',
        lookup_commit w commit date st = (Return (make_row w commit date t), st')
        /\ size (cache st') = S (size (cache st))
        /\ (size (cache st') mod SAVE_CACHE_INV_FREQ = 0 ->
            live_file st' = Some (Json.dumps (cache st'))
            /\ saves (events st') = S (saves (events st)))
        /\ (size (cache st') mod SAVE_CACHE_INV_FREQ <> 0 ->
            live_file st' = live_file st /\ saves (events st') = saves (events st)))
  /\ (forall (st0 st1 : State) (commits_and_dates commits : list (string * Z)),
         file_from_flush w st0 ->
         run_prefix w st0 = (Return commits_and_dates, st1) ->
         exists flushed,
           live_file (snd (lookup_all w commits st1)) = Some (Json.dumps flushed)
           /\ flushed ⊆ cache (snd (lookup_all w commits st1))
           /\ size (cache (snd (lookup_all w commits st1))) - size flushed <= 199)
  /\ (forall (st0 st' : State) (csv : string),
         run w st0 = (Return csv, st') ->
         live_file st' = Some (Json.dumps (cache st'))
         /\ exists evs, events st' = Saved (Json.dumps (cache st')) :: evs)
  /\ (forall (st : State) (commit : string) (date : Z) (t : Triple),
         cache st !! commit = None -> fresh_triple w (head st) commit = Some t ->
         exists st_mid,
           compute_and_store w commit st = (Return t, st_mid)
           /\ lookup_commit w commit date st = flush_and_report w commit date t st_mid
           /\ cache st_mid = <[commit := t]> (cache st)
           /\ live_file st_mid = live_file st
           /\ saves (events st_mid) = saves (events st))
  /\ (forall (st0 st1 : State) (commits_and_dates commits : list (string * Z))
             (commit : string) (t : Triple),
         file_from_flush w st0 ->
         run_prefix w st0 = (Return commits_and_dates, st1) ->
         cache (snd (lookup_all w commits st1)) !! commit = None ->
         fresh_triple w (head (snd (lookup_all w commits st1))) commit = Some t ->
         exists st_mid flushed,
           compute_and_store w commit (snd (lookup_all w commits st1)) = (Return t, st_mid)
           /\ live_file st_mid = Some (Json.dumps flushed)
           /\ flushed ⊆ cache st_mid
           /\ size (cache st_mid) - size flushed <= 200)
  /\ (durable (unflushed_state 199)
      /\ exists st_mid,
           compute_and_store no_match_world "new" (unflushed_state 199)
           = (Return (1, 1, 1), st_mid)
           /\ size (cache st_mid) = 200
           /\ live_file st_mid = Some (Json.dumps ∅)
           /\ saves (events st_mid) = 0).
Proof.
  split; [|split; [|split; [|split; [|split]]]].
  - intros st commit date t Hmiss Hfresh. exists (after_miss st commit t).
    split; [now apply lookup_miss_success|].
    pose proof (saves_after_miss st commit t) as Hsaves.
    split; [unfold after_miss; cbn [cache]; now apply map_size_insert_None|].
    split; intros Hmod.
    + apply Nat.eqb_eq in Hmod. rewrite Hmod in Hsaves. split; [|lia].
      unfold after_miss in *. cbn [cache live_file] in *. now rewrite Hmod.
    + apply Nat.eqb_neq in Hmod. rewrite Hmod in Hsaves. split; [|lia].
      unfold after_miss in *. cbn [cache live_file] in *. now rewrite Hmod.
  - intros st0 st1 cds commits Hfile Hprefix.
    apply durable_bound, durable_lookup_all. now apply (run_prefix_durable w st0 cds).
  - intros st0 st' csv. rewrite run_split.
    destruct (run_prefix w st0) as [[cds|e] st1]; [|discriminate].
    destruct (lookup_all w cds st1) as [[rows|e] st2]; [|discriminate].
    intros [= <- <-]. cbn [cache live_file events]. split; [reflexivity|]. now eexists.
  - intros st commit date t Hmiss Hfresh. exists (at_store st commit t).
    pose proof (compute_and_store_run w st commit t Hfresh) as Hrun.
    split; [exact Hrun|]. split; [|repeat split].
    rewrite (lookup_commit_in_two_steps w commit date st Hmiss), bind_run, Hrun. reflexivity.
  - intros st0 st1 cds commits commit t Hfile Hprefix Hmiss Hfresh.
    exists (at_store (snd (lookup_all w commits st1)) commit t).
    destruct (at_store_lacks_one_more (snd (lookup_all w commits st1)) commit t Hmiss)
      as (flushed & H1 & H2 & H3).
    { apply durable_lookup_all. now apply (run_prefix_durable w st0 cds). }
    exists flushed. split; [now apply compute_and_store_run|]. now repeat split.
  - split.
    + exists ∅. split; [reflexivity|]. split; [apply map_empty_subseteq|].
      vm_compute. lia.
    + eexists. split; [apply compute_and_store_run; reflexivity|].
      split; [vm_compute; reflexivity|]. split; reflexivity.
Qed.

(** C5 (as stated) fails: loaded with 199 keys, the very first entry
    computed in the run is flushed at once; loaded with 1 key, the flush
    comes with the 199th new entry and none follows the 200th. *)
Lemma flush_points_depend_on_loaded_size :
  let st := flushed_state (numbered_cache 199) in
  let st' := snd (lookup_commit no_match_world "new" 0 st) in
  let after n := snd (lookup_all no_match_world (new_commits n) (flushed_state (numbered_cache 1))) in
  (size (cache st) = 199 /\ cache st !! "new" = None /\ size (cache st') = 200
   /\ saves (events st) = 0 /\ saves (events st') = 1
   /\ flush_due_by_new_entries 1 = false)
  /\ (saves (events (after 198)) = 0 /\ saves (events (after 199)) = 1
      /\ saves (events (after 200)) = 1 /\ size (cache (after 200)) = 201
      /\ flush_due_by_new_entries 199 = false /\ flush_due_by_new_entries 200 = true).
Proof. vm_compute. repeat split. Qed.


(** ** What a flush does to the file *)

Lemma concat_take_prefix (k : nat) (chunks : list string) :
  String.prefix (String.concat EmptyString (take k chunks)) (String.concat EmptyString chunks) = true.
Proof.
  revert k. induction chunks as [|x chunks IH]; intros [|k]; try reflexivity.
  - cbn [take]. now destruct (String.concat EmptyString (x :: chunks)).
  - cbn [take]. rewrite !concat_cons.
    specialize (IH k). revert IH.
    generalize (String.concat EmptyString (take k chunks)) (String.concat EmptyString chunks).
    intros a b Hab. clear -Hab. induction x as [|c x IHx]; [exact Hab|].
    change (String.prefix (String c (x +:+ a)) (String c (x +:+ b)) = true).
    cbn [String.prefix]. destruct (ascii_dec c c); [exact IHx|contradiction].
Qed.

Lemma take_chars_prefix (n : nat) (s : string) : String.prefix (take_chars n s) s = true.
Proof.
  revert s. induction n as [|n IH]; intros [|c s]; try reflexivity.
  cbn [take_chars String.prefix]. destruct (ascii_dec c c); [apply IH|contradiction].
Qed.

Lemma prefix_trans (a b c : string) :
  String.prefix a b = true -> String.prefix b c = true -> String.prefix a c = true.
Proof.
  revert b c. induction a as [|x a IH]; intros [|y b] [|z c]; cbn [String.prefix]; try easy.
  destruct (ascii_dec x y) as [->|]; [|discriminate].
  destruct (ascii_dec y z) as [->|]; [|discriminate]. apply IH.
Qed.

Lemma prefix_refl (s : string) : String.prefix s s = true.
Proof. rewrite <- (append_empty_r s) at 2. apply prefix_append. Qed.

(** The open file after the first [k] of the steps that follow the
    opening. *)
Lemma write_chunks (reached : string -> nat) (k : nat) (chunks : list string) (text : string)
    (disk : string) :
  String.prefix disk text = true ->
  exists disk',
    fold_left (apply_op reached) (take k (map WriteChunk chunks ++ [CloseFile]))
              (mkLive (Some disk) text)
    = mkLive (Some disk') (text +:+ String.concat EmptyString (take k chunks))
    /\ String.prefix disk' (text +:+ String.concat EmptyString (take k chunks)) = true
    /\ (length chunks < k -> disk' = text +:+ String.concat EmptyString chunks).
Proof.
  revert k text disk. induction chunks as [|x chunks IH]; intros k text disk Hpre.
  - assert (Hnil : forall n, text +:+ String.concat EmptyString (take n (@nil string)) = text).
    { intros n. destruct n; cbn [take String.concat]; apply append_empty_r. }
    rewrite Hnil. destruct k as [|k].
    + exists disk. split; [reflexivity|]. split; [exact Hpre|]. cbn. lia.
    + exists text. split; [now destruct k|]. split; [apply prefix_refl|].
      intros _. cbn [String.concat]. now rewrite append_empty_r.
  - destruct k as [|k].
    + cbn [take fold_left String.concat]. rewrite append_empty_r.
      exists disk. split; [reflexivity|]. split; [exact Hpre|]. cbn. lia.
    + cbn [map app take fold_left apply_op fmap option_fmap option_map handed on_disk].
      destruct (IH k (text +:+ x) (take_chars (reached (text +:+ x)) (text +:+ x))
                  (take_chars_prefix _ _)) as (disk' & Hrun & Hpre' & Hall).
      exists disk'. rewrite Hrun, !concat_cons, <- !append_assoc.
      split; [reflexivity|]. split; [exact Hpre'|].
      intros Hk. cbn [length] in Hk. apply Hall. lia.
Qed.

Lemma file_after_kill_succ (reached : string -> nat) (k : nat) (c : gmap string Triple)
    (file : option string) :
  exists written,
    file_after_kill reached (S k) c file = Some written
    /\ String.prefix written (String.concat EmptyString (take k (Json.iterencode_dict c))) = true
    /\ (length (Json.iterencode_dict c) < k -> written = Json.dumps c).
Proof.
  unfold file_after_kill, save_cache_ops. cbn [take fold_left apply_op].
  destruct (write_chunks reached k (Json.iterencode_dict c) EmptyString EmptyString eq_refl)
    as (disk' & Hrun & Hpre & Hall).
  exists disk'. rewrite Hrun. cbn [on_disk]. split; [reflexivity|]. split; [exact Hpre|exact Hall].
Qed.

Lemma nothing_reaches_the_disk (k : nat) (chunks : list string) (text : string) :
  on_disk (fold_left (apply_op nothing_before_close) (take k (map WriteChunk chunks))
                     (mkLive (Some EmptyString) text))
  = Some EmptyString.
Proof.
  revert k text. induction chunks as [|x chunks IH]; intros [|k] text; try reflexivity.
  cbn [map take fold_left apply_op fmap option_fmap option_map on_disk handed].
  apply IH.
Qed.

Lemma dumps_not_empty (c : gmap string Triple) : Json.dumps c <> EmptyString.
Proof.
  unfold Json.dumps, Json.iterencode_dict.
  destruct (Json.sorted_items c); [discriminate|].
  cbn [app]. rewrite concat_cons. discriminate.
Qed.

(** C3 (amended): the flush works on the live file itself.  Before its
    first step the file is untouched; the first step empties it at once;
    from then on the disk holds a leading part of the new serialization,
    whatever the file held before and whatever the buffers pass on; it
    holds the whole serialization once every step is done, which is the
    state the script sees when [save_cache] returns.  When the buffers
    pass nothing on before the close, a kill anywhere after the opening
    and before the end leaves the empty file, which is no serialization. *)
Theorem flush_rewrites_the_live_file_in_place
    (reached : string -> nat) (c : gmap string Triple) (file : option string) :
  file_after_kill reached 0 c file = file
  /\ file_after_kill reached 1 c file = Some EmptyString
  /\ (forall k, exists written,
         file_after_kill reached (S k) c file = Some written
         /\ String.prefix written (Json.dumps c) = true)
  /\ (forall k, length (save_cache_ops c) <= S k ->
         file_after_kill reached (S k) c file = Some (Json.dumps c))
  /\ (forall st, live_file (snd (save_cache c st))
                 = file_after_kill reached (length (save_cache_ops c)) c (live_file st))
  /\ (forall k, S k < length (save_cache_ops c) ->
         file_after_kill nothing_before_close (S k) c file = Some EmptyString)
  /\ Json.dumps c <> EmptyString.
Proof.
  assert (Hlen : length (save_cache_ops c) = S (S (length (Json.iterencode_dict c)))).
  { unfold save_cache_ops. cbn [length]. rewrite length_app, length_map. cbn [length]. lia. }
  assert (Hdone : forall f k, length (save_cache_ops c) <= S k ->
                              file_after_kill reached (S k) c f = Some (Json.dumps c)).
  { intros f k Hk. destruct (file_after_kill_succ reached k c f) as (written & Hrun & _ & Hall).
    rewrite Hrun, Hall; [reflexivity|lia]. }
  split; [reflexivity|]. split; [reflexivity|]. split; [|split; [|split; [|split]]].
  - intros k. destruct (file_after_kill_succ reached k c file) as (written & Hrun & Hpre & _).
    exists written. split; [exact Hrun|].
    apply (prefix_trans _ _ _ Hpre). apply concat_take_prefix.
  - apply Hdone.
  - intros st. rewrite Hlen. cbn [save_cache snd live_file]. symmetry. apply Hdone. lia.
  - intros k Hk. unfold file_after_kill, save_cache_ops. cbn [take fold_left apply_op].
    rewrite take_app_le by (rewrite length_map; lia). apply nothing_reaches_the_disk.
  - apply dumps_not_empty.
Qed.

(** C3 (as stated) fails: a kill after the first step of a flush leaves
    the live file empty, whatever the buffers do; for a dict of two
    entries, whose text fits the buffers, the file stays empty through all
    the twenty steps before the close, and only the twenty-first makes it
    whole.  The empty file is neither the last completed flush nor the new
    one. *)
Lemma kill_during_flush_leaves_a_torn_file :
  let flushed : gmap string Triple := {["abc" := (5, 2, 1)]} in
  let grown : gmap string Triple := <["def" := (6, 2, 1)]> flushed in
  (forall reached, file_after_kill reached 1 grown (Some (Json.dumps flushed)) = Some EmptyString)
  /\ length (save_cache_ops grown) = 21
  /\ Forall (fun k => file_after_kill nothing_before_close k grown (Some (Json.dumps flushed))
                      = Some EmptyString) (seq 1 20)
  /\ file_after_kill nothing_before_close 21 grown (Some (Json.dumps flushed))
     = Some (Json.dumps grown)
  /\ Json.dumps flushed <> EmptyString
  /\ Json.dumps grown <> EmptyString.
Proof.
  cbv zeta. split; [reflexivity|]. split; [reflexivity|].
  split; [repeat constructor|]. split; [vm_compute; reflexivity|].
  split; apply dumps_not_empty.
Qed.

(** ** Pruning in [set_value] *)



Lemma set_value_head (calculate : Node -> nat) (node : Node) :
  out_name (set_value calculate node) = name node
  /\ out_value (set_value calculate node) = calculate node.
Proof. now destruct node. Qed.







Example sample_projection :
  todo_graph sample_root
  = mkOut "." 0 (Some [mkOut "src" 0 (Some [mkOut "main.cpp" 3 None])]).
Proof. reflexivity. Qed.

(** ** The ranked report *)

Lemma get_node_from_found (segments : list string) (node : Node) :
  fst (get_node_from segments node)
  = forallb (fun seg => negb (excluded_segment seg)) segments.
Proof.
  revert node. induction segments as [|seg rest IH]; intros node; [reflexivity|].
  cbn [get_node_from forallb]. destruct (excluded_segment seg); [reflexivity|].
  cbn [negb andb].
  match goal with |- fst (let '(found, cs) := ?search (children node) in _) = _ =>
    assert (E : forall cs, fst (search cs) = forallb (fun s => negb (excluded_segment s)) rest) end.
  { induction cs as [|c cs IHcs].
    - specialize (IH (new_node seg)). destruct (get_node_from rest (new_node seg)). exact IH.
    - cbn. destruct (String.eqb (name c) seg).
      + specialize (IH c). destruct (get_node_from rest c). exact IH.
      + cbn in IHcs. destruct (_ cs). exact IHcs. }
  specialize (E (children node)).
  destruct (_ (children node)). exact E.
Qed.

Lemma scan_file_ratios (root : string) (st : WalkState) (file : string * FileText) :
  snd (scan_file root st file) = (snd st ++ ranked (omap (scanned root) [file]))%list.
Proof.
  destruct st as [flamegraph ratios], file as [file_name text].
  unfold scan_file, ranked. cbn [omap list_omap]. unfold scanned. cbn [fst snd].
  destruct (has_extension file_name); cbn [negb andb].
  2:{ destruct text; cbn; now rewrite app_nil_r. }
  destruct (bool_decide (path_join root file_name ∈ SKIPPED_FIXTURES)); cbn [negb andb].
  1:{ destruct text; cbn; now rewrite app_nil_r. }
  unfold get_node, path_allowed.
  pose proof (get_node_from_found (path_segments (path_join root file_name)) flamegraph) as Hf.
  destruct (get_node_from _ flamegraph) as [found flamegraph']. cbn [fst] in Hf. rewrite <- Hf.
  destruct found; cbn [negb].
  2:{ destruct text; cbn; now rewrite app_nil_r. }
  destruct text as [lines|]; [|cbn; now rewrite app_nil_r].
  destruct (scan_lines lines) as [t l] eqn:Es.
  unfold Py.truthy_nat, both_nonzero. cbn [List.filter fst snd].
  destruct (t =? 0), (l =? 0); cbn [negb andb map snd]; rewrite ?app_nil_r; reflexivity.
Qed.

Lemma sum_dir_ratios (root : string) (st : WalkState) (dir_name : string) :
  snd (sum_dir root st dir_name) = snd st.
Proof.
  destruct st as [flamegraph ratios]. unfold sum_dir.
  destruct (get_node _ flamegraph) as [[|] flamegraph']; reflexivity.
Qed.

Lemma ranked_app (xs ys : list (string * (nat * nat))) :
  ranked (xs ++ ys) = (ranked xs ++ ranked ys)%list.
Proof. unfold ranked. now rewrite List.filter_app, map_app. Qed.

Lemma fold_scan_file_ratios (root : string) (files : list (string * FileText)) (st : WalkState) :
  snd (fold_left (scan_file root) files st)
  = (snd st ++ ranked (omap (scanned root) files))%list.
Proof.
  revert st. induction files as [|file files IH]; intros st.
  - cbn. now rewrite app_nil_r.
  - cbn [fold_left]. rewrite IH, scan_file_ratios, <- app_assoc, <- ranked_app.
    do 2 f_equal. cbn [omap list_omap]. now destruct (scanned root file).
Qed.

Lemma fold_sum_dir_ratios (root : string) (dirs : list string) (st : WalkState) :
  snd (fold_left (sum_dir root) dirs st) = snd st.
Proof.
  revert st. induction dirs as [|d dirs IH]; intros st; [reflexivity|].
  cbn [fold_left]. now rewrite IH, sum_dir_ratios.
Qed.

Lemma walk_step_ratios (st : WalkState) (item : WalkItem) :
  snd (walk_step st item) = (snd st ++ ranked (scanned_in item))%list.
Proof.
  destruct item as [[root dirs] files]. unfold walk_step, scanned_in.
  now rewrite fold_sum_dir_ratios, fold_scan_file_ratios.
Qed.

Lemma fold_walk_step_ratios (items : list WalkItem) (st : WalkState) :
  snd (fold_left walk_step items st) = (snd st ++ ranked (flat_map scanned_in items))%list.
Proof.
  revert st. induction items as [|item items IH]; intros st.
  - cbn. now rewrite app_nil_r.
  - cbn [fold_left flat_map]. now rewrite IH, walk_step_ratios, ranked_app, app_assoc.
Qed.

Lemma round_half_even_nearest (num den : Z) :
  (0 < den)%Z -> (2 * Z.abs (den * round_half_even num den - num) <= den)%Z.
Proof.
  intros Hden. unfold round_half_even.
  pose proof (Z.div_mod num den ltac:(lia)) as Hdm.
  pose proof (Z.mod_pos_bound num den Hden) as Hb.
  destruct (Z.ltb_spec (2 * (num mod den)) den);
    [|destruct (Z.ltb_spec den (2 * (num mod den))); [|destruct (Z.even (num / den))]]; nia.
Qed.

Section Binary64Arithmetic.
Local Open Scope Z_scope.

Lemma nearest_binary64_close (num den : Z) :
  0 < den -> 2 ^ 52 * den <= num * UNIT ->
  2 ^ 53 * Z.abs (nearest_binary64 num den * den - num * UNIT) <= num * UNIT.
Proof.
  intros Hden Hbig. unfold nearest_binary64. cbv zeta.
  set (q := num * UNIT) in *.
  assert (Hq : 2 ^ 52 <= q / den) by (apply Z.div_le_lower_bound; lia).
  assert (Hpos : 0 < q / den) by (assert (0 < 2 ^ 52) by reflexivity; lia).
  destruct (Z.log2_spec (q / den) Hpos) as [Hlow _].
  assert (Ha : 52 <= Z.log2 (q / den)).
  { change 52 with (Z.log2 (2 ^ 52)). now apply Z.log2_le_mono. }
  set (a := Z.log2 (q / den)) in *.
  rewrite Z.max_r by lia.
  set (s := 2 ^ (a - 52)).
  assert (Hs : 0 < s) by (apply Z.pow_pos_nonneg; lia).
  assert (Hpow : 2 ^ 52 * s = 2 ^ a).
  { unfold s. rewrite <- Z.pow_add_r by lia. f_equal. lia. }
  pose proof (Z.mul_div_le q den Hden) as Hfloor.
  assert (Hwide : 2 ^ 52 * (den * s) <= q) by nia.
  pose proof (round_half_even_nearest q (den * s) ltac:(nia)) as Hnear.
  set (m := round_half_even q (den * s)) in *.
  replace (m * s * den - q) with (den * s * m - q) by ring.
  lia.
Qed.

Lemma unit_is_large : 2 ^ 130 <= UNIT.
Proof. unfold UNIT. apply Z.pow_le_mono_r; lia. Qed.

(** The hundredths printed for [t / l] are a whole number nearest to
    [10000 * t / l]. *)
Lemma percent_is_nearest (t l : Z) :
  0 < t < 2 ^ 37 -> 0 < l < 2 ^ 64 ->
  2 * Z.abs (round_half_even
               (nearest_binary64 (nearest_binary64 t l * 100) UNIT * 100) UNIT * l
             - 10000 * t) <= l.
Proof.
  intros Ht Hl. pose proof unit_is_large as HU.
  assert (H37 : 2 ^ 37 = 137438953472) by reflexivity.
  assert (H64 : 2 ^ 64 = 18446744073709551616) by reflexivity.
  assert (H52 : 2 ^ 52 = 4503599627370496) by reflexivity.
  assert (H53 : 2 ^ 53 = 9007199254740992) by reflexivity.
  assert (H130 : 2 ^ 130 = 1361129467683753853853498429727072845824) by reflexivity.
  assert (HtU : UNIT <= t * UNIT) by nia.
  pose proof (nearest_binary64_close t l ltac:(lia) ltac:(nia)) as H1.
  set (x := nearest_binary64 t l) in *.
  assert (Hx : 2 ^ 52 <= x * 100).
  { destruct (Z.le_gt_cases (2 ^ 52) (x * 100)) as [H|H]; [exact H|]. exfalso.
    assert (x * l < 2 ^ 52 * 2 ^ 64) by nia. nia. }
  pose proof (nearest_binary64_close (x * 100) UNIT ltac:(lia) ltac:(nia)) as H2.
  set (y := nearest_binary64 (x * 100) UNIT) in *.
  pose proof (round_half_even_nearest (y * 100) UNIT ltac:(lia)) as H3.
  set (n := round_half_even (y * 100) UNIT) in *.
  clearbody x y n. set (U := UNIT) in *. clearbody U.
  assert (H2' : 2 ^ 53 * Z.abs (y - x * 100) <= x * 100).
  { replace (y * U - x * 100 * U) with ((y - x * 100) * U) in H2 by ring.
    rewrite Z.abs_mul, (Z.abs_eq U) in H2 by lia. nia. }
  assert (H2l : 2 ^ 53 * Z.abs (y * l - 100 * (x * l)) <= 100 * (x * l)).
  { replace (y * l - 100 * (x * l)) with ((y - x * 100) * l) by ring.
    rewrite Z.abs_mul, (Z.abs_eq l) by lia. nia. }
  assert (H3l : 2 * Z.abs (U * (n * l) - 100 * (y * l)) <= U * l).
  { replace (U * (n * l) - 100 * (y * l)) with ((U * n - y * 100) * l) by ring.
    rewrite Z.abs_mul, (Z.abs_eq l) by lia. nia. }
  assert (Hsmall : 60000 * (t * U) < 2 ^ 53 * U) by nia.
  assert (Hgoal : U * (2 * Z.abs (n * l - 10000 * t)) < U * (l + 1)).
  { replace (U * (2 * Z.abs (n * l - 10000 * t)))
      with (2 * Z.abs (U * (n * l) - 10000 * (t * U))).
    2:{ replace (U * (n * l) - 10000 * (t * U)) with (U * (n * l - 10000 * t)) by ring.
        rewrite Z.abs_mul, (Z.abs_eq U) by lia. ring. }
    replace (U * (l + 1)) with (U * l + U) by ring.
    generalize dependent (x * l). generalize dependent (y * l).
    generalize dependent (n * l). generalize dependent (t * U). generalize dependent (U * l).
    intros. lia. }
  apply Z.mul_lt_mono_pos_l in Hgoal; lia.
Qed.

End Binary64Arithmetic.

Lemma two_digits_spec (r : Z) :
  (0 <= r < 100)%Z ->
  two_digits r
  = String (digit (Z.to_nat (r / 10))) (String (digit (Z.to_nat (r mod 10))) EmptyString).
Proof.
  intros Hr.
  assert (H : forallb (fun k => String.eqb (two_digits (Z.of_nat k))
                (String (digit (Z.to_nat (Z.of_nat k / 10)))
                   (String (digit (Z.to_nat (Z.of_nat k mod 10))) EmptyString)))
              (seq 0 100) = true) by (vm_compute; reflexivity).
  rewrite forallb_forall in H. specialize (H (Z.to_nat r)).
  rewrite Z2Nat.id in H by lia. apply String.eqb_eq, H, in_seq. lia.
Qed.

Lemma format_percent2_nearest (t l : nat) :
  0 < t -> 0 < l -> (Z.of_nat t < 2 ^ 37)%Z -> (Z.of_nat l < 2 ^ 64)%Z ->
  exists (n : Z) (d1 d0 : nat),
    (0 <= n)%Z
    /\ (2 * Z.abs (n * Z.of_nat l - 10000 * Z.of_nat t) <= Z.of_nat l)%Z
    /\ d1 < 10 /\ d0 < 10 /\ (n mod 100 = 10 * Z.of_nat d1 + Z.of_nat d0)%Z
    /\ format_percent2 (true_divide t l)
       = str_of_Z (n / 100) +:+ "." +:+ String (digit d1) (String (digit d0) "%").
Proof.
  intros Ht Hl Ht' Hl'.
  pose proof (percent_is_nearest (Z.of_nat t) (Z.of_nat l) ltac:(lia) ltac:(lia)) as Hn.
  unfold format_percent2, true_divide. cbv zeta.
  set (n := round_half_even _ UNIT) in *.
  pose proof (Z.mod_pos_bound n 100 ltac:(lia)) as Hr.
  exists n, (Z.to_nat (n mod 100 / 10)), (Z.to_nat (n mod 100 mod 10)).
  split; [nia|]. split; [exact Hn|].
  pose proof (Z.div_mod (n mod 100) 10 ltac:(lia)) as Hdm.
  pose proof (Z.mod_pos_bound (n mod 100) 10 ltac:(lia)) as Hr0.
  assert (0 <= n mod 100 / 10 < 10)%Z
    by (split; [apply Z.div_pos; lia|apply Z.div_lt_upper_bound; lia]).
  split; [lia|]. split; [lia|]. split; [rewrite !Z2Nat.id by lia; lia|].
  unfold fixed2. rewrite (two_digits_spec (n mod 100) Hr).
  change (EmptyString +:+ ?x) with x.
  rewrite !append_assoc. reflexivity.
Qed.

(** C9: the ratio list holds one entry for every scanned file whose two
    counts are both non-zero, in walk order, and nothing else; ratio.csv
    is the header line followed by one row per entry, made of the two
    counts, the quotient todos / locs printed by the ".2%" format, and the
    path.  For counts below 2^37 and 2^64 the text printed is a whole
    number and two decimals followed by a percent sign, and the hundredths
    it reads are a whole number nearest to 10000 * todos / locs: the two
    roundings of the binary64 arithmetic never move it to another
    hundredth.  For 3 markers on 12 lines the ratio reads 25.00%. *)
Theorem ranked_report_rows (tree : list FsEntry) :
  snd (build_flamegraph tree) = ranked (scanned_files tree)
  /\ snd (generate_flame_graph tree)
     = RATIO_HEADER :: map ratio_row (ranked (scanned_files tree))
  /\ (forall x : string * (nat * nat),
        In x (scanned_files tree) -> both_nonzero x = true ->
        In (Py.str_of_nat x.2.1 +:+ "," +:+ Py.str_of_nat x.2.2 +:+ ","
              +:+ format_percent2 (true_divide x.2.1 x.2.2) +:+ ","
              +:+ r_name (ratio_entry x) +:+ Json.nl)
           (snd (generate_flame_graph tree)))
  /\ RATIO_HEADER = "TODO,LOC,TODO/LOC,FILE" +:+ Json.nl
  /\ (forall t l : nat,
        0 < t -> 0 < l -> (Z.of_nat t < 2 ^ 37)%Z -> (Z.of_nat l < 2 ^ 64)%Z ->
        exists (n : Z) (d1 d0 : nat),
          (0 <= n)%Z
          /\ (2 * Z.abs (n * Z.of_nat l - 10000 * Z.of_nat t) <= Z.of_nat l)%Z
          /\ d1 < 10 /\ d0 < 10 /\ (n mod 100 = 10 * Z.of_nat d1 + Z.of_nat d0)%Z
          /\ format_percent2 (true_divide t l)
             = str_of_Z (n / 100) +:+ "." +:+ String (digit d1) (String (digit d0) "%"))
  /\ format_percent2 (true_divide 3 12) = "25.00%"
  /\ (forall num den : Z,
        (0 < den)%Z -> (2 * Z.abs (den * round_half_even num den - num) <= den)%Z)
  /\ snd (generate_flame_graph sample_fs)
     = [RATIO_HEADER; "3,12,25.00%,src/main.cpp" +:+ Json.nl].
Proof.
  assert (Hlist : snd (build_flamegraph tree) = ranked (scanned_files tree)).
  { unfold build_flamegraph, scanned_files. now rewrite fold_walk_step_ratios. }
  assert (Hcsv : snd (generate_flame_graph tree)
                 = RATIO_HEADER :: map ratio_row (ranked (scanned_files tree))).
  { unfold generate_flame_graph. rewrite <- Hlist.
    now destruct (build_flamegraph tree) as [flamegraph ratios]. }
  split; [exact Hlist|]. split; [exact Hcsv|]. split; [|split; [|split; [|split; [|split]]]].
  - intros x Hx Hnz. rewrite Hcsv. right.
    change (In (ratio_row (ratio_entry x)) (map ratio_row (ranked (scanned_files tree)))).
    apply in_map. unfold ranked. apply in_map. now apply filter_In.
  - reflexivity.
  - exact format_percent2_nearest.
  - vm_compute. reflexivity.
  - exact round_half_even_nearest.
  - vm_compute. reflexivity.
Qed.

(** The integer model of the binary64 arithmetic gives what the floats of
    the machine give: the quotient of two counts and its product with
    100, for all counts from 1 to 6. *)
Example binary64_agrees_with_the_machine :
  forallb (fun a => forallb (fun b =>
    bool_decide (units_of_float (PrimFloat.div (float_of_nat a) (float_of_nat b))
                 = Some (true_divide a b))
    && bool_decide (units_of_float
                      (PrimFloat.mul (PrimFloat.div (float_of_nat a) (float_of_nat b)) 100%float)
                    = Some (nearest_binary64 (true_divide a b * 100) UNIT)))
    (seq 1 6)) (seq 1 6) = true.
Proof. vm_compute. reflexivity. Qed.

(** ** The root of the aggregation tree *)

Lemma split_nonempty (sep : ascii) (s : string) : Py.split sep s <> [].
Proof.
  induction s as [|c s IH]; [discriminate|].
  cbn [Py.split]. destruct (Ascii.eqb c sep); [discriminate|].
  destruct (Py.split sep s); [contradiction|discriminate].
Qed.

Lemma get_node_from_own_counts (segments : list string) (node : Node) :
  own_counts (snd (get_node_from segments node)) = own_counts node.
Proof.
  destruct segments as [|seg rest]; [reflexivity|].
  cbn [get_node_from]. destruct (excluded_segment seg); [reflexivity|].
  match goal with |- context [let '(found, cs) := ?x in _] => destruct x end.
  reflexivity.
Qed.

Lemma update_node_own_counts (segments : list string) (f : Node -> Node) (node : Node) :
  segments <> [] -> own_counts (update_node segments f node) = own_counts node.
Proof. destruct segments as [|seg rest]; [contradiction|reflexivity]. Qed.

Lemma scan_file_own_counts (root : string) (st : WalkState) (file : string * FileText) :
  own_counts (fst (scan_file root st file)) = own_counts (fst st).
Proof.
  destruct st as [flamegraph ratios], file as [file_name text]. unfold scan_file.
  destruct (has_extension file_name); [|reflexivity]. cbn [negb].
  destruct (bool_decide _); [reflexivity|].
  unfold get_node.
  pose proof (get_node_from_own_counts (path_segments (path_join root file_name)) flamegraph) as H.
  destruct (get_node_from _ flamegraph) as [found flamegraph']. cbn [fst snd] in *.
  destruct found; [|exact H]. cbn [negb].
  destruct text as [lines|]; [|exact H].
  destruct (scan_lines lines) as [t l].
  assert (own_counts (update_node (path_segments (path_join root file_name))
                                  (set_counts t l) flamegraph') = own_counts flamegraph) as H'.
  { rewrite update_node_own_counts; [exact H|]. apply split_nonempty. }
  destruct (_ && _); exact H'.
Qed.

Lemma sum_dir_own_counts (root : string) (st : WalkState) (dir_name : string) :
  own_counts (fst (sum_dir root st dir_name)) = own_counts (fst st).
Proof.
  destruct st as [flamegraph ratios]. unfold sum_dir, get_node.
  pose proof (get_node_from_own_counts (path_segments (path_join root dir_name)) flamegraph) as H.
  destruct (get_node_from _ flamegraph) as [found flamegraph']. cbn [fst snd] in *.
  destruct found; [|exact H]. cbn [negb fst].
  rewrite update_node_own_counts; [exact H|]. apply split_nonempty.
Qed.

Lemma fold_own_counts {A} (step : WalkState -> A -> WalkState) (l : list A) (st : WalkState) :
  (forall st a, own_counts (fst (step st a)) = own_counts (fst st)) ->
  own_counts (fst (fold_left step l st)) = own_counts (fst st).
Proof.
  intros Hstep. revert st. induction l as [|a l IH]; intros st; [reflexivity|].
  cbn [fold_left]. now rewrite IH, Hstep.
Qed.

Lemma walk_step_own_counts (st : WalkState) (item : WalkItem) :
  own_counts (fst (walk_step st item)) = own_counts (fst st).
Proof.
  destruct item as [[root dirs] files]. unfold walk_step.
  rewrite fold_own_counts by apply sum_dir_own_counts.
  apply fold_own_counts, scan_file_own_counts.
Qed.

(** C2 (as the code has it): whatever the work tree holds, the two counts
    of the root node are still 0 when the walk ends, and so is the value of
    the root in both projections: the root is passed to no [get_node] call
    of the loop over [dirs], so it is never summed.  On the sample tree the
    children of the root add up to 3 markers and 12 lines. *)
Theorem root_is_never_summed (tree : list FsEntry) :
  todos (fst (build_flamegraph tree)) = 0
  /\ locs (fst (build_flamegraph tree)) = 0
  /\ out_value (todo_graph (fst (build_flamegraph tree))) = 0
  /\ out_value (loc_graph (fst (build_flamegraph tree))) = 0
  /\ sum_list (map todos (children (fst (build_flamegraph sample_fs)))) = 3
  /\ sum_list (map locs (children (fst (build_flamegraph sample_fs)))) = 12.
Proof.
  assert (H : own_counts (fst (build_flamegraph tree)) = (0, 0)).
  { unfold build_flamegraph. now rewrite fold_own_counts by apply walk_step_own_counts. }
  injection H as Ht Hl.
  repeat split; try assumption.
  - unfold todo_graph. now rewrite (proj2 (set_value_head todos _)).
  - unfold loc_graph. now rewrite (proj2 (set_value_head locs _)).
Qed.

(** ** The directories below the root *)

Lemma find_node_cons (seg : string) (rest : list string) (node : Node) :
  find_node (seg :: rest) node
  = match first_named seg (children node) with
    | Some c => find_node rest c
    | None => None
    end.
Proof.
  cbn [find_node]. induction (children node) as [|c cs IH]; [reflexivity|].
  cbn [first_named]. destruct (String.eqb (name c) seg); [reflexivity|exact IH].
Qed.

Lemma get_node_from_cons (seg : string) (rest : list string) (node : Node) :
  get_node_from (seg :: rest) node
  = if excluded_segment seg then (false, node)
    else let '(found, cs) := descend seg (get_node_from rest) (children node) in
         (found, with_children node cs).
Proof.
  cbn [get_node_from]. destruct (excluded_segment seg); [reflexivity|].
  match goal with |- (let '(_, _) := ?a in _) = (let '(_, _) := ?b in _) => assert (E : a = b) end.
  { induction (children node) as [|c cs IH]; [reflexivity|].
    cbn [descend]. destruct (String.eqb (name c) seg); [reflexivity|]. now rewrite IH. }
  now rewrite E.
Qed.

Lemma update_node_cons (seg : string) (rest : list string) (f : Node -> Node) (node : Node) :
  update_node (seg :: rest) f node
  = with_children node (replace_first seg (update_node rest f) (children node)).
Proof.
  cbn [update_node]. f_equal.
  induction (children node) as [|c cs IH]; [reflexivity|].
  cbn [replace_first]. destruct (String.eqb (name c) seg); [reflexivity|]. now rewrite IH.
Qed.

Lemma get_node_from_name (segments : list string) (node : Node) :
  name (snd (get_node_from segments node)) = name node.
Proof.
  destruct segments as [|seg rest]; [reflexivity|].
  rewrite get_node_from_cons. destruct (excluded_segment seg); [reflexivity|].
  now destruct (descend _ _ _).
Qed.

Lemma first_named_descend_other (seg seg' : string) (enter : Node -> bool * Node) (cs : list Node) :
  seg' <> seg ->
  (forall c, name (snd (enter c)) = name c) ->
  first_named seg' (snd (descend seg enter cs)) = first_named seg' cs.
Proof.
  intros Hne Hname. induction cs as [|c cs IH].
  - cbn [descend]. specialize (Hname (new_node seg)).
    destruct (enter (new_node seg)) as [found made]. cbn [snd first_named] in *.
    rewrite Hname. cbn [name new_node].
    destruct (String.eqb_spec seg seg'); [congruence|reflexivity].
  - cbn [descend]. destruct (String.eqb_spec (name c) seg) as [E|E].
    + specialize (Hname c). destruct (enter c) as [found c']. cbn [snd first_named] in *.
      rewrite Hname. destruct (String.eqb_spec (name c) seg'); [congruence|reflexivity].
    + destruct (descend seg enter cs) as [found cs'']. cbn [snd first_named] in *.
      now rewrite IH.
Qed.

Lemma first_named_descend_same (seg : string) (enter : Node -> bool * Node) (cs : list Node) :
  (forall c, name (snd (enter c)) = name c) ->
  first_named seg (snd (descend seg enter cs)) = Some (snd (enter (child_or_new seg cs))).
Proof.
  intros Hname. unfold child_or_new. induction cs as [|c cs IH].
  - cbn [descend first_named]. specialize (Hname (new_node seg)).
    destruct (enter (new_node seg)) as [found made]. cbn [snd first_named] in *.
    rewrite Hname. cbn [name new_node]. now rewrite String.eqb_refl.
  - cbn [descend first_named]. destruct (String.eqb (name c) seg) eqn:E.
    + specialize (Hname c). destruct (enter c) as [found c']. cbn [snd first_named] in *.
      rewrite Hname, E. reflexivity.
    + destruct (descend seg enter cs) as [found cs'']. cbn [snd first_named] in *.
      rewrite E. exact IH.
Qed.

Lemma find_node_get_node_from (p q : list string) (node : Node) :
  is_prefix p q = false ->
  find_node p (snd (get_node_from q node)) = find_node p node.
Proof.
  revert p node. induction q as [|seg rest IH]; intros p node Hp.
  - reflexivity.
  - destruct p as [|seg' rest']; [discriminate|].
    rewrite get_node_from_cons. destruct (excluded_segment seg); [reflexivity|].
    pose proof (first_named_descend_other seg seg' (get_node_from rest) (children node)) as Ho.
    pose proof (first_named_descend_same seg (get_node_from rest) (children node)
                  (get_node_from_name rest)) as Hs.
    destruct (descend seg (get_node_from rest) (children node)) as [found cs].
    cbn [snd] in *. rewrite !find_node_cons. cbn [children with_children].
    cbn [is_prefix] in Hp. destruct (String.eqb_spec seg' seg) as [->|Hne].
    + cbn [andb] in Hp. rewrite Hs. rewrite (IH rest' _ Hp).
      unfold child_or_new. destruct (first_named seg (children node)); [reflexivity|].
      destruct rest'; [discriminate|]. now rewrite find_node_cons.
    + rewrite Ho by (exact Hne || apply get_node_from_name). reflexivity.
Qed.

Lemma keeps_shape_aggregate : keeps_shape aggregate.
Proof. intros n. now split. Qed.

Lemma keeps_shape_set_counts (t l : nat) : keeps_shape (set_counts t l).
Proof. intros n. now split. Qed.

Lemma update_node_name (q : list string) (f : Node -> Node) (node : Node) :
  keeps_shape f -> name (update_node q f node) = name node.
Proof.
  intros Hf. destruct q as [|seg rest]; [apply Hf|]. now rewrite update_node_cons.
Qed.

Lemma first_named_replace_other (seg seg' : string) (g : Node -> Node) (cs : list Node) :
  seg' <> seg -> (forall c, name (g c) = name c) ->
  first_named seg' (replace_first seg g cs) = first_named seg' cs.
Proof.
  intros Hne Hg. induction cs as [|c cs IH]; [reflexivity|].
  cbn [replace_first]. destruct (String.eqb_spec (name c) seg) as [E|E]; cbn [first_named].
  - rewrite Hg. destruct (String.eqb_spec (name c) seg'); [congruence|reflexivity].
  - now rewrite IH.
Qed.

Lemma first_named_replace_same (seg : string) (g : Node -> Node) (cs : list Node) :
  (forall c, name (g c) = name c) ->
  first_named seg (replace_first seg g cs) = g <$> first_named seg cs.
Proof.
  intros Hg. induction cs as [|c cs IH]; [reflexivity|].
  cbn [replace_first first_named]. destruct (String.eqb (name c) seg) eqn:E; cbn [first_named].
  - now rewrite Hg, E.
  - now rewrite E, IH.
Qed.

Lemma find_node_update_node_other (p q : list string) (f : Node -> Node) (node : Node) :
  keeps_shape f -> is_prefix p q = false ->
  find_node p (update_node q f node) = find_node p node.
Proof.
  intros Hf. revert p node. induction q as [|seg rest IH]; intros p node Hp.
  - destruct p as [|seg' rest']; [discriminate|].
    cbn [update_node]. rewrite !find_node_cons. now rewrite (proj2 (Hf node)).
  - destruct p as [|seg' rest']; [discriminate|].
    rewrite update_node_cons, !find_node_cons. cbn [children with_children].
    cbn [is_prefix] in Hp. destruct (String.eqb_spec seg' seg) as [->|Hne].
    + cbn [andb] in Hp. rewrite first_named_replace_same by (intros c; now apply update_node_name).
      destruct (first_named seg (children node)) as [c|]; [|reflexivity].
      cbn. now apply IH.
    + rewrite first_named_replace_other; [reflexivity|exact Hne|].
      intros c. now apply update_node_name.
Qed.

Lemma find_node_update_node_same (q : list string) (f : Node -> Node) (node : Node) :
  keeps_shape f -> find_node q (update_node q f node) = f <$> find_node q node.
Proof.
  intros Hf. revert node. induction q as [|seg rest IH]; intros node; [reflexivity|].
  rewrite update_node_cons, !find_node_cons. cbn [children with_children].
  rewrite first_named_replace_same by (intros c; now apply update_node_name).
  destruct (first_named seg (children node)) as [c|]; [|reflexivity]. cbn. apply IH.
Qed.

Lemma find_node_ensured (q : list string) (node : Node) :
  forallb (fun seg => negb (excluded_segment seg)) q = true ->
  is_Some (find_node q (snd (get_node_from q node))).
Proof.
  revert node. induction q as [|seg rest IH]; intros node Hq; [now eexists|].
  cbn [forallb] in Hq. apply andb_true_iff in Hq as [Hseg Hrest].
  rewrite get_node_from_cons. apply negb_true_iff in Hseg. rewrite Hseg.
  pose proof (first_named_descend_same seg (get_node_from rest) (children node)
                (get_node_from_name rest)) as Hs.
  destruct (descend seg (get_node_from rest) (children node)) as [found cs].
  cbn [snd] in *. rewrite find_node_cons. cbn [children with_children]. rewrite Hs.
  now apply IH.
Qed.

Lemma is_prefix_app (P a b : list string) : is_prefix (P ++ a) (P ++ b) = is_prefix a b.
Proof. induction P as [|x P IH]; [reflexivity|]. cbn. now rewrite String.eqb_refl. Qed.

Lemma is_prefix_app_r (r P q : list string) :
  is_prefix r (P ++ q) = true -> is_prefix r P = true \/ is_prefix P r = true.
Proof.
  revert P. induction r as [|a r IH]; intros P H; [now left|].
  destruct P as [|b P]; [now right|].
  cbn in *. apply andb_true_iff in H as [Hab H]. rewrite Hab.
  apply String.eqb_eq in Hab as ->. rewrite String.eqb_refl. cbn. now apply IH.
Qed.

Lemma is_prefix_outside (r P q : list string) :
  is_prefix r P = false -> is_prefix P r = false -> is_prefix r (P ++ q) = false.
Proof.
  intros H1 H2. destruct (is_prefix r (P ++ q)) eqn:E; [|reflexivity].
  apply is_prefix_app_r in E as [E|E]; congruence.
Qed.

Lemma is_prefix_longer (p q : list string) : length q < length p -> is_prefix p q = false.
Proof.
  revert q. induction p as [|a p IH]; intros q H; [cbn in H; lia|].
  destruct q as [|b q]; [reflexivity|]. cbn in *. rewrite IH by lia. apply andb_false_r.
Qed.

(** What one step of the two inner loops does to the tree, seen from a
    path it does not go through. *)
Lemma scan_file_frame (root : string) (st : WalkState) (file : string * FileText) (r : list string) :
  is_prefix r (path_segments (path_join root file.1)) = false ->
  find_node r (fst (scan_file root st file)) = find_node r (fst st).
Proof.
  intros Hr. destruct st as [t ratios], file as [file_name text]. unfold scan_file. cbn [fst] in *.
  destruct (has_extension file_name); [|reflexivity]. cbn [negb].
  destruct (bool_decide _); [reflexivity|].
  unfold get_node.
  pose proof (find_node_get_node_from r _ t Hr) as H.
  destruct (get_node_from _ t) as [found t']. cbn [fst snd] in *.
  destruct found; [|exact H]. cbn [negb].
  destruct text as [lines|]; [|exact H].
  destruct (scan_lines lines) as [a b].
  assert (H' : find_node r (update_node (path_segments (path_join root file_name))
                                        (set_counts a b) t') = find_node r t).
  { rewrite find_node_update_node_other; [exact H|apply keeps_shape_set_counts|exact Hr]. }
  destruct (_ && _); exact H'.
Qed.

Lemma sum_dir_frame (root : string) (st : WalkState) (dir_name : string) (r : list string) :
  is_prefix r (path_segments (path_join root dir_name)) = false ->
  find_node r (fst (sum_dir root st dir_name)) = find_node r (fst st).
Proof.
  intros Hr. destruct st as [t ratios]. unfold sum_dir, get_node. cbn [fst].
  pose proof (find_node_get_node_from r _ t Hr) as H.
  destruct (get_node_from _ t) as [found t']. cbn [fst snd] in *.
  destruct found; [|exact H]. cbn [negb fst].
  rewrite find_node_update_node_other; [exact H|apply keeps_shape_aggregate|exact Hr].
Qed.

Lemma sum_dir_sums (root : string) (st : WalkState) (dir_name : string) :
  allowed (path_segments (path_join root dir_name)) = true ->
  exists n, find_node (path_segments (path_join root dir_name)) (fst (sum_dir root st dir_name)) = Some n
            /\ summed n.
Proof.
  intros Ha. destruct st as [t ratios]. unfold sum_dir, get_node.
  pose proof (get_node_from_found (path_segments (path_join root dir_name)) t) as Hf.
  pose proof (find_node_ensured (path_segments (path_join root dir_name)) t Ha) as [n Hn].
  destruct (get_node_from _ t) as [found t']. cbn [fst snd] in *.
  unfold allowed in Ha. rewrite Ha in Hf. subst found. cbn [negb fst].
  exists (aggregate n). split.
  - rewrite find_node_update_node_same by apply keeps_shape_aggregate. now rewrite Hn.
  - now split.
Qed.

Lemma valid_name_spec (n : string) :
  valid_name n = true ->
  n <> EmptyString /\ n <> "." /\ n <> ".." /\ slash_free n.
Proof.
  unfold valid_name. rewrite !andb_true_iff, !negb_true_iff, !String.eqb_neq.
  intros [[[H1 H2] H3] H4]. repeat split; try assumption.
  rewrite forallb_forall in H4. intros Hin. specialize (H4 _ Hin). discriminate.
Qed.

Lemma split_sep (sep : ascii) (a rest : string) :
  ~ In sep (list_ascii_of_string a) ->
  Py.split sep (a +:+ String sep rest) = a :: Py.split sep rest.
Proof.
  induction a as [|c a IH]; intros Hfree.
  - cbn [String.append Py.split]. change (EmptyString +:+ String sep rest) with (String sep rest).
    cbn [Py.split]. now rewrite Ascii.eqb_refl.
  - change (String c a +:+ String sep rest) with (String c (a +:+ String sep rest)).
    cbn [Py.split]. destruct (Ascii.eqb_spec c sep) as [->|Hne].
    + exfalso. apply Hfree. now left.
    + rewrite IH; [reflexivity|]. intros Hin. apply Hfree. now right.
Qed.

Lemma split_free (sep : ascii) (a : string) :
  ~ In sep (list_ascii_of_string a) -> Py.split sep a = [a].
Proof.
  induction a as [|c a IH]; intros Hfree; [reflexivity|].
  cbn [Py.split]. destruct (Ascii.eqb_spec c sep) as [->|Hne].
  - exfalso. apply Hfree. now left.
  - rewrite IH; [reflexivity|]. intros Hin. apply Hfree. now right.
Qed.

Lemma split_slashes (a : string) (Q : list string) :
  slash_free a -> Forall slash_free Q ->
  Py.split "/" (a +:+ slashes Q) = a :: Q.
Proof.
  intros Ha HQ. revert a Ha. induction HQ as [|s Q Hs _ IH]; intros a Ha.
  - cbn [slashes]. rewrite append_empty_r. now apply split_free.
  - cbn [slashes]. change ("/" +:+ s +:+ slashes Q) with (String "/" (s +:+ slashes Q)).
    rewrite split_sep by exact Ha. now rewrite IH.
Qed.

Lemma split_concat (Q : list string) :
  Q <> [] -> Forall slash_free Q -> Py.split "/" (String.concat "/" Q) = Q.
Proof.
  intros Hne HQ. induction HQ as [|s Q Hs HQ IH]; [contradiction|].
  destruct Q as [|s' Q]; [now apply split_free|].
  change (String.concat "/" (s :: s' :: Q)) with (s +:+ String "/" (String.concat "/" (s' :: Q))).
  rewrite split_sep by exact Hs. now rewrite IH.
Qed.

Lemma normpath_comps_valid (slashes_first : bool) (acc Q : list string) :
  Forall (fun seg => valid_name seg = true) Q ->
  normpath_comps slashes_first acc Q = (rev acc ++ Q)%list.
Proof.
  intros HQ. revert acc. induction HQ as [|s Q Hs _ IH]; intros acc.
  - cbn. now rewrite app_nil_r.
  - apply valid_name_spec in Hs as (H1 & H2 & H3 & _).
    cbn [normpath_comps].
    apply String.eqb_neq in H1, H2, H3. rewrite H1, H2, H3. cbn [orb negb].
    rewrite IH. cbn [rev]. now rewrite <- List.app_assoc.
Qed.

Lemma slashes_app (P : list string) (x : string) :
  slashes (P ++ [x]) = slashes P +:+ "/" +:+ x.
Proof.
  induction P as [|s P IH].
  - cbn [app slashes]. change (EmptyString +:+ "/" +:+ x) with ("/" +:+ x).
    now rewrite append_empty_r.
  - cbn [app slashes]. rewrite IH.
    change ("/" +:+ s +:+ slashes P +:+ "/" +:+ x) with (String "/" (s +:+ (slashes P +:+ "/" +:+ x))).
    change (("/" +:+ s +:+ slashes P) +:+ "/" +:+ x) with (String "/" ((s +:+ slashes P) +:+ "/" +:+ x)).
    now rewrite append_assoc.
Qed.

Lemma last_char_append (a s : string) :
  s <> EmptyString -> last_char (a +:+ s) = last_char s.
Proof.
  intros Hs. induction a as [|c a IH]; [reflexivity|].
  change (String c a +:+ s) with (String c (a +:+ s)). cbn [last_char]. rewrite IH.
  destruct s as [|d s]; [contradiction|]. cbn [last_char]. now destruct (last_char s).
Qed.

Lemma last_char_In (s : string) (c : ascii) :
  last_char s = Some c -> In c (list_ascii_of_string s).
Proof.
  induction s as [|d s IH]; [discriminate|].
  cbn [last_char list_ascii_of_string]. destruct (last_char s) as [e|].
  - intros [= <-]. right. now apply IH.
  - intros [= <-]. now left.
Qed.

Lemma endswith_slash_free (a s : string) :
  s <> EmptyString -> slash_free s -> Py.endswith (a +:+ s) "/" = false.
Proof.
  intros Hs Hfree. destruct (Py.endswith (a +:+ s) "/") eqn:E; [|reflexivity].
  exfalso. apply endswith_last_char in E; [|discriminate].
  rewrite last_char_append in E by exact Hs. apply Hfree. now apply last_char_In.
Qed.

Lemma render_not_dir (P : list string) :
  Forall (fun seg => valid_name seg = true) P -> Py.endswith (render P) "/" = false.
Proof.
  intros HP. destruct P as [|s P] using rev_ind; [reflexivity|].
  apply Forall_app in HP as [_ Hs]. apply Forall_inv in Hs.
  apply valid_name_spec in Hs as (H1 & _ & _ & H4).
  unfold render. rewrite slashes_app.
  rewrite <- append_assoc, <- append_assoc. now apply endswith_slash_free.
Qed.

Lemma path_join_render (P : list string) (x : string) :
  Forall (fun seg => valid_name seg = true) P -> valid_name x = true ->
  path_join (render P) x = render (P ++ [x]).
Proof.
  intros HP Hx. pose proof (render_not_dir P HP) as Hend.
  apply valid_name_spec in Hx as (H1 & _ & _ & H4).
  unfold path_join. rewrite Hend.
  assert (Py.startswith x "/" = false) as ->.
  { destruct x as [|c x]; [reflexivity|]. unfold Py.startswith. cbn [String.prefix].
    destruct (ascii_dec "/" c) as [<-|]; [|reflexivity]. exfalso. apply H4. now left. }
  assert (String.eqb (render P) EmptyString = false) as -> by reflexivity.
  cbn [orb]. unfold render. rewrite slashes_app. now rewrite append_assoc.
Qed.

Lemma concat_not_empty (Q : list string) :
  Q <> [] -> Forall (fun seg => valid_name seg = true) Q ->
  String.eqb (String.concat "/" Q) EmptyString = false.
Proof.
  intros Hne HQ. destruct HQ as [|s Q Hs _]; [contradiction|].
  apply valid_name_spec in Hs as (H1 & _). destruct s as [|c s]; [contradiction|].
  now destruct Q.
Qed.

Lemma Forall_slash_free (Q : list string) :
  Forall (fun seg => valid_name seg = true) Q -> Forall slash_free Q.
Proof.
  intros H. eapply List.Forall_impl; [|exact H].
  intros s Hs. now apply valid_name_spec in Hs.
Qed.

Lemma normpath_render (Q : list string) :
  Q <> [] -> Forall (fun seg => valid_name seg = true) Q ->
  normpath (render Q) = String.concat "/" Q.
Proof.
  intros Hne HQ.
  assert (Hsplit : Py.split "/" (render Q) = "." :: Q).
  { unfold render. apply split_slashes; [|now apply Forall_slash_free].
    intros [H|[]]. discriminate. }
  assert (Hcomps : normpath_comps false [] ("." :: Q) = Q).
  { change (normpath_comps false [] ("." :: Q)) with (normpath_comps false [] Q).
    now rewrite normpath_comps_valid. }
  unfold normpath.
  change (String.eqb (render Q) EmptyString) with false.
  change (Py.startswith (render Q) "/") with false.
  cbv iota. change (negb (0 =? 0)) with false. rewrite Hsplit, Hcomps.
  change (0 =? 2) with false. change (0 =? 1) with false. cbv iota.
  change (EmptyString +:+ String.concat "/" Q) with (String.concat "/" Q).
  now rewrite concat_not_empty.
Qed.

Lemma path_segments_render (Q : list string) :
  Q <> [] -> Forall (fun seg => valid_name seg = true) Q -> path_segments (render Q) = Q.
Proof.
  intros Hne HQ. unfold path_segments. rewrite normpath_render by assumption.
  apply split_concat; [exact Hne|now apply Forall_slash_free].
Qed.

Lemma walk_top_root : walk_top "." [].
Proof. split; [reflexivity|constructor]. Qed.

Lemma walk_top_join (top : string) (P : list string) (x : string) :
  walk_top top P -> valid_name x = true -> walk_top (path_join top x) (P ++ [x]).
Proof.
  intros [-> HP] Hx. split; [now apply path_join_render|].
  apply Forall_app. split; [exact HP|now constructor].
Qed.

Lemma walk_top_segments (top : string) (P : list string) (x : string) :
  walk_top top P -> valid_name x = true ->
  path_segments (path_join top x) = (P ++ [x])%list.
Proof.
  intros HT Hx. destruct (walk_top_join top P x HT Hx) as [-> HPx].
  apply path_segments_render; [|exact HPx]. now destruct P.
Qed.

Lemma walk_dir_unfold (top nm : string) (es : list FsEntry) :
  walk_dir top (FsDir nm es)
  = (flat_map (sub_walk top) es ++ [(top, dir_names es, file_entries es)])%list.
Proof.
  reflexivity.
Qed.

Lemma FsEntry_forall_ind (P : FsEntry -> Prop) :
  (forall n t, P (FsFile n t)) ->
  (forall n es, Forall P es -> P (FsDir n es)) ->
  forall e, P e.
Proof.
  intros Hfile Hdir. fix IH 1. intros [n t|n es]; [apply Hfile|].
  apply Hdir. induction es as [|e es IHes]; constructor; [apply IH|exact IHes].
Qed.

Lemma fold_frame {A} (step : WalkState -> A -> WalkState) (l : list A) (st : WalkState)
    (r : list string) :
  (forall st a, In a l -> find_node r (fst (step st a)) = find_node r (fst st)) ->
  find_node r (fst (fold_left step l st)) = find_node r (fst st).
Proof.
  revert st. induction l as [|a l IH]; intros st H; [reflexivity|].
  cbn [fold_left]. rewrite IH.
  - apply H. now left.
  - intros st' a' Ha'. apply H. now right.
Qed.

Lemma In_dir_names (n : string) (es : list FsEntry) :
  In n (dir_names es) <-> exists sub, In (FsDir n sub) es.
Proof.
  unfold dir_names. rewrite <- list_elem_of_In, list_elem_of_omap. split.
  - intros ([f t|m sub] & He & Hn); [discriminate|]. injection Hn as <-.
    exists sub. now apply list_elem_of_In.
  - intros (sub & He). exists (FsDir n sub). split; [now apply list_elem_of_In|reflexivity].
Qed.

Lemma In_file_entries (f : string * FileText) (es : list FsEntry) :
  In f (file_entries es) -> In (FsFile f.1 f.2) es.
Proof.
  unfold file_entries. rewrite <- list_elem_of_In, list_elem_of_omap.
  intros ([n t|m sub] & He & Hn); [|discriminate]. injection Hn as <-.
  now apply list_elem_of_In.
Qed.

Lemma wf_entries_valid (es : list FsEntry) (e : FsEntry) :
  forallb wf_entry es = true -> In e es -> valid_name (entry_name e) = true /\ wf_entry e = true.
Proof.
  intros H He. rewrite forallb_forall in H. specialize (H e He). split; [|exact H].
  destruct e as [n t|n sub]; cbn in H; [exact H|].
  apply andb_true_iff in H as [H _]. now apply andb_true_iff in H as [H _].
Qed.

Lemma existsb_eqb_false (x y : string) (l : list string) :
  existsb (String.eqb x) l = false -> In y l -> y <> x.
Proof.
  intros H Hy ->. assert (existsb (String.eqb x) l = true); [|congruence].
  apply existsb_exists. exists x. split; [exact Hy|apply String.eqb_refl].
Qed.

Lemma distinct_dir_names (es : list FsEntry) :
  distinct (map entry_name es) = true -> distinct (dir_names es) = true.
Proof.
  induction es as [|e es IH]; [reflexivity|].
  cbn [map distinct]. intros H. apply andb_true_iff in H as [Hx Hd].
  specialize (IH Hd). destruct e as [n t|n sub]; [exact IH|].
  change (dir_names (FsDir n sub :: es)) with (n :: dir_names es).
  cbn [distinct entry_name] in *. rewrite IH, andb_true_r.
  apply negb_true_iff in Hx. apply negb_true_iff.
  destruct (existsb (String.eqb n) (dir_names es)) eqn:E; [|reflexivity].
  apply existsb_exists in E as (m & Hm & Hnm). apply String.eqb_eq in Hnm as <-.
  apply In_dir_names in Hm as (sub' & Hs).
  exfalso. apply (existsb_eqb_false n n (map entry_name es) Hx); [|reflexivity].
  apply in_map_iff. now exists (FsDir n sub').
Qed.

Section OneDirectory.
Variables (top : string) (P : list string).
Hypothesis Htop : walk_top top P.

Lemma item_frame (dirs : list string) (files : list (string * FileText)) (st : WalkState)
    (r : list string) :
  Forall (fun d => valid_name d = true) dirs ->
  Forall (fun f => valid_name f.1 = true) files ->
  (forall x, is_prefix r (P ++ [x]) = false) ->
  find_node r (fst (walk_step st (top, dirs, files))) = find_node r (fst st).
Proof.
  intros Hd Hf Hr. unfold walk_step. rewrite !fold_frame; [reflexivity| |].
  - intros st' f Hin. apply scan_file_frame. rewrite (walk_top_segments top P _ Htop); [apply Hr|].
    rewrite List.Forall_forall in Hf. now apply Hf.
  - intros st' d Hin. apply sum_dir_frame. rewrite (walk_top_segments top P _ Htop); [apply Hr|].
    rewrite List.Forall_forall in Hd. now apply Hd.
Qed.

Lemma dirs_sums (dirs : list string) (st : WalkState) (n : string) :
  Forall (fun d => valid_name d = true) dirs ->
  distinct dirs = true -> In n dirs -> allowed (P ++ [n]) = true ->
  exists node, find_node (P ++ [n]) (fst (fold_left (sum_dir top) dirs st)) = Some node
               /\ summed node.
Proof.
  revert st. induction dirs as [|d dirs IH]; intros st Hv Hd Hin Ha; [destruct Hin|].
  apply Forall_cons in Hv as [Hvd Hv]. cbn [distinct] in Hd.
  apply andb_true_iff in Hd as [Hnd Hd]. apply negb_true_iff in Hnd.
  cbn [fold_left]. destruct Hin as [->|Hin].
  - rewrite fold_frame.
    + rewrite <- (walk_top_segments top P n Htop Hvd). apply sum_dir_sums.
      now rewrite (walk_top_segments top P n Htop Hvd).
    + intros st' d' Hd'. apply sum_dir_frame.
      rewrite List.Forall_forall in Hv. rewrite (walk_top_segments top P _ Htop) by now apply Hv.
      rewrite is_prefix_app. cbn. 
      destruct (String.eqb_spec n d') as [->|]; [|reflexivity].
      exfalso. now apply (existsb_eqb_false d' d' dirs Hnd).
  - now apply IH.
Qed.

End OneDirectory.

Lemma dir_at_cons (seg : string) (rest : list string) (es : list FsEntry) :
  dir_at (seg :: rest) es = true ->
  exists sub, In (FsDir seg sub) es /\ (rest = [] \/ dir_at rest sub = true).
Proof.
  cbn [dir_at]. intros H. apply existsb_exists in H as ([n t|n sub] & He & H); [discriminate|].
  apply andb_true_iff in H as [Hn H]. apply String.eqb_eq in Hn as ->.
  exists sub. split; [exact He|]. destruct rest; [now left|now right].
Qed.

Lemma wf_entry_dir (n : string) (sub : list FsEntry) :
  wf_entry (FsDir n sub) = true -> valid_name n = true /\ wf_tree sub = true.
Proof.
  cbn [wf_entry]. unfold wf_tree. rewrite !andb_true_iff. tauto.
Qed.

Lemma subwalks_frame (top : string) (P : list string) (es : list FsEntry) (st : WalkState)
    (r : list string) :
  Forall walked_well es -> forallb wf_entry es = true -> walk_top top P ->
  (forall n, In n (dir_names es) ->
             is_prefix r (P ++ [n]) = false /\ is_prefix (P ++ [n]) r = false) ->
  find_node r (fst (fold_left walk_step (flat_map (sub_walk top) es) st)) = find_node r (fst st).
Proof.
  intros HW. revert st. induction HW as [|e es He _ IH]; intros st Hwf HT Hr; [reflexivity|].
  cbn [forallb] in Hwf. apply andb_true_iff in Hwf as [Hwe Hwf].
  cbn [flat_map]. rewrite fold_left_app. rewrite IH; [|exact Hwf|exact HT|].
  - destruct e as [n t|n sub]; [reflexivity|]. cbn [sub_walk].
    apply wf_entry_dir in Hwe as [Hv Hwe].
    destruct (Hr n) as [H1 H2]; [apply In_dir_names; exists sub; now left|].
    now apply (He (path_join top n) (P ++ [n])%list st Hwe (walk_top_join top P n HT Hv)).
  - intros n Hn. apply Hr. apply In_dir_names in Hn as (sub & Hs).
    apply In_dir_names. exists sub. now right.
Qed.

Lemma subwalks_sums (top : string) (P : list string) (es : list FsEntry) (st : WalkState)
    (n x : string) (rest : list string) :
  Forall walked_well es -> forallb wf_entry es = true -> distinct (map entry_name es) = true ->
  walk_top top P ->
  dir_at (n :: x :: rest) es = true -> allowed (P ++ n :: x :: rest) = true ->
  exists node,
    find_node (P ++ n :: x :: rest)
              (fst (fold_left walk_step (flat_map (sub_walk top) es) st)) = Some node
    /\ summed node.
Proof.
  intros HW. revert st. induction HW as [|e es He HWs IH]; intros st Hwf Hd HT Hdir Ha;
    [discriminate|].
  cbn [forallb] in Hwf. apply andb_true_iff in Hwf as [Hwe Hwf].
  cbn [map distinct] in Hd. apply andb_true_iff in Hd as [Hne Hd]. apply negb_true_iff in Hne.
  cbn [flat_map]. rewrite fold_left_app.
  cbn [dir_at existsb] in Hdir. apply orb_true_iff in Hdir as [Hhere|Hlater].
  - destruct e as [m t|m sub]; [discriminate|].
    apply andb_true_iff in Hhere as [Hm Hsub]. apply String.eqb_eq in Hm as ->.
    apply wf_entry_dir in Hwe as [Hv Hwe].
    cbn [sub_walk].
    destruct (He (path_join top n) (P ++ [n])%list st Hwe (walk_top_join top P n HT Hv)) as [_ HS].
    destruct (HS (x :: rest) Hsub) as (node & Hnode & Hsum).
    { rewrite <- (List.app_assoc P [n] (x :: rest)). exact Ha. }
    rewrite <- (List.app_assoc P [n] (x :: rest)) in Hnode. cbn [app] in Hnode.
    exists node. split; [|exact Hsum].
    rewrite (subwalks_frame top P); [exact Hnode|exact HWs|exact Hwf|exact HT|].
    intros n' Hn'. rewrite !is_prefix_app. split.
    + apply is_prefix_longer. cbn. lia.
    + cbn. destruct (String.eqb_spec n' n) as [->|]; [|reflexivity].
      exfalso. apply (existsb_eqb_false n n (map entry_name es) Hne); [|reflexivity].
      apply In_dir_names in Hn' as (sub' & Hs). apply in_map_iff. now exists (FsDir n sub').
  - apply IH; try assumption.
Qed.

Lemma walked_well_all (e : FsEntry) : walked_well e.
Proof.
  induction e as [n t|nm es IH] using FsEntry_forall_ind; intros top P st Hwf HT.
  - split; [reflexivity|]. intros [|seg rest] H; discriminate.
  - cbn [entries_of] in Hwf. unfold wf_tree in Hwf. apply andb_true_iff in Hwf as [Hd Hes].
    rewrite walk_dir_unfold, fold_left_app. cbn [fold_left entries_of].
    assert (Hvd : Forall (fun d => valid_name d = true) (dir_names es)).
    { apply List.Forall_forall. intros d Hin. apply In_dir_names in Hin as (sub & Hs).
      now destruct (wf_entries_valid es _ Hes Hs). }
    assert (Hvf : Forall (fun f => valid_name f.1 = true) (file_entries es)).
    { apply List.Forall_forall. intros f Hin. apply In_file_entries in Hin.
      now destruct (wf_entries_valid es _ Hes Hin). }
    split.
    + intros r H1 H2.
      rewrite (item_frame top P HT); try assumption.
      * apply (subwalks_frame top P); try assumption.
        intros n Hn. split; [now apply is_prefix_outside|].
        destruct (is_prefix (P ++ [n]) r) eqn:E; [|reflexivity].
        assert (is_prefix P r = true); [|congruence].
        clear -E. revert r E. induction P as [|a P IHP]; intros r E; [reflexivity|].
        destruct r as [|b r]; [discriminate|]. cbn in *.
        apply andb_true_iff in E as [-> E]. now apply IHP.
      * intros x. now apply is_prefix_outside.
    + intros [|n [|x rest]] Hdir Ha; [discriminate| |].
      * unfold walk_step.
        apply (dirs_sums top P HT); try assumption.
        -- now apply distinct_dir_names.
        -- apply dir_at_cons in Hdir as (sub & Hs & _). apply In_dir_names. now exists sub.
      * destruct (subwalks_sums top P es st n x rest IH Hes Hd HT Hdir Ha) as (node & Hnode & Hsum).
        exists node. split; [|exact Hsum].
        rewrite (item_frame top P HT); try assumption.
        intros y. rewrite is_prefix_app. apply is_prefix_longer. cbn. lia.
Qed.

(** X1: every directory of a well-formed work tree other than the root, when
    no excluded name lies on its path, has a node in the tree the walk
    builds, and the two counts of that node are the sums of the counts of
    its children. *)
Theorem directories_below_the_root_are_summed (tree : list FsEntry) (p : list string) :
  wf_tree tree = true -> dir_at p tree = true -> allowed p = true ->
  exists node, find_node p (fst (build_flamegraph tree)) = Some node /\ summed node.
Proof.
  intros Hwf Hdir Ha.
  destruct (walked_well_all (FsDir "." tree) "." [] (new_node ".", []) Hwf walk_top_root)
    as [_ HS].
  exact (HS p Hdir Ha).
Qed.

Lemma directories_below_the_root_are_summed_witness :
  exists node, find_node ["Kernel"] (fst (build_flamegraph nested_fs)) = Some node /\ summed node.
Proof.
  apply (directories_below_the_root_are_summed nested_fs ["Kernel"]); reflexivity.
Defined.

Example nested_counts :
  own_counts <$> find_node ["Kernel"] (fst (build_flamegraph nested_fs)) = Some (3, 3)
  /\ own_counts <$> find_node ["Kernel"; "Arch"] (fst (build_flamegraph nested_fs)) = Some (2, 2)
  /\ find_node ["Kernel"; ".git"] (fst (build_flamegraph nested_fs)) = None.
Proof. vm_compute. repeat split. Qed.

(** ** The commit list, the time series and the plots *)

Lemma digits_value_acc (d : Decimal.uint) (acc : positive) :
  digits_value (Z.pos acc) (NilEmpty.string_of_uint d) = Some (Z.pos (Pos.of_uint_acc d acc)).
Proof.
  revert acc. induction d; intros acc; cbn [NilEmpty.string_of_uint digits_value Pos.of_uint_acc];
    [reflexivity|..];
    match goal with
    | |- context [nat_of_ascii ?c] =>
        let v := eval vm_compute in (nat_of_ascii c) in change (nat_of_ascii c) with v
    end; cbn [Nat.leb andb Nat.sub]; rewrite <- IHd; f_equal; lia.
Qed.

Lemma digits_value_of_uint (d : Decimal.uint) :
  digits_value 0 (NilEmpty.string_of_uint d) = Some (Z.of_N (Pos.of_uint d)).
Proof.
  induction d; cbn [NilEmpty.string_of_uint digits_value Pos.of_uint]; [reflexivity|..];
    match goal with
    | |- context [nat_of_ascii ?c] =>
        let v := eval vm_compute in (nat_of_ascii c) in change (nat_of_ascii c) with v
    end; cbn [Nat.leb andb Nat.sub Z.mul Z.add Z.of_nat Pos.of_succ_nat Pos.succ Z.of_N];
    first [exact IHd | apply digits_value_acc].
Qed.

Lemma int_of_str_digits (d : Decimal.uint) :
  d <> Decimal.Nil ->
  int_of_str (NilEmpty.string_of_uint d) = digits_value 0 (NilEmpty.string_of_uint d).
Proof. destruct d; intros H; try reflexivity. contradiction. Qed.

Lemma to_uint_not_nil (p : positive) : Pos.to_uint p <> Decimal.Nil.
Proof.
  intros H. pose proof (DecimalPos.Unsigned.of_to p) as E. rewrite H in E. discriminate.
Qed.

Lemma string_of_uint_not_empty (d : Decimal.uint) :
  d <> Decimal.Nil -> NilEmpty.string_of_uint d <> EmptyString.
Proof. destruct d; intros H; try discriminate. contradiction. Qed.

Lemma string_of_uint_nonzero (d : Decimal.uint) :
  d <> Decimal.Nil -> NilZero.string_of_uint d = NilEmpty.string_of_uint d.
Proof. destruct d; intros H; try reflexivity. contradiction. Qed.

Lemma int_of_str_of_Z (z : Z) : int_of_str (str_of_Z z) = Some z.
Proof.
  unfold str_of_Z. destruct z as [|p|p]; [reflexivity| |].
  - cbn [Z.to_int NilZero.string_of_int].
    pose proof (to_uint_not_nil p) as Hn.
    rewrite string_of_uint_nonzero, int_of_str_digits, digits_value_of_uint by exact Hn.
    now rewrite DecimalPos.Unsigned.of_to.
  - cbn [Z.to_int NilZero.string_of_int].
    pose proof (to_uint_not_nil p) as Hn.
    pose proof (string_of_uint_not_empty _ Hn) as Hs.
    rewrite string_of_uint_nonzero by exact Hn.
    assert (E : forall s, s <> EmptyString ->
                int_of_str (String "-" s) = Z.opp <$> digits_value 0 s).
    { intros [|a s] H; [contradiction|reflexivity]. }
    rewrite E by exact Hs. rewrite digits_value_of_uint, DecimalPos.Unsigned.of_to. reflexivity.
Qed.

Lemma string_of_uint_digits (d : Decimal.uint) (c : ascii) :
  In c (list_ascii_of_string (NilEmpty.string_of_uint d)) -> is_digit c = true.
Proof.
  induction d; cbn [NilEmpty.string_of_uint list_ascii_of_string In]; [tauto|..];
    (intros [<-|H]; [reflexivity|now apply IHd]).
Qed.

Lemma str_of_Z_chars (z : Z) (c : ascii) :
  In c (list_ascii_of_string (str_of_Z z)) -> is_digit c = true \/ c = "-"%char.
Proof.
  unfold str_of_Z. destruct z as [|p|p]; cbn [Z.to_int NilZero.string_of_int].
  - cbn. intros [<-|[]]. now left.
  - rewrite string_of_uint_nonzero by apply to_uint_not_nil. intros H. left.
    now apply (string_of_uint_digits (Pos.to_uint p)).
  - rewrite string_of_uint_nonzero by apply to_uint_not_nil.
    cbn [list_ascii_of_string In]. intros [<-|H]; [now right|left].
    now apply (string_of_uint_digits (Pos.to_uint p)).
Qed.

Lemma list_ascii_app (a b : string) :
  list_ascii_of_string (a +:+ b) = (list_ascii_of_string a ++ list_ascii_of_string b)%list.
Proof.
  induction a as [|c a IH]; [reflexivity|].
  change (String c a +:+ b) with (String c (a +:+ b)). cbn [list_ascii_of_string app].
  now rewrite IH.
Qed.

Lemma str_of_Z_plain (z : Z) (c : ascii) :
  is_digit c = false -> c <> "-"%char -> ~ In c (list_ascii_of_string (str_of_Z z)).
Proof.
  intros Hd Hm Hin. apply str_of_Z_chars in Hin as [H|H]; congruence.
Qed.

Lemma parse_log_line_of_entry (entry : string * Z) (st : State) :
  plain_hash entry.1 -> parse_log_line (log_line entry) st = (Return entry, st).
Proof.
  intros [Hsp _]. destruct entry as [hash date]. unfold parse_log_line, log_line. cbn [fst snd] in *.
  change (hash +:+ " " +:+ str_of_Z date) with (hash +:+ String " " (str_of_Z date)).
  rewrite split_sep by exact Hsp.
  rewrite split_free by (apply str_of_Z_plain; [reflexivity|discriminate]).
  now rewrite int_of_str_of_Z.
Qed.

Lemma mapM_parse_log_lines (entries : list (string * Z)) (st : State) :
  Forall (fun e => plain_hash e.1) entries ->
  mapM parse_log_line (map log_line entries) st = (Return entries, st).
Proof.
  induction 1 as [|e es He _ IH]; [reflexivity|].
  cbn [map mapM]. rewrite bind_run, parse_log_line_of_entry by exact He.
  rewrite bind_run, IH. reflexivity.
Qed.

Lemma log_line_newline_free (entry : string * Z) :
  plain_hash entry.1 -> newline_free (log_line entry).
Proof.
  intros [_ Hnl]. unfold newline_free, log_line. rewrite !list_ascii_app.
  rewrite !in_app_iff. intros [H|[H|H]].
  - now apply Hnl.
  - cbn in H. destruct H as [H|[]]. discriminate.
  - revert H. apply str_of_Z_plain; [reflexivity|discriminate].
Qed.

Lemma log_line_not_empty (entry : string * Z) : log_line entry <> EmptyString.
Proof.
  unfold log_line. destruct entry.1; discriminate.
Qed.

(** X2: when git log succeeds and prints one line "<hash> <seconds>" for each
    entry of a non-empty list, every hash free of blanks and newlines,
    [determine_commit_and_date_list] returns exactly that list, in the order
    printed, after running the one command and printing the number of
    commits. *)
Theorem commit_list_is_parsed_back (w : World) (st : State) (entries : list (string * Z)) :
  entries <> [] ->
  Forall (fun e => plain_hash e.1) entries ->
  git w LOG (head st) = mkProc 0 (grep_output (map log_line entries)) ->
  determine_commit_and_date_list w st
  = (Return entries,
     push (Printed ("Repo has " +:+ Py.str_of_nat (length entries) +:+ " commits."))
          (push (Ran LOG) st)).
Proof.
  intros Hne Hplain Hgit.
  unfold determine_commit_and_date_list. fold LOG.
  rewrite bind_run, run_checked_run, Hgit. cbn [returncode stdout Z.eqb].
  assert (Hnl : Forall newline_free (map log_line entries)).
  { apply List.Forall_forall. intros l Hl. apply in_map_iff in Hl as (e & <- & He).
    apply log_line_newline_free. rewrite List.Forall_forall in Hplain. now apply Hplain. }
  rewrite split_grep_output by exact Hnl. cbv zeta.
  rewrite last_item_snoc. rewrite bool_decide_eq_true_2 by reflexivity.
  rewrite removelast_last.
  assert (Hlast : exists l, Py.last_item (map log_line entries) = Some l /\ l <> EmptyString).
  { destruct entries as [|e0 es] using rev_ind; [contradiction|].
    exists (log_line e0). split; [|apply log_line_not_empty].
    rewrite map_app. apply last_item_snoc. }
  destruct Hlast as (l & -> & Hl).
  apply String.eqb_neq in Hl. rewrite Hl. cbn [negb].
  unfold py_assert, log. rewrite !bind_run. unfold mret at 1 2, M_ret. cbv iota beta.
  unfold mbind, M_bind. cbv beta iota.
  rewrite mapM_parse_log_lines by exact Hplain.
  now rewrite length_map.
Qed.

(** X3: [determine_commit_and_date_list] stops right after the git log
    command, with nothing printed, when the command fails
    (CalledProcessError), when its output is empty, as for a history without
    commits (IndexError, raised by [lines[-1]], not by an assert), and when
    the output does not end in a newline (AssertionError). *)
Theorem commit_list_failures (w : World) (st : State) :
  returncode (log_answer w st) <> 0%Z
  \/ Py.last_item (Py.split Py.newline (stdout (log_answer w st))) <> Some EmptyString
  \/ stdout (log_answer w st) = EmptyString ->
  determine_commit_and_date_list w st
  = (if negb (returncode (log_answer w st) =? 0)%Z then Raise CalledProcessError
     else if String.eqb (stdout (log_answer w st)) EmptyString then Raise IndexError
          else Raise AssertionError,
     push (Ran LOG) st).
Proof.
  unfold log_answer. intros Hbad.
  unfold determine_commit_and_date_list. fold LOG.
  rewrite bind_run, run_checked_run.
  destruct (returncode (git w LOG (head st)) =? 0)%Z eqn:Hrc; cbn [negb]; [|reflexivity].
  cbv zeta beta iota.
  destruct (String.eqb (stdout (git w LOG (head st))) EmptyString) eqn:Hout.
  - apply String.eqb_eq in Hout. rewrite Hout. reflexivity.
  - apply String.eqb_neq in Hout.
    destruct Hbad as [Hbad|[Hbad|Hbad]]; [lia| |contradiction].
    rewrite bool_decide_eq_false_2 by exact Hbad. reflexivity.
Qed.

Lemma commit_list_is_parsed_back_witness :
  determine_commit_and_date_list two_commit_world fresh_state
  = (Return [("abc", 7%Z); ("def", 9%Z)],
     push (Printed "Repo has 2 commits.") (push (Ran LOG) fresh_state)).
Proof.
  apply (commit_list_is_parsed_back two_commit_world fresh_state [("abc", 7%Z); ("def", 9%Z)]).
  - discriminate.
  - repeat constructor; cbn; intros H; repeat (destruct H as [H|H]; [discriminate H|]);
      exact H.
  - vm_compute. reflexivity.
Defined.

Lemma commit_list_failures_witness :
  determine_commit_and_date_list no_match_world fresh_state
  = (Raise IndexError, push (Ran LOG) fresh_state).
Proof.
  apply (commit_list_failures no_match_world fresh_state).
  right. right. vm_compute. reflexivity.
Defined.

Lemma lookup_commit_effect (w : World) (commit : string) (date : Z) (st : State) :
  let out := fst (lookup_commit w commit date st) in
  let st' := snd (lookup_commit w commit date st) in
  cache st ⊆ cache st'
  /\ (forall k, is_Some (cache st' !! k) -> is_Some (cache st !! k) \/ k = commit)
  /\ (forall row, out = Return row ->
        exists t, cache st' !! commit = Some t /\ row = make_row w commit date t).
Proof.
  cbv zeta. destruct (cache st !! commit) as [t|] eqn:Hc.
  - rewrite (lookup_hit w st commit date t Hc). cbn [fst snd].
    split; [reflexivity|]. split; [auto|]. intros row [= <-]. now exists t.
  - destruct (fresh_triple w (head st) commit) as [t|] eqn:Hf.
    + rewrite (lookup_miss_success w st commit date t Hc Hf). cbn [fst snd].
      unfold after_miss. cbn [cache]. split; [now apply insert_subseteq|]. split.
      * intros k Hk. destruct (decide (k = commit)) as [->|Hne]; [now right|left].
        now rewrite lookup_insert_ne in Hk.
      * intros row [= <-]. exists t. split; [apply lookup_insert_eq|reflexivity].
    + destruct (lookup_miss_failure w st commit date Hc Hf) as (e & st' & -> & H1 & H2).
      cbn [fst snd]. rewrite H1. split; [reflexivity|]. split; [auto|]. discriminate.
Qed.

Lemma make_row_of (w : World) (c : gmap string Triple) (cd : string * Z) (t : Triple) :
  c !! cd.1 = Some t -> make_row w cd.1 cd.2 t = row_of w c cd.
Proof. intros H. unfold row_of. now rewrite H. Qed.

Lemma lookup_all_effect (w : World) (cds : list (string * Z)) (st : State) :
  let out := fst (lookup_all w cds st) in
  let st' := snd (lookup_all w cds st) in
  cache st ⊆ cache st'
  /\ (forall k, is_Some (cache st' !! k) -> is_Some (cache st !! k) \/ In k (map fst cds))
  /\ (forall rows, out = Return rows ->
        rows = map (row_of w (cache st')) cds
        /\ forall cd, In cd cds -> is_Some (cache st' !! cd.1)).
Proof.
  cbv zeta. revert st. induction cds as [|cd cds IH]; intros st.
  - cbn [lookup_all mapM fst snd map]. split; [reflexivity|]. split; [auto|].
    intros rows [= <-]. split; [reflexivity|]. intros cd Hcd. destruct Hcd.
  - rewrite lookup_all_cons.
    destruct (lookup_commit_effect w cd.1 cd.2 st) as (H1 & H2 & H3).
    destruct (lookup_commit w cd.1 cd.2 st) as [[row|e] st1]; cbn [fst snd] in *.
    2:{ split; [exact H1|]. split; [|discriminate].
        intros k Hk. destruct (H2 k Hk) as [Hl|Hl]; [now left|subst k; right; now left]. }
    destruct (IH st1) as (I1 & I2 & I3).
    destruct (H3 row eq_refl) as (t & Ht & ->).
    assert (Hsub : cache st ⊆ cache (snd (lookup_all w cds st1))) by (etransitivity; eassumption).
    assert (Hkeys : forall k, is_Some (cache (snd (lookup_all w cds st1)) !! k) ->
                              is_Some (cache st !! k) \/ In k (map fst (cd :: cds))).
    { intros k Hk. destruct (I2 k Hk) as [Hk1|Hin]; [|right; now right].
      destruct (H2 k Hk1) as [Hl|Hl]; [now left|subst k; right; now left]. }
    destruct (lookup_all w cds st1) as [[rows|e] st2]; cbn [fst snd] in *.
    2:{ split; [exact Hsub|]. split; [exact Hkeys|discriminate]. }
    split; [exact Hsub|]. split; [exact Hkeys|].
    intros rows' [= <-]. destruct (I3 rows eq_refl) as [-> Hall].
    assert (Hcd : cache st2 !! cd.1 = Some t) by (eapply lookup_weaken; eassumption).
    split.
    + cbn [map]. now rewrite (make_row_of w (cache st2) cd t Hcd).
    + intros cd' [<-|Hin]; [now rewrite Hcd|now apply Hall].
Qed.

(** X4: looking up a list of commits one after the other never drops or
    changes an entry of the dict: the dict before is included in the dict
    after, every new key is one of the commits asked for, and when all the
    lookups return, every commit asked for is a key. *)
Theorem cache_only_grows (w : World) (cds : list (string * Z)) (st : State) :
  cache st ⊆ cache (snd (lookup_all w cds st))
  /\ (forall k, is_Some (cache (snd (lookup_all w cds st)) !! k) ->
                is_Some (cache st !! k) \/ In k (map fst cds))
  /\ (forall rows, fst (lookup_all w cds st) = Return rows ->
                   forall cd, In cd cds -> is_Some (cache (snd (lookup_all w cds st)) !! cd.1)).
Proof.
  destruct (lookup_all_effect w cds st) as (H1 & H2 & H3).
  split; [exact H1|]. split; [exact H2|]. intros rows Hr. now destruct (H3 rows Hr).
Qed.

(** X5: when [run] gets as far as writing the time series, the text written
    has one line per commit of the list [determine_commit_and_date_list]
    returned, in that order, each made of the date of the commit and the
    three counts the dict holds for it at the end; the dict loaded is
    included in the final one, which holds every commit of the list. *)
Theorem time_series_has_one_row_per_commit
    (w : World) (st0 st1 st' : State) (cds : list (string * Z)) (csv : string) :
  run_prefix w st0 = (Return cds, st1) ->
  run w st0 = (Return csv, st') ->
  csv = String.concat EmptyString (map (fun cd => csv_line (row_of w (cache st') cd)) cds)
  /\ cache st1 ⊆ cache st'
  /\ forall cd, In cd cds -> is_Some (cache st' !! cd.1).
Proof.
  intros Hp. rewrite run_split, Hp.
  destruct (lookup_all_effect w cds st1) as (H1 & _ & H3).
  destruct (lookup_all w cds st1) as [[rows|e] st2]; [|discriminate]. cbn [fst snd] in *.
  intros [= <- <-]. cbn [cache]. destruct (H3 rows eq_refl) as [-> Hall].
  split; [now rewrite map_map|]. split; [exact H1|exact Hall].
Qed.

Lemma time_series_has_one_row_per_commit_witness :
  run two_commit_world fresh_state
  = (Return ("7,1,1,1" +:+ Json.nl +:+ "9,1,1,1" +:+ Json.nl),
     snd (run two_commit_world fresh_state))
  /\ String.concat EmptyString
       (map (fun cd => csv_line (row_of two_commit_world
                                        (cache (snd (run two_commit_world fresh_state))) cd))
            [("abc", 7%Z); ("def", 9%Z)])
     = "7,1,1,1" +:+ Json.nl +:+ "9,1,1,1" +:+ Json.nl.
Proof.
  assert (Hrun : run two_commit_world fresh_state
                 = (Return ("7,1,1,1" +:+ Json.nl +:+ "9,1,1,1" +:+ Json.nl),
                    snd (run two_commit_world fresh_state))) by (vm_compute; reflexivity).
  split; [exact Hrun|].
  symmetry.
  exact (proj1 (time_series_has_one_row_per_commit two_commit_world fresh_state
                  (snd (run_prefix two_commit_world fresh_state))
                  (snd (run two_commit_world fresh_state))
                  [("abc", 7%Z); ("def", 9%Z)] _ ltac:(vm_compute; reflexivity) Hrun)).
Defined.

Lemma write_graphs_probed (w : World) (time_now most_recent_commit major : Z) (st : State)
    (k : Z -> M unit) :
  probe_ok w st major ->
  (log (Printed (plotting_message time_now));;
   result ← subprocess_run_checked w GNUPLOT_VERSION;
   match split_whitespace (stdout result) with
   | [] => raise IndexError
   | first :: rest =>
       py_assert (String.eqb first "gnuplot");;
       match rest with
       | [] => raise IndexError
       | second :: _ =>
           match int_of_str (hd EmptyString (Py.split "." second)) with
           | None => raise ValueError
           | Some major => k major
           end
       end
   end) st = k major (probed time_now st).
Proof.
  intros (out & second & rest & Hgit & Hsplit & Hint).
  rewrite bind_run. unfold log at 1. cbv beta iota.
  rewrite bind_run, run_checked_run. cbn [head]. rewrite Hgit. cbn [returncode stdout Z.eqb].
  cbv beta iota. rewrite Hsplit. cbn [String.eqb Ascii.eqb Bool.eqb andb py_assert].
  rewrite bind_run. unfold mret at 1, M_ret. cbv beta iota. now rewrite Hint.
Qed.

(** X6: with a well-formed answer to the version probe, a newest commit that
    is 31 days old or older makes [write_graphs] raise AssertionError after
    printing the warning about the week and the error about the month; the
    plotting command is never run. *)
Theorem stale_history_stops_before_gnuplot
    (w : World) (time_now most_recent_commit major : Z) (st : State) :
  probe_ok w st major ->
  (most_recent_commit <= time_now - 3600 * 24 * 31)%Z ->
  write_graphs w time_now most_recent_commit st
  = (Raise AssertionError,
     push (Printed (month_error time_now (time_now - 3600 * 24 * 31) most_recent_commit))
       (push (Printed (week_warning time_now (time_now - 3600 * 24 * 7) most_recent_commit))
          (probed time_now st))).
Proof.
  intros Hprobe Hstale. unfold write_graphs. cbv zeta.
  rewrite (write_graphs_probed w time_now most_recent_commit major st _ Hprobe).
  assert ((time_now - 3600 * 24 * 7 <? most_recent_commit)%Z = false) as -> by lia.
  assert ((time_now - 3600 * 24 * 31 <? most_recent_commit)%Z = false) as -> by lia.
  reflexivity.
Qed.

(** X7: with a well-formed answer to the version probe and a newest commit
    less than 31 days old, [write_graphs] always reaches the plotting command:
    the test on the last year cannot fail, the script holds the month and the
    year plots, the week plots exactly when the newest commit is less than
    seven days old (a warning is printed otherwise), every range bound is
    lowered by 946684800 exactly when the major version is below 5, and the
    outcome is that of the command. *)
Theorem recent_history_is_plotted
    (w : World) (time_now most_recent_commit major : Z) (st : State) :
  probe_ok w st major ->
  (time_now - 3600 * 24 * 31 < most_recent_commit)%Z ->
  write_graphs w time_now most_recent_commit st
  = (if (returncode (git w (PLOT time_now most_recent_commit major) (head st)) =? 0)%Z
     then Return tt else Raise CalledProcessError,
     push (Ran (PLOT time_now most_recent_commit major)) (warned time_now most_recent_commit st)).
Proof.
  intros Hprobe Hfresh. unfold PLOT, warned, week_is_fresh, write_graphs. cbv zeta.
  rewrite (write_graphs_probed w time_now most_recent_commit major st _ Hprobe).
  assert ((time_now - 3600 * 24 * 31 <? most_recent_commit)%Z = true) as -> by lia.
  assert ((time_now - 3600 * 24 * 366 <? most_recent_commit)%Z = true) as -> by lia.
  fold (epoch_offset major).
  destruct (time_now - 3600 * 24 * 7 <? most_recent_commit)%Z.
  - unfold mbind, M_bind, mret, M_ret. cbv beta iota.
    rewrite run_checked_run. cbn [head probed push].
    change (EmptyString +:+ ?x) with x.
    destruct (_ =? 0)%Z; reflexivity.
  - unfold mbind, M_bind, mret, M_ret, log. cbv beta iota.
    rewrite run_checked_run. cbn [head probed push].
    change (EmptyString +:+ ?x) with x.
    destruct (_ =? 0)%Z; reflexivity.
Qed.

(** X8: when the version probe fails, or the first word of its output is not
    "gnuplot", [write_graphs] stops right after the probe: CalledProcessError
    for a failing probe, IndexError for an output without any word,
    AssertionError for another first word. *)
Theorem bad_version_answer_stops_the_plots
    (w : World) (time_now most_recent_commit : Z) (st : State) :
  returncode (version_answer w st) <> 0%Z
  \/ hd_error (split_whitespace (stdout (version_answer w st))) <> Some "gnuplot" ->
  snd (write_graphs w time_now most_recent_commit st) = probed time_now st
  /\ fst (write_graphs w time_now most_recent_commit st)
     = (if negb (returncode (version_answer w st) =? 0)%Z then Raise CalledProcessError
        else match split_whitespace (stdout (version_answer w st)) with
             | [] => Raise IndexError
             | _ :: _ => Raise AssertionError
             end).
Proof.
  unfold version_answer. intros Hbad.
  enough (write_graphs w time_now most_recent_commit st
          = (if negb (returncode (git w GNUPLOT_VERSION (head st)) =? 0)%Z
             then Raise CalledProcessError
             else match split_whitespace (stdout (git w GNUPLOT_VERSION (head st))) with
                  | [] => Raise IndexError
                  | _ :: _ => Raise AssertionError
                  end, probed time_now st)) as -> by (split; reflexivity).
  unfold write_graphs. cbv zeta.
  rewrite bind_run. unfold log at 1. cbv beta iota.
  rewrite bind_run, run_checked_run. cbn [head].
  destruct (returncode (git w GNUPLOT_VERSION (head st)) =? 0)%Z eqn:Hrc; cbn [negb].
  - destruct Hbad as [Hbad|Hbad]; [lia|]. cbv beta iota.
    destruct (split_whitespace (stdout (git w GNUPLOT_VERSION (head st)))) as [|first rest] eqn:Hs.
    + reflexivity.
    + cbn [hd_error] in Hbad.
      destruct (String.eqb first "gnuplot") eqn:Hf.
      * apply String.eqb_eq in Hf. congruence.
      * reflexivity.
  - reflexivity.
Qed.

Lemma probe_ok_gnuplot_world (st : State) :
  probe_ok (gnuplot_world ("gnuplot 4.6 patchlevel 0" +:+ Json.nl)) st 4.
Proof.
  exists ("gnuplot 4.6 patchlevel 0" +:+ Json.nl), "4.6", ["patchlevel"; "0"].
  repeat split; vm_compute; reflexivity.
Qed.

Lemma stale_history_stops_before_gnuplot_witness :
  write_graphs (gnuplot_world ("gnuplot 4.6 patchlevel 0" +:+ Json.nl)) 1000000000 900000000
               fresh_state
  = (Raise AssertionError,
     push (Printed (month_error 1000000000 (1000000000 - 3600 * 24 * 31) 900000000))
       (push (Printed (week_warning 1000000000 (1000000000 - 3600 * 24 * 7) 900000000))
          (probed 1000000000 fresh_state))).
Proof.
  apply (stale_history_stops_before_gnuplot
           (gnuplot_world ("gnuplot 4.6 patchlevel 0" +:+ Json.nl)) 1000000000 900000000 4
           fresh_state).
  - apply probe_ok_gnuplot_world.
  - vm_compute. discriminate.
Defined.

Lemma recent_history_is_plotted_witness :
  write_graphs (gnuplot_world ("gnuplot 4.6 patchlevel 0" +:+ Json.nl)) 1000000000 999000000
               fresh_state
  = (Return tt,
     push (Ran (PLOT 1000000000 999000000 4)) (warned 1000000000 999000000 fresh_state)).
Proof.
  apply (recent_history_is_plotted
           (gnuplot_world ("gnuplot 4.6 patchlevel 0" +:+ Json.nl)) 1000000000 999000000 4
           fresh_state).
  - apply probe_ok_gnuplot_world.
  - vm_compute. reflexivity.
Defined.

Lemma bad_version_answer_stops_the_plots_witness :
  snd (write_graphs (gnuplot_world "GNU Plot 5") 1000000000 999000000 fresh_state)
  = probed 1000000000 fresh_state
  /\ fst (write_graphs (gnuplot_world "GNU Plot 5") 1000000000 999000000 fresh_state)
     = Raise AssertionError.
Proof.
  apply (bad_version_answer_stops_the_plots (gnuplot_world "GNU Plot 5") 1000000000 999000000
           fresh_state).
  right. vm_compute. discriminate.
Defined.

(** ** The counts the walk leaves in the tree *)

Lemma first_named_name (seg : string) (cs : list Node) (c : Node) :
  first_named seg cs = Some c -> name c = seg.
Proof.
  induction cs as [|c' cs IH]; [discriminate|]. cbn [first_named].
  destruct (String.eqb_spec (name c') seg) as [E|E]; [|exact IH].
  now intros [= <-].
Qed.

Lemma get_node_from_fresh (r : list string) (node : Node) :
  r <> [] -> allowed r = true -> find_node r node = None ->
  find_node r (snd (get_node_from r node)) = Some (new_node (List.last r EmptyString)).
Proof.
  revert node. induction r as [|seg rest IH]; intros node Hne Ha Hnone; [contradiction|].
  cbn [allowed forallb] in Ha. apply andb_true_iff in Ha as [Hseg Ha].
  apply negb_true_iff in Hseg.
  rewrite get_node_from_cons, Hseg.
  destruct (descend seg (get_node_from rest) (children node)) as [found cs] eqn:Hd.
  cbn [snd]. rewrite find_node_cons. cbn [children with_children].
  assert (Hcs : cs = snd (descend seg (get_node_from rest) (children node))) by now rewrite Hd.
  rewrite Hcs, first_named_descend_same by (intros c; apply get_node_from_name).
  rewrite find_node_cons in Hnone. unfold child_or_new.
  destruct rest as [|x rest'].
  - destruct (first_named seg (children node)); [discriminate|]. reflexivity.
  - change (List.last (seg :: x :: rest') EmptyString) with (List.last (x :: rest') EmptyString).
    apply IH; [discriminate|exact Ha|].
    destruct (first_named seg (children node)); [exact Hnone|reflexivity].
Qed.

Lemma last_snoc (P : list string) (x d : string) : List.last (P ++ [x]) d = x.
Proof. apply last_last. Qed.

Section OneFile.
Variables (top : string) (P : list string).
Hypothesis Htop : walk_top top P.

Lemma scan_file_leaf (st : WalkState) (f : string * FileText) :
  valid_name f.1 = true -> allowed (P ++ [f.1]) = true ->
  find_node (P ++ [f.1]) (fst st) = None ->
  find_node (P ++ [f.1]) (fst (scan_file top st f)) = expected_leaf (path_join top f.1) f.
Proof.
  intros Hv Ha Hnone. destruct st as [flamegraph ratios_list], f as [file_name text].
  cbn [fst snd] in *. unfold scan_file, expected_leaf. cbn [fst snd].
  destruct (has_extension file_name); cbn [negb andb]; [|exact Hnone].
  destruct (bool_decide (path_join top file_name ∈ SKIPPED_FIXTURES)); cbn [negb]; [exact Hnone|].
  unfold get_node. rewrite (walk_top_segments top P file_name Htop Hv).
  pose proof (get_node_from_found (P ++ [file_name]) flamegraph) as Hfound.
  pose proof (get_node_from_fresh (P ++ [file_name]) flamegraph) as Hfresh.
  rewrite last_snoc in Hfresh.
  destruct (get_node_from (P ++ [file_name]) flamegraph) as [found made].
  cbn [fst snd] in *. fold (allowed (P ++ [file_name])) in Hfound. rewrite Ha in Hfound.
  subst found. cbn [negb].
  assert (Hmade : find_node (P ++ [file_name]) made = Some (new_node file_name)).
  { apply Hfresh; [now destruct P|exact Ha|exact Hnone]. }
  destruct text as [lines|]; cbn [leaf_counts].
  - destruct (scan_lines lines) as [t l]. cbn [fst snd].
    assert (Hup : find_node (P ++ [file_name])
                    (update_node (P ++ [file_name]) (set_counts t l) made)
                  = Some (mkNode file_name [] t l)).
    { rewrite find_node_update_node_same by apply keeps_shape_set_counts.
      now rewrite Hmade. }
    destruct (Py.truthy_nat t && Py.truthy_nat l); exact Hup.
  - exact Hmade.
Qed.

Lemma files_leaf (files : list (string * FileText)) (st : WalkState) (f : string * FileText) :
  Forall (fun g => valid_name g.1 = true) files ->
  distinct (map fst files) = true -> In f files -> allowed (P ++ [f.1]) = true ->
  find_node (P ++ [f.1]) (fst st) = None ->
  find_node (P ++ [f.1]) (fst (fold_left (scan_file top) files st))
  = expected_leaf (path_join top f.1) f.
Proof.
  revert st. induction files as [|g files IH]; intros st Hv Hd Hin Ha Hnone; [destruct Hin|].
  apply Forall_cons in Hv as [Hvg Hv]. cbn [map distinct] in Hd.
  apply andb_true_iff in Hd as [Hng Hd]. apply negb_true_iff in Hng.
  cbn [fold_left]. destruct Hin as [->|Hin].
  - rewrite fold_frame; [now apply scan_file_leaf|].
    intros st' g Hg. apply scan_file_frame.
    rewrite List.Forall_forall in Hv. rewrite (walk_top_segments top P _ Htop) by now apply Hv.
    rewrite is_prefix_app. cbn.
    destruct (String.eqb_spec f.1 g.1) as [E|]; [|reflexivity].
    exfalso. apply (existsb_eqb_false f.1 g.1 (map fst files) Hng); [|now symmetry].
    now apply in_map.
  - apply IH; try assumption.
    rewrite scan_file_frame; [exact Hnone|].
    rewrite (walk_top_segments top P _ Htop) by exact Hvg.
    rewrite is_prefix_app. cbn.
    destruct (String.eqb_spec f.1 g.1) as [E|]; [|reflexivity].
    exfalso. apply (existsb_eqb_false g.1 f.1 (map fst files) Hng); [|exact E].
    now apply in_map.
Qed.

End OneFile.

Lemma distinct_entries (es : list FsEntry) (e1 e2 : FsEntry) :
  distinct (map entry_name es) = true -> In e1 es -> In e2 es ->
  entry_name e1 = entry_name e2 -> e1 = e2.
Proof.
  induction es as [|e es IH]; [intros _ []|].
  cbn [map distinct]. intros H. apply andb_true_iff in H as [Hx Hd].
  apply negb_true_iff in Hx.
  intros [<-|H1] [<-|H2] Hn; [reflexivity| | |now apply IH].
  - exfalso. apply (existsb_eqb_false _ (entry_name e2) _ Hx); [now apply in_map|now symmetry].
  - exfalso. apply (existsb_eqb_false _ (entry_name e1) _ Hx); [now apply in_map|exact Hn].
Qed.

Lemma distinct_file_names (es : list FsEntry) :
  distinct (map entry_name es) = true -> distinct (map fst (file_entries es)) = true.
Proof.
  induction es as [|e es IH]; [reflexivity|].
  cbn [map distinct]. intros H. apply andb_true_iff in H as [Hx Hd].
  specialize (IH Hd). destruct e as [n t|n sub]; [|exact IH].
  change (file_entries (FsFile n t :: es)) with ((n, t) :: file_entries es).
  cbn [map fst distinct entry_name] in *. rewrite IH, andb_true_r.
  apply negb_true_iff in Hx. apply negb_true_iff.
  destruct (existsb (String.eqb n) (map fst (file_entries es))) eqn:E; [|reflexivity].
  apply existsb_exists in E as (m & Hm & Hnm). apply String.eqb_eq in Hnm as <-.
  apply in_map_iff in Hm as (g & Hg & Hin). apply In_file_entries in Hin.
  exfalso. apply (existsb_eqb_false n n (map entry_name es) Hx); [|reflexivity].
  apply in_map_iff. exists (FsFile g.1 g.2). split; [exact Hg|exact Hin].
Qed.

Lemma file_entries_In (f : string * FileText) (es : list FsEntry) :
  In (FsFile f.1 f.2) es -> In f (file_entries es).
Proof.
  intros H. unfold file_entries. apply list_elem_of_In, list_elem_of_omap.
  exists (FsFile f.1 f.2). split; [now apply list_elem_of_In|now destruct f].
Qed.

Lemma walked_well_each (es : list FsEntry) : Forall walked_well es.
Proof. apply List.Forall_forall. intros e _. apply walked_well_all. Qed.

Lemma subwalks_leaf (top : string) (P : list string) (es : list FsEntry) (st : WalkState)
    (seg : string) (rest : list string) (sub : list FsEntry) (f : string * FileText) :
  Forall leafed es -> forallb wf_entry es = true -> distinct (map entry_name es) = true ->
  walk_top top P ->
  In (FsDir seg sub) es -> entry_at rest (FsFile f.1 f.2) sub ->
  allowed (P ++ seg :: rest ++ [f.1]) = true ->
  find_node (P ++ seg :: rest ++ [f.1]) (fst st) = None ->
  find_node (P ++ seg :: rest ++ [f.1])
            (fst (fold_left walk_step (flat_map (sub_walk top) es) st))
  = expected_leaf (render (P ++ seg :: rest ++ [f.1])) f.
Proof.
  intros HL. revert st. induction HL as [|e es He HLs IH]; intros st Hwf Hd HT Hin Hf Ha Hnone;
    [destruct Hin|].
  cbn [forallb] in Hwf. apply andb_true_iff in Hwf as [Hwe Hwf].
  pose proof Hd as Hd0.
  cbn [map distinct] in Hd. apply andb_true_iff in Hd as [Hne Hd]. apply negb_true_iff in Hne.
  cbn [flat_map]. rewrite fold_left_app.
  destruct Hin as [->|Hin].
  - apply wf_entry_dir in Hwe as [Hv Hwe]. cbn [sub_walk].
    rewrite (subwalks_frame top P); [|apply walked_well_each|exact Hwf|exact HT|].
    + pose proof (He (path_join top seg) (P ++ [seg])%list st rest f Hwe
                     (walk_top_join top P seg HT Hv) Hf) as H.
      rewrite <- !(List.app_assoc P [seg]) in H. cbn [app] in H. now apply H.
    + intros n' Hn'. rewrite !is_prefix_app. split.
      * apply is_prefix_longer. cbn [length]. rewrite ?length_app. cbn [length]. lia.
      * cbn. destruct (String.eqb_spec n' seg) as [->|]; [|reflexivity].
        exfalso. apply (existsb_eqb_false seg seg (map entry_name es) Hne); [|reflexivity].
        apply In_dir_names in Hn' as (sub' & Hs). apply in_map_iff. now exists (FsDir seg sub').
  - apply IH; try assumption.
    destruct e as [m t|m sub']; [exact Hnone|]. cbn [sub_walk].
    apply wf_entry_dir in Hwe as [Hv Hwe].
    destruct (walked_well_all (FsDir m sub') (path_join top m) (P ++ [m])%list st Hwe
                (walk_top_join top P m HT Hv)) as [HF _].
    rewrite HF; [exact Hnone| |].
    + rewrite is_prefix_app. apply is_prefix_longer. cbn [length]. rewrite ?length_app. cbn [length]. lia.
    + rewrite is_prefix_app. cbn.
      destruct (String.eqb_spec m seg) as [->|]; [|reflexivity].
      exfalso. apply (existsb_eqb_false seg seg (map entry_name es) Hne); [|reflexivity].
      apply in_map_iff. now exists (FsDir seg sub).
Qed.

Lemma leafed_all (e : FsEntry) : leafed e.
Proof.
  induction e as [n t|nm es IH] using FsEntry_forall_ind; intros top P st Q f Hwf HT Hf Ha Hnone.
  - destruct Q as [|seg rest]; [destruct Hf|destruct Hf as (sub & [] & _)].
  - cbn [entries_of] in Hwf, Hf. pose proof Hwf as Hwf0.
    unfold wf_tree in Hwf. apply andb_true_iff in Hwf as [Hd Hes].
    rewrite walk_dir_unfold, fold_left_app. cbn [fold_left].
    assert (Hvd : Forall (fun d => valid_name d = true) (dir_names es)).
    { apply List.Forall_forall. intros d Hin. apply In_dir_names in Hin as (sub & Hs).
      now destruct (wf_entries_valid es _ Hes Hs). }
    assert (Hvf : Forall (fun f => valid_name f.1 = true) (file_entries es)).
    { apply List.Forall_forall. intros g Hin. apply In_file_entries in Hin.
      now destruct (wf_entries_valid es _ Hes Hin). }
    destruct Q as [|seg rest].
    + cbn [app entry_at] in *.
      assert (Hother : forall d, In d (dir_names es) -> d <> f.1).
      { intros d Hin ->. apply In_dir_names in Hin as (sub & Hs).
        now pose proof (distinct_entries es _ _ Hd Hs Hf eq_refl). }
      unfold walk_step. rewrite fold_frame.
      * destruct (walk_top_join top P f.1 HT) as [<- _].
        { now destruct (wf_entries_valid es _ Hes Hf). }
        apply (files_leaf top P HT); try assumption.
        -- now apply distinct_file_names.
        -- now apply file_entries_In.
        -- rewrite (subwalks_frame top P); [exact Hnone|apply walked_well_each|exact Hes|exact HT|].
           intros n Hn. rewrite !is_prefix_app. cbn.
           destruct (String.eqb_spec f.1 n) as [E|]; [now destruct (Hother n Hn)|].
           destruct (String.eqb_spec n f.1) as [E|]; [now destruct (Hother n Hn)|].
           now split.
      * intros st' d Hin. apply sum_dir_frame.
        rewrite List.Forall_forall in Hvd. rewrite (walk_top_segments top P _ HT) by now apply Hvd.
        rewrite is_prefix_app. cbn.
        destruct (String.eqb_spec f.1 d) as [E|]; [now destruct (Hother d Hin)|reflexivity].
    + cbn [entry_at] in Hf. destruct Hf as (sub & Hin & Hf).
      change (P ++ (seg :: rest) ++ [f.1])%list with (P ++ seg :: rest ++ [f.1])%list in *.
      rewrite (item_frame top P HT); try assumption.
      * now apply (subwalks_leaf top P es st seg rest sub f).
      * intros y. rewrite is_prefix_app. apply is_prefix_longer.
        cbn [length]. rewrite ?length_app. cbn [length]. lia.
Qed.

(** X9: in a well-formed work tree, a file on whose path no excluded name
    lies has, once the walk is over, exactly the node the scan of that one
    file makes: a leaf named after the file, without children, holding the
    two counts of its lines (both 0 when the text does not decode), when the
    name has a configured extension and the full name is not a skipped
    fixture; and no node at all otherwise.  Nothing that runs later touches
    it. *)
Theorem every_file_has_its_own_leaf (tree : list FsEntry) (Q : list string)
    (file_name : string) (text : FileText) :
  wf_tree tree = true -> entry_at Q (FsFile file_name text) tree ->
  allowed (Q ++ [file_name]) = true ->
  find_node (Q ++ [file_name]) (fst (build_flamegraph tree))
  = expected_leaf (render (Q ++ [file_name])) (file_name, text).
Proof.
  intros Hwf Hf Ha.
  apply (leafed_all (FsDir "." tree) "." [] (new_node ".", []) Q (file_name, text) Hwf
           walk_top_root Hf Ha).
  now destruct Q.
Qed.

Lemma every_file_has_its_own_leaf_witness :
  find_node ["Kernel"; "Arch"; "cpu.cpp"] (fst (build_flamegraph nested_fs))
  = Some (mkNode "cpu.cpp" [] 2 2).
Proof.
  apply (every_file_has_its_own_leaf nested_fs ["Kernel"; "Arch"] "cpu.cpp"
           (Lines ["// FIXME: one"; "int a;"; "int b; // TODO"])).
  - reflexivity.
  - eexists. split; [left; reflexivity|]. eexists. split; [left; reflexivity|].
    left. reflexivity.
  - reflexivity.
Defined.

Lemma all_nodes_here (phi : Node -> Prop) (node : Node) : all_nodes phi node -> phi node.
Proof. now intros []. Qed.

Lemma all_nodes_below (phi : Node -> Prop) (node : Node) :
  all_nodes phi node -> Forall (all_nodes phi) (children node).
Proof. now intros []. Qed.

Lemma all_nodes_new_node (file_name : string) : all_nodes tidy (new_node file_name).
Proof. constructor; [split; constructor|constructor]. Qed.

Lemma descend_names (seg : string) (enter : Node -> bool * Node) (cs : list Node) :
  (forall c, name (snd (enter c)) = name c) ->
  map name (snd (descend seg enter cs))
  = (map name cs ++ match first_named seg cs with Some _ => [] | None => [seg] end)%list.
Proof.
  intros He. induction cs as [|c cs IH].
  - cbn [descend]. specialize (He (new_node seg)). destruct (enter (new_node seg)) as [found made].
    cbn in *. now rewrite He.
  - cbn [descend first_named]. destruct (String.eqb (name c) seg).
    + specialize (He c). destruct (enter c) as [found c']. cbn in *.
      now rewrite He, app_nil_r.
    + destruct (descend seg enter cs) as [found cs']. cbn in *. now rewrite IH.
Qed.

Lemma first_named_none (seg : string) (cs : list Node) :
  first_named seg cs = None -> ~ In seg (map name cs).
Proof.
  induction cs as [|c cs IH]; [intros _ []|]. cbn [first_named map].
  destruct (String.eqb_spec (name c) seg) as [E|E]; [discriminate|].
  intros H [H1|H1]; [contradiction|now apply IH].
Qed.

Lemma descend_all (phi : Node -> Prop) (seg : string) (enter : Node -> bool * Node)
    (cs : list Node) :
  (forall c, all_nodes phi c -> all_nodes phi (snd (enter c))) ->
  all_nodes phi (new_node seg) ->
  Forall (all_nodes phi) cs -> Forall (all_nodes phi) (snd (descend seg enter cs)).
Proof.
  intros He Hnew. induction 1 as [|c cs Hc Hcs IH].
  - cbn [descend]. specialize (He _ Hnew). destruct (enter (new_node seg)). cbn in *.
    now constructor.
  - cbn [descend]. destruct (String.eqb (name c) seg).
    + specialize (He _ Hc). destruct (enter c). cbn in *. now constructor.
    + destruct (descend seg enter cs). cbn in *. now constructor.
Qed.

Lemma get_node_from_tidy (segments : list string) (node : Node) :
  all_nodes tidy node -> all_nodes tidy (snd (get_node_from segments node)).
Proof.
  revert node. induction segments as [|seg rest IH]; intros node Hn; [exact Hn|].
  rewrite get_node_from_cons. destruct (excluded_segment seg) eqn:Hseg; [exact Hn|].
  pose proof (descend_names seg (get_node_from rest) (children node) (get_node_from_name rest))
    as Hnames.
  pose proof (descend_all tidy seg (get_node_from rest) (children node) IH
                (all_nodes_new_node seg) (all_nodes_below _ _ Hn)) as Hall.
  destruct (descend seg (get_node_from rest) (children node)) as [found cs]. cbn [snd] in *.
  destruct (all_nodes_here _ _ Hn) as [Hdup Hex].
  constructor; [split|]; cbn [children with_children]; [| |exact Hall].
  - rewrite Hnames. destruct (first_named seg (children node)) eqn:Hf.
    + now rewrite app_nil_r.
    + apply NoDup_app. split; [exact Hdup|]. split; [|apply NoDup_singleton].
      intros x Hx Hx'. apply list_elem_of_In in Hx, Hx'. destruct Hx' as [<-|[]].
      now apply (first_named_none seg (children node)).
  - apply List.Forall_forall. intros c Hc.
    assert (Hin : In (name c) (map name cs)) by now apply in_map.
    rewrite Hnames in Hin. apply in_app_or in Hin as [Hin|Hin].
    + apply in_map_iff in Hin as (c0 & Hc0 & Hin). rewrite <- Hc0.
      rewrite List.Forall_forall in Hex. now apply Hex.
    + destruct (first_named seg (children node)); [destruct Hin|].
      destruct Hin as [<-|[]]. exact Hseg.
Qed.

Lemma replace_first_names (seg : string) (g : Node -> Node) (cs : list Node) :
  (forall c, name (g c) = name c) -> map name (replace_first seg g cs) = map name cs.
Proof.
  intros Hg. induction cs as [|c cs IH]; [reflexivity|]. cbn [replace_first].
  destruct (String.eqb (name c) seg); cbn [map]; [now rewrite Hg|now rewrite IH].
Qed.

Lemma replace_first_all (phi : Node -> Prop) (seg : string) (g : Node -> Node) (cs : list Node) :
  (forall c, all_nodes phi c -> all_nodes phi (g c)) ->
  Forall (all_nodes phi) cs -> Forall (all_nodes phi) (replace_first seg g cs).
Proof.
  intros Hg. induction 1 as [|c cs Hc Hcs IH]; [constructor|]. cbn [replace_first].
  destruct (String.eqb (name c) seg); constructor; auto.
Qed.

Lemma update_node_tidy (segments : list string) (f : Node -> Node) (node : Node) :
  keeps_shape f -> all_nodes tidy node -> all_nodes tidy (update_node segments f node).
Proof.
  intros Hf. revert node. induction segments as [|seg rest IH]; intros node Hn.
  - cbn [update_node]. destruct (Hf node) as [Hname Hch]. destruct Hn as [node [Hdup Hex] Hbelow].
    constructor; [split|]; rewrite Hch; assumption.
  - rewrite update_node_cons. destruct Hn as [node [Hdup Hex] Hbelow].
    assert (Hnm : forall c, name (update_node rest f c) = name c)
      by (intros c; now apply update_node_name).
    constructor; [split|]; cbn [children with_children].
    + now rewrite replace_first_names.
    + apply List.Forall_forall. intros c Hc.
      assert (Hin : In (name c) (map name (replace_first seg (update_node rest f) (children node))))
        by now apply in_map.
      rewrite replace_first_names in Hin by exact Hnm.
      apply in_map_iff in Hin as (c0 & <- & Hin).
      rewrite List.Forall_forall in Hex. now apply Hex.
    + now apply replace_first_all.
Qed.

Lemma scan_file_tidy (root : string) (st : WalkState) (file : string * FileText) :
  all_nodes tidy (fst st) -> all_nodes tidy (fst (scan_file root st file)).
Proof.
  destruct st as [flamegraph ratios_list], file as [file_name text]. cbn [fst]. intros Ht.
  unfold scan_file.
  destruct (has_extension file_name); cbn [negb]; [|exact Ht].
  destruct (bool_decide _); [exact Ht|]. unfold get_node.
  pose proof (get_node_from_tidy (path_segments (path_join root file_name)) flamegraph Ht) as Hg.
  destruct (get_node_from _ flamegraph) as [found made]. cbn [snd] in Hg.
  destruct found; cbn [negb]; [|exact Hg].
  destruct text as [lines|]; [|exact Hg].
  destruct (scan_lines lines) as [t l].
  pose proof (update_node_tidy (path_segments (path_join root file_name)) (set_counts t l) made
                (keeps_shape_set_counts t l) Hg) as Hu.
  destruct (Py.truthy_nat t && Py.truthy_nat l); exact Hu.
Qed.

Lemma sum_dir_tidy (root : string) (st : WalkState) (dir_name : string) :
  all_nodes tidy (fst st) -> all_nodes tidy (fst (sum_dir root st dir_name)).
Proof.
  destruct st as [flamegraph ratios_list]. cbn [fst]. intros Ht. unfold sum_dir, get_node.
  pose proof (get_node_from_tidy (path_segments (path_join root dir_name)) flamegraph Ht) as Hg.
  destruct (get_node_from _ flamegraph) as [found made]. cbn [snd] in Hg.
  destruct found; cbn [negb fst]; [|exact Hg].
  now apply update_node_tidy; [apply keeps_shape_aggregate|].
Qed.

Lemma fold_tidy {A} (step : WalkState -> A -> WalkState) (l : list A) (st : WalkState) :
  (forall st a, all_nodes tidy (fst st) -> all_nodes tidy (fst (step st a))) ->
  all_nodes tidy (fst st) -> all_nodes tidy (fst (fold_left step l st)).
Proof.
  intros Hstep. revert st. induction l as [|a l IH]; intros st Hst; [exact Hst|].
  cbn [fold_left]. apply IH. now apply Hstep.
Qed.

Lemma walk_step_tidy (st : WalkState) (item : WalkItem) :
  all_nodes tidy (fst st) -> all_nodes tidy (fst (walk_step st item)).
Proof.
  destruct item as [[root dirs] files]. intros Hst. unfold walk_step.
  apply fold_tidy; [intros; now apply sum_dir_tidy|].
  apply fold_tidy; [intros; now apply scan_file_tidy|exact Hst].
Qed.

(** X10: whatever the work tree holds, in the tree the walk builds no two
    children of a node bear the same name, and no node below the root is
    called ".git" or ".devcontainer". *)
Theorem no_excluded_name_and_no_twin_in_the_tree (tree : list FsEntry) :
  all_nodes tidy (fst (build_flamegraph tree)).
Proof.
  unfold build_flamegraph. apply fold_tidy; [intros; now apply walk_step_tidy|].
  apply all_nodes_new_node.
Qed.

Lemma sum_list_acc (l : list nat) (a : nat) : fold_left Nat.add l a = a + sum_list l.
Proof.
  unfold sum_list. revert a. induction l as [|x l IH]; intros a; cbn [fold_left]; [lia|].
  rewrite (IH (a + x)), (IH (0 + x)). lia.
Qed.

Lemma sum_list_cons (x : nat) (l : list nat) : sum_list (x :: l) = x + sum_list l.
Proof. unfold sum_list at 1. cbn [fold_left]. now rewrite sum_list_acc. Qed.

Lemma sum_list_app (l r : list nat) : sum_list (l ++ r) = sum_list l + sum_list r.
Proof.
  induction l as [|x l IH]; [reflexivity|]. cbn [app]. rewrite !sum_list_cons, IH. lia.
Qed.

(** Two lists of different names give the same sum when the names of only
    one of them count for nothing. *)
Lemma sum_over_names (g : string -> nat) (L1 L2 : list string) :
  List.NoDup L1 -> List.NoDup L2 ->
  (forall x, In x L1 -> ~ In x L2 -> g x = 0) ->
  (forall x, In x L2 -> ~ In x L1 -> g x = 0) ->
  sum_list (map g L1) = sum_list (map g L2).
Proof.
  intros H1. revert L2. induction H1 as [|a L1 Ha H1 IH]; intros L2 H2 H12 H21.
  - cbn [map]. induction L2 as [|b L2 IHL]; [reflexivity|].
    cbn [map]. rewrite sum_list_cons, (H21 b) by (cbn; tauto).
    apply List.NoDup_cons_iff in H2 as [_ H2]. apply IHL; [exact H2|intros x []|].
    intros x Hx _. apply H21; cbn; tauto.
  - cbn [map]. rewrite sum_list_cons.
    destruct (in_dec string_dec a L2) as [Hin|Hout].
    + apply in_split in Hin as (l & r & ->).
      apply List.NoDup_remove in H2 as [H2 Hnot].
      rewrite map_app, sum_list_app. cbn [map]. rewrite sum_list_cons.
      rewrite (IH (l ++ r)%list H2).
      * rewrite map_app, sum_list_app. lia.
      * intros x Hx Hx'. apply H12; [now right|].
        intros Hin. apply in_app_or in Hin as [Hin|[->|Hin]]; [|contradiction|];
          apply Hx', in_or_app; tauto.
      * intros x Hx Hx'. apply H21.
        -- apply in_app_or in Hx as [Hx|Hx]; apply in_or_app; cbn; tauto.
        -- intros [->|Hin]; [contradiction|contradiction].
    + rewrite (H12 a) by (cbn; tauto). cbn [Nat.add].
      apply IH; [exact H2| |].
      * intros x Hx Hx'. apply H12; [now right|exact Hx'].
      * intros x Hx Hx'. apply H21; [exact Hx|].
        intros [->|Hin]; contradiction.
Qed.

(** Over a list whose keys differ, the values are those of the first item
    under each key. *)
Lemma values_by_key {A} (key : A -> string) (val : A -> nat) (l : list A) :
  List.NoDup (map key l) ->
  map val l
  = map (fun x => match List.find (fun a => String.eqb (key a) x) l with
                  | Some a => val a
                  | None => 0
                  end) (map key l).
Proof.
  induction l as [|a l IH]; [reflexivity|].
  cbn [map]. intros H. apply List.NoDup_cons_iff in H as [Ha H].
  cbn [List.find]. rewrite String.eqb_refl. f_equal.
  rewrite (IH H). rewrite !map_map. apply map_ext_in. intros b Hb.
  destruct (String.eqb_spec (key a) (key b)) as [E|E]; [|reflexivity].
  exfalso. apply Ha. rewrite E. now apply in_map.
Qed.

Lemma first_named_find (seg : string) (cs : list Node) :
  first_named seg cs = List.find (fun c => String.eqb (name c) seg) cs.
Proof.
  induction cs as [|c cs IH]; [reflexivity|]. cbn [first_named List.find]. now rewrite IH.
Qed.

Lemma distinct_NoDup (l : list string) : distinct l = true -> List.NoDup l.
Proof.
  induction l as [|x l IH]; [constructor|]. cbn [distinct]. intros H.
  apply andb_true_iff in H as [Hx Hd]. apply negb_true_iff in Hx.
  constructor; [|now apply IH].
  intros Hin. now apply (existsb_eqb_false x x l Hx).
Qed.

Lemma find_node_app (p q : list string) (node : Node) :
  find_node (p ++ q) node = find_node p node ≫= find_node q.
Proof.
  revert node. induction p as [|seg p IH]; intros node; [reflexivity|].
  cbn [app]. rewrite !find_node_cons.
  destruct (first_named seg (children node)) as [c|]; [apply IH|reflexivity].
Qed.

Lemma find_node_tidy (p : list string) (node n : Node) :
  all_nodes tidy node -> find_node p node = Some n -> all_nodes tidy n.
Proof.
  revert node. induction p as [|seg p IH]; intros node Ht; [now intros [= <-]|].
  rewrite find_node_cons. destruct (first_named seg (children node)) as [c|] eqn:Hc; [|discriminate].
  apply IH. apply all_nodes_below in Ht. rewrite List.Forall_forall in Ht. apply Ht.
  rewrite first_named_find in Hc. now apply find_some in Hc as [Hin _].
Qed.

Lemma find_node_excluded (p : list string) (x : string) (node : Node) :
  all_nodes tidy node -> excluded_segment x = true -> find_node (p ++ [x]) node = None.
Proof.
  intros Ht Hx. rewrite find_node_app.
  destruct (find_node p node) as [n|] eqn:Hn; [|reflexivity].
  change (find_node [x] n = None). rewrite find_node_cons. destruct (first_named x (children n)) as [c|] eqn:Hc; [|reflexivity].
  exfalso. apply (find_node_tidy p node n Ht) in Hn.
  destruct (all_nodes_here _ _ Hn) as [_ Hex]. rewrite List.Forall_forall in Hex.
  rewrite first_named_find in Hc. apply find_some in Hc as [Hin Hname].
  apply String.eqb_eq in Hname. specialize (Hex c Hin). congruence.
Qed.

Lemma excluded_has_no_extension (x : string) :
  excluded_segment x = true -> has_extension x = false.
Proof.
  unfold excluded_segment. intros H. apply bool_decide_eq_true_1 in H.
  apply list_elem_of_In in H. destruct H as [<-|[<-|[]]]; reflexivity.
Qed.

(** The sums over the children of a node whose paths lead to the shares
    of the entries of a directory are the totals of the directory. *)
Lemma children_sum_total (top : string) (sub : list FsEntry) (n : Node) :
  tidy n -> distinct (map entry_name sub) = true ->
  (forall y, match first_named y (children n) with
             | Some c => own_counts c
             | None => (0, 0)
             end = share top sub y) ->
  (sum_list (map todos (children n)), sum_list (map locs (children n))) = total top sub.
Proof.
  intros [Hdup _] Hd Hshare. apply NoDup_ListNoDup in Hdup.
  apply distinct_NoDup in Hd. unfold total.
  assert (Hside : forall (pr : nat * nat -> nat) (val : Node -> nat),
             (forall c, val c = pr (own_counts c)) -> pr (0, 0) = 0 ->
             sum_list (map val (children n))
             = sum_list (map pr (map (entry_total top) sub))).
  { intros pr val Hval Hzero.
    rewrite (values_by_key name val (children n) Hdup).
    rewrite (map_map (entry_total top) pr sub).
    rewrite (values_by_key entry_name (fun e => pr (entry_total top e)) sub Hd).
    set (g := fun x => match List.find (fun e => String.eqb (entry_name e) x) sub with
                       | Some e => pr (entry_total top e)
                       | None => 0
                       end).
    assert (Hg : forall y, match List.find (fun c => String.eqb (name c) y) (children n) with
                           | Some c => val c
                           | None => 0
                           end = g y).
    { intros y. specialize (Hshare y). rewrite first_named_find in Hshare.
      unfold g, share, entry_named in *.
      destruct (List.find _ (children n)) as [c|]; destruct (List.find _ sub) as [e|].
      - now rewrite Hval, Hshare.
      - now rewrite Hval, Hshare.
      - now rewrite <- Hshare.
      - reflexivity. }
    rewrite (map_ext _ g Hg).
    apply sum_over_names; [exact Hdup|exact Hd| |].
    - intros x _ Hx. unfold g.
      destruct (List.find _ sub) as [e|] eqn:He; [|reflexivity].
      apply find_some in He as [Hin Hname]. apply String.eqb_eq in Hname.
      exfalso. apply Hx. rewrite <- Hname. now apply in_map.
    - intros x _ Hx. rewrite <- Hg.
      destruct (List.find _ (children n)) as [c|] eqn:Hc; [|reflexivity].
      apply find_some in Hc as [Hin Hname]. apply String.eqb_eq in Hname.
      exfalso. apply Hx. rewrite <- Hname. now apply in_map. }
  f_equal; [apply (Hside fst todos)|apply (Hside snd locs)]; reflexivity.
Qed.

Lemma allowed_snoc (P : list string) (d : string) :
  allowed (P ++ [d]) = allowed P && negb (excluded_segment d).
Proof. unfold allowed. rewrite forallb_app. cbn. now rewrite andb_true_r. Qed.

Lemma below_deeper (P : list string) (d x : string) (q : list string) (y : string) :
  is_prefix ((P ++ [d]) ++ x :: q) (P ++ [y]) = false.
Proof.
  apply is_prefix_longer. rewrite !length_app. cbn. lia.
Qed.

Lemma below_apart (P : list string) (n d : string) (q : list string) :
  n <> d -> is_prefix (P ++ [n]) ((P ++ [d]) ++ q) = false.
Proof.
  intros Hn. rewrite <- List.app_assoc, is_prefix_app. cbn.
  destruct (String.eqb_spec n d); [contradiction|reflexivity].
Qed.

Lemma settled_frame (top : string) (P : list string) (es : list FsEntry) (t t' : Node) :
  (forall x q, find_node (P ++ x :: q) t' = find_node (P ++ x :: q) t) ->
  settled top P es t -> settled top P es t'.
Proof.
  intros Hframe [HA HB]. split.
  - intros x. unfold counts_at. rewrite Hframe. apply HA.
  - intros Q d sub Hin Ha. destruct (HB Q d sub Hin Ha) as (node & Hnode & Hc).
    exists node. split; [|exact Hc]. rewrite <- Hnode.
    destruct Q as [|seg rest]; apply Hframe.
Qed.

Lemma find_node_none_below (p q : list string) (node : Node) :
  find_node p node = None -> find_node (p ++ q) node = None.
Proof. intros H. now rewrite find_node_app, H. Qed.

Section OneDirectoryTotals.
Variables (top : string) (P : list string).
Hypothesis Htop : walk_top top P.

Lemma sum_dir_total (st : WalkState) (d : string) (sub : list FsEntry) (top' : string) :
  valid_name d = true -> allowed (P ++ [d]) = true -> all_nodes tidy (fst st) ->
  distinct (map entry_name sub) = true ->
  (forall y, counts_at ((P ++ [d]) ++ [y]) (fst st) = share top' sub y) ->
  exists node, find_node (P ++ [d]) (fst (sum_dir top st d)) = Some node
               /\ own_counts node = total top' sub.
Proof.
  intros Hv Ha Ht Hd Hshare. destruct st as [t ratios]. cbn [fst] in *.
  unfold sum_dir, get_node. rewrite (walk_top_segments top P d Htop Hv).
  pose proof (get_node_from_found (P ++ [d]) t) as Hf.
  pose proof (find_node_ensured (P ++ [d]) t Ha) as [n Hn].
  pose proof (get_node_from_tidy (P ++ [d]) t Ht) as Ht'.
  assert (Hkept : forall y, find_node ((P ++ [d]) ++ [y]) (snd (get_node_from (P ++ [d]) t))
                            = find_node ((P ++ [d]) ++ [y]) t).
  { intros y. apply find_node_get_node_from. apply is_prefix_longer.
    rewrite !length_app. cbn. lia. }
  destruct (get_node_from (P ++ [d]) t) as [found t']. cbn [fst snd] in *.
  fold (allowed (P ++ [d])) in Hf. rewrite Ha in Hf. subst found. cbn [negb fst].
  exists (aggregate n). split.
  - rewrite find_node_update_node_same by apply keeps_shape_aggregate. now rewrite Hn.
  - unfold own_counts, aggregate, set_counts. cbn [todos locs].
    apply children_sum_total; [|exact Hd|].
    + exact (all_nodes_here _ _ (find_node_tidy _ _ _ Ht' Hn)).
    + intros y. rewrite <- Hshare. unfold counts_at. rewrite <- Hkept, find_node_app, Hn.
      change (Some n ≫= find_node [y]) with (find_node [y] n). rewrite find_node_cons.
      now destruct (first_named y (children n)).
Qed.

Lemma dirs_total (dirs : list string) (st : WalkState) (d : string) (sub : list FsEntry)
    (top' : string) :
  Forall (fun n => valid_name n = true) dirs -> distinct dirs = true -> In d dirs ->
  allowed (P ++ [d]) = true -> all_nodes tidy (fst st) ->
  distinct (map entry_name sub) = true ->
  (forall y, counts_at ((P ++ [d]) ++ [y]) (fst st) = share top' sub y) ->
  exists node, find_node (P ++ [d]) (fst (fold_left (sum_dir top) dirs st)) = Some node
               /\ own_counts node = total top' sub.
Proof.
  revert st. induction dirs as [|d0 dirs IH]; intros st Hv Hd Hin Ha Ht Hsub Hshare;
    [destruct Hin|].
  apply Forall_cons in Hv as [Hv0 Hv]. cbn [distinct] in Hd.
  apply andb_true_iff in Hd as [Hnd Hd]. apply negb_true_iff in Hnd.
  cbn [fold_left]. destruct Hin as [->|Hin].
  - rewrite fold_frame; [now apply sum_dir_total|].
    intros st' d' Hd'. apply sum_dir_frame.
    rewrite List.Forall_forall in Hv. rewrite (walk_top_segments top P _ Htop) by now apply Hv.
    rewrite is_prefix_app. cbn.
    destruct (String.eqb_spec d d') as [->|]; [|reflexivity].
    exfalso. now apply (existsb_eqb_false d' d' dirs Hnd).
  - apply IH; try assumption; [now apply sum_dir_tidy|].
    intros y. rewrite <- Hshare. unfold counts_at. rewrite sum_dir_frame; [reflexivity|].
    rewrite (walk_top_segments top P _ Htop) by exact Hv0.
    apply is_prefix_longer. rewrite !length_app. cbn. lia.
Qed.

End OneDirectoryTotals.

Lemma totaled_each_later (top : string) (P : list string) (es : list FsEntry) (st : WalkState)
    (d : string) (q : list string) :
  forallb wf_entry es = true -> walk_top top P ->
  ~ In d (dir_names es) ->
  find_node ((P ++ [d]) ++ q) (fst (fold_left walk_step (flat_map (sub_walk top) es) st))
  = find_node ((P ++ [d]) ++ q) (fst st).
Proof.
  intros Hwf HT Hd. apply (subwalks_frame top P); [apply walked_well_each|exact Hwf|exact HT|].
  intros n Hn. assert (Hnd : n <> d) by (intros ->; contradiction). split.
  - rewrite <- List.app_assoc, is_prefix_app. cbn.
    destruct (String.eqb_spec d n) as [E|]; [now destruct Hnd|reflexivity].
  - now apply below_apart.
Qed.

Lemma subwalks_total (top : string) (P : list string) (es : list FsEntry) (st : WalkState)
    (d : string) (sub : list FsEntry) :
  Forall totaled es -> forallb wf_entry es = true -> distinct (map entry_name es) = true ->
  walk_top top P -> allowed P = true -> all_nodes tidy (fst st) ->
  In (FsDir d sub) es -> excluded_segment d = false ->
  (forall y, find_node ((P ++ [d]) ++ [y]) (fst st) = None) ->
  settled (path_join top d) (P ++ [d]) sub
          (fst (fold_left walk_step (flat_map (sub_walk top) es) st)).
Proof.
  intros HT. revert st.
  induction HT as [|e es He HTs IH]; intros st Hwf Hd Htop Ha Ht Hin Hex Hnone; [destruct Hin|].
  cbn [forallb] in Hwf. apply andb_true_iff in Hwf as [Hwe Hwf].
  cbn [map distinct] in Hd. apply andb_true_iff in Hd as [Hne Hd]. apply negb_true_iff in Hne.
  cbn [flat_map]. rewrite fold_left_app.
  destruct Hin as [->|Hin].
  - apply wf_entry_dir in Hwe as [Hv Hwe]. cbn [sub_walk].
    apply (settled_frame _ _ _ (fst (fold_left walk_step (walk_dir (path_join top d) (FsDir d sub)) st))).
    + intros x q. change (x :: q) with ([x] ++ q)%list.
      apply (totaled_each_later top P es _ d ([x] ++ q) Hwf Htop).
      intros Hn. apply In_dir_names in Hn as (sub' & Hs).
      apply (existsb_eqb_false d d (map entry_name es) Hne); [|reflexivity].
      apply in_map_iff. now exists (FsDir d sub').
    + apply (He (path_join top d) (P ++ [d])%list st Hwe (walk_top_join top P d Htop Hv)).
      * rewrite allowed_snoc, Ha, Hex. reflexivity.
      * exact Ht.
      * exact Hnone.
  - assert (Hdm : entry_name e <> d).
    { intros E. apply (existsb_eqb_false (entry_name e) d (map entry_name es) Hne); [|now symmetry].
      apply in_map_iff. now exists (FsDir d sub). }
    apply IH; try assumption.
    + apply fold_tidy; [intros; now apply walk_step_tidy|exact Ht].
    + intros y. rewrite <- (Hnone y).
      destruct e as [m t|m sub']; [reflexivity|]. cbn [sub_walk entry_name] in *.
      apply wf_entry_dir in Hwe as [Hv Hwe].
      destruct (walked_well_all (FsDir m sub') (path_join top m) (P ++ [m])%list st Hwe
                  (walk_top_join top P m Htop Hv)) as [HF _].
      apply HF.
      * rewrite <- List.app_assoc, is_prefix_app. cbn.
        destruct (String.eqb_spec d m) as [E|]; [now destruct Hdm|reflexivity].
      * now apply below_apart.
Qed.

Lemma entry_named_some (x : string) (es : list FsEntry) (e : FsEntry) :
  entry_named x es = Some e -> In e es /\ entry_name e = x.
Proof.
  unfold entry_named. intros H. apply find_some in H as [Hin Hn].
  now apply String.eqb_eq in Hn.
Qed.

Lemma entry_named_none (x : string) (es : list FsEntry) (e : FsEntry) :
  entry_named x es = None -> In e es -> entry_name e <> x.
Proof.
  unfold entry_named. intros H Hin E.
  pose proof (find_none _ _ H e Hin) as Hn. cbn in Hn. apply String.eqb_neq in Hn. contradiction.
Qed.

Lemma entry_named_In (es : list FsEntry) (e : FsEntry) :
  distinct (map entry_name es) = true -> In e es -> entry_named (entry_name e) es = Some e.
Proof.
  intros Hd Hin. destruct (entry_named (entry_name e) es) as [e'|] eqn:E.
  - apply entry_named_some in E as [Hin' Hn]. f_equal. now apply (distinct_entries es).
  - now destruct (entry_named_none _ _ e E Hin).
Qed.

Lemma totaled_all (e : FsEntry) : totaled e.
Proof.
  induction e as [n t|nm es IH] using FsEntry_forall_ind; intros top P st Hwf HT Ha Ht Hnone.
  - cbn [walk_dir fold_left entries_of]. split.
    + intros x. unfold counts_at, share. now rewrite Hnone.
    + intros [|seg rest] d sub Hin; [destruct Hin|destruct Hin as (s & [] & _)].
  - cbn [entries_of] in *. pose proof Hwf as Hwf0.
    unfold wf_tree in Hwf. apply andb_true_iff in Hwf as [Hd Hes].
    rewrite walk_dir_unfold, fold_left_app. cbn [fold_left].
    set (st1 := fold_left walk_step (flat_map (sub_walk top) es) st).
    assert (Ht1 : all_nodes tidy (fst st1))
      by (apply fold_tidy; [intros; now apply walk_step_tidy|exact Ht]).
    assert (Hvd : Forall (fun d => valid_name d = true) (dir_names es)).
    { apply List.Forall_forall. intros d Hin. apply In_dir_names in Hin as (sub & Hs).
      now destruct (wf_entries_valid es _ Hes Hs). }
    assert (Hvf : Forall (fun f => valid_name f.1 = true) (file_entries es)).
    { apply List.Forall_forall. intros g Hin. apply In_file_entries in Hin.
      now destruct (wf_entries_valid es _ Hes Hin). }
    assert (Hsub : forall d sub, In (FsDir d sub) es -> excluded_segment d = false ->
                     settled (path_join top d) (P ++ [d]) sub (fst st1)).
    { intros d sub Hin Hex. apply (subwalks_total top P es st d sub IH Hes Hd HT Ha Ht Hin Hex).
      intros y. apply find_node_none_below, Hnone. }
    assert (Hdir : forall d sub, In (FsDir d sub) es -> excluded_segment d = false ->
                     exists node,
                       find_node (P ++ [d]) (fst (walk_step st1 (top, dir_names es, file_entries es)))
                       = Some node
                       /\ own_counts node = total (path_join top d) sub).
    { intros d sub Hin Hex. unfold walk_step.
      destruct (wf_entries_valid es _ Hes Hin) as [Hv Hwe]. apply wf_entry_dir in Hwe as [_ Hwe].
      unfold wf_tree in Hwe. apply andb_true_iff in Hwe as [Hdsub _].
      apply (dirs_total top P HT); try assumption.
      - now apply distinct_dir_names.
      - apply In_dir_names. now exists sub.
      - rewrite allowed_snoc, Ha, Hex. reflexivity.
      - apply fold_tidy; [intros; now apply scan_file_tidy|exact Ht1].
      - intros y. destruct (Hsub d sub Hin Hex) as [HA _]. rewrite <- HA.
        unfold counts_at. rewrite fold_frame; [reflexivity|].
        intros st' g Hg. apply scan_file_frame.
        rewrite List.Forall_forall in Hvf. rewrite (walk_top_segments top P _ HT) by now apply Hvf.
        apply is_prefix_longer. rewrite !length_app. cbn. lia. }
    split.
    + intros x. unfold share.
      assert (Ht3 : all_nodes tidy (fst (walk_step st1 (top, dir_names es, file_entries es))))
        by now apply walk_step_tidy.
      destruct (entry_named x es) as [e|] eqn:Hx.
      * apply entry_named_some in Hx as [Hin Hn].
        destruct (excluded_segment x) eqn:Hex.
        { unfold counts_at. rewrite (find_node_excluded P x _ Ht3 Hex).
          destruct e as [n t|d sub]; cbn [entry_name entry_total] in *; subst.
          - now rewrite (excluded_has_no_extension _ Hex).
          - now rewrite Hex. }
        destruct e as [n t|d sub]; cbn [entry_name] in Hn; subst.
        -- assert (Hother : forall d, In d (dir_names es) -> d <> x).
           { intros d Hd' ->. apply In_dir_names in Hd' as (sub & Hs).
             now pose proof (distinct_entries es _ _ Hd Hs Hin eq_refl). }
           assert (Hleaf : find_node (P ++ [x])
                             (fst (walk_step st1 (top, dir_names es, file_entries es)))
                           = expected_leaf (path_join top x) (x, t)).
           { unfold walk_step. rewrite fold_frame.
             - apply (files_leaf top P HT _ _ (x, t)); try assumption.
               + now apply distinct_file_names.
               + now apply file_entries_In.
               + cbn [fst]. rewrite allowed_snoc, Ha, Hex. reflexivity.
               + cbn [fst]. unfold st1.
                 rewrite (subwalks_frame top P); [apply Hnone|apply walked_well_each|exact Hes
                                                  |exact HT|].
                 intros n Hn. rewrite !is_prefix_app. cbn.
                 destruct (String.eqb_spec x n) as [E|]; [now destruct (Hother n Hn)|].
                 destruct (String.eqb_spec n x) as [E|]; [now destruct (Hother n Hn)|].
                 now split.
             - intros st' d Hin'. apply sum_dir_frame.
               rewrite List.Forall_forall in Hvd.
               rewrite (walk_top_segments top P _ HT) by now apply Hvd.
               rewrite is_prefix_app. cbn.
               destruct (String.eqb_spec x d) as [E|]; [now destruct (Hother d Hin')|reflexivity]. }
           unfold counts_at. rewrite Hleaf. unfold expected_leaf. cbn [fst snd entry_total].
           destruct (has_extension x && negb (bool_decide (path_join top x ∈ SKIPPED_FIXTURES)));
             [|reflexivity].
           unfold own_counts. cbn [todos locs]. now destruct (leaf_counts t).
        -- destruct (Hdir x sub Hin Hex) as (node & Hnode & Hc).
           unfold counts_at. rewrite Hnode, Hc. cbn [entry_total]. now rewrite Hex.
      * assert (Hno : find_node (P ++ [x])
                        (fst (walk_step st1 (top, dir_names es, file_entries es))) = None).
        { unfold walk_step. rewrite !fold_frame.
          - unfold st1.
            rewrite (subwalks_frame top P); [apply Hnone|apply walked_well_each|exact Hes
                                             |exact HT|].
            intros n Hn. apply In_dir_names in Hn as (sub & Hs).
            pose proof (entry_named_none x es _ Hx Hs) as Hne. cbn [entry_name] in Hne.
            rewrite !is_prefix_app. cbn.
            destruct (String.eqb_spec x n) as [E|]; [now destruct Hne|].
            destruct (String.eqb_spec n x) as [E|]; [now destruct Hne|]. now split.
          - intros st' g Hg. apply scan_file_frame.
            pose proof (entry_named_none x es _ Hx (In_file_entries g es Hg)) as Hne.
            cbn [entry_name] in Hne.
            rewrite List.Forall_forall in Hvf. rewrite (walk_top_segments top P _ HT) by now apply Hvf.
            rewrite is_prefix_app. cbn.
            destruct (String.eqb_spec x g.1) as [E|]; [now destruct Hne|reflexivity].
          - intros st' d Hin'. apply sum_dir_frame.
            pose proof Hin' as Hin''. apply In_dir_names in Hin'' as (sub & Hs).
            pose proof (entry_named_none x es _ Hx Hs) as Hne. cbn [entry_name] in Hne.
            rewrite List.Forall_forall in Hvd.
            rewrite (walk_top_segments top P _ HT) by now apply Hvd.
            rewrite is_prefix_app. cbn.
            destruct (String.eqb_spec x d) as [E|]; [now destruct Hne|reflexivity]. }
        unfold counts_at. now rewrite Hno.
    + intros [|seg rest] d sub Hin Hall.
      * cbn [entry_at app] in *.
        assert (Hex : excluded_segment d = false).
        { rewrite allowed_snoc in Hall. apply andb_true_iff in Hall as [_ Hall].
          now apply negb_true_iff in Hall. }
        destruct (wf_entries_valid es _ Hes Hin) as [Hv _].
        destruct (walk_top_join top P d HT Hv) as [<- _].
        now apply Hdir.
      * cbn [entry_at] in Hin. destruct Hin as (s & Hs & Hin).
        assert (Hex : excluded_segment seg = false).
        { unfold allowed in Hall. rewrite forallb_app in Hall.
          apply andb_true_iff in Hall as [_ Hall]. cbn [app forallb] in Hall.
          apply andb_true_iff in Hall as [Hall _]. now apply negb_true_iff in Hall. }
        destruct (Hsub seg s Hs Hex) as [_ HB].
        destruct (HB rest d sub Hin) as (node & Hnode & Hc).
        { rewrite <- List.app_assoc. exact Hall. }
        rewrite <- List.app_assoc in Hnode, Hc. cbn [app] in Hnode, Hc.
        exists node. split; [|exact Hc].
        change (P ++ (seg :: rest) ++ [d])%list with (P ++ seg :: rest ++ [d])%list.
        rewrite (item_frame top P HT); try assumption.
        intros y. rewrite is_prefix_app. apply is_prefix_longer.
        cbn [length]. rewrite ?length_app. cbn [length]. lia.
Qed.

(** X11: in a well-formed work tree, every directory other than the root on
    whose path no excluded name lies ends with a node whose two counts are
    the totals over everything below it: the counts of the lines of every
    scanned file, at any depth, leaving out what lies under a directory
    called ".git" or ".devcontainer". *)
Theorem directory_counts_are_the_totals_below (tree : list FsEntry) (Q : list string)
    (dir_name : string) (entries : list FsEntry) :
  wf_tree tree = true -> entry_at Q (FsDir dir_name entries) tree ->
  allowed (Q ++ [dir_name]) = true ->
  exists node, find_node (Q ++ [dir_name]) (fst (build_flamegraph tree)) = Some node
               /\ own_counts node = total (render (Q ++ [dir_name])) entries.
Proof.
  intros Hwf Hin Ha.
  destruct (totaled_all (FsDir "." tree) "." [] (new_node ".", []) Hwf walk_top_root eq_refl
              (all_nodes_new_node ".") (fun x => eq_refl)) as [_ HB].
  exact (HB Q dir_name entries Hin Ha).
Qed.

Lemma directory_counts_are_the_totals_below_witness :
  exists node, find_node ["Kernel"] (fst (build_flamegraph nested_fs)) = Some node
               /\ own_counts node = (3, 3).
Proof.
  apply (directory_counts_are_the_totals_below nested_fs [] "Kernel"
           [FsDir "Arch" [FsFile "cpu.cpp" (Lines ["// FIXME: one"; "int a;"; "int b; // TODO"])];
            FsFile "init.c" (Lines ["/* todo */ int c;"]);
            FsDir ".git" [FsFile "hook.sh" (Lines ["# TODO"])]]).
  - reflexivity.
  - left. reflexivity.
  - reflexivity.
Defined.

Lemma get_node_from_counts (segments : list string) (node : Node) :
  own_counts (snd (get_node_from segments node)) = own_counts node.
Proof.
  destruct segments as [|seg rest]; [reflexivity|].
  rewrite get_node_from_cons. destruct (excluded_segment seg); [reflexivity|].
  now destruct (descend _ _ _).
Qed.

Lemma get_node_from_keeps (q p : list string) (node n : Node) :
  find_node p node = Some n ->
  exists n', find_node p (snd (get_node_from q node)) = Some n'
             /\ name n' = name n /\ own_counts n' = own_counts n.
Proof.
  revert q node. induction p as [|seg rest IH]; intros q node Hn.
  - injection Hn as <-. eexists. split; [reflexivity|].
    split; [apply get_node_from_name|apply get_node_from_counts].
  - destruct q as [|s q']; [now exists n|].
    rewrite get_node_from_cons. destruct (excluded_segment s); [now exists n|].
    rewrite find_node_cons in Hn.
    destruct (first_named seg (children node)) as [c|] eqn:Hc; [|discriminate].
    pose proof (first_named_descend_same s (get_node_from q') (children node)
                  (get_node_from_name q')) as Hsame.
    pose proof (fun H => first_named_descend_other s seg (get_node_from q') (children node) H
                  (get_node_from_name q')) as Hother.
    destruct (descend s (get_node_from q') (children node)) as [found cs]. cbn [snd] in *.
    rewrite find_node_cons. cbn [children with_children].
    destruct (String.eqb_spec seg s) as [->|Hne].
    + rewrite Hsame. unfold child_or_new. rewrite Hc. now apply IH.
    + rewrite (Hother Hne), Hc. now exists n.
Qed.

(** X12: [get_node] returns a node exactly when no segment of the
    normalised path is excluded, and the path then leads to a node; a path
    that is not an initial part of the one asked for leads where it led
    before; and every node the tree had is still found under its path, with
    its name and its two counts. *)
Theorem get_node_only_adds (path : string) (flamegraph : Node) :
  fst (get_node path flamegraph) = allowed (path_segments path)
  /\ (allowed (path_segments path) = true ->
      is_Some (find_node (path_segments path) (snd (get_node path flamegraph))))
  /\ (forall p, is_prefix p (path_segments path) = false ->
        find_node p (snd (get_node path flamegraph)) = find_node p flamegraph)
  /\ (forall p n, find_node p flamegraph = Some n ->
        exists n', find_node p (snd (get_node path flamegraph)) = Some n'
                   /\ name n' = name n /\ own_counts n' = own_counts n).
Proof.
  unfold get_node.
  split; [apply get_node_from_found|].
  split; [apply find_node_ensured|].
  split; [intros p; apply find_node_get_node_from|].
  intros p n. apply get_node_from_keeps.
Qed.

Lemma get_node_from_excluded (before after : list string) (excluded : string) (node : Node) :
  allowed before = true -> excluded_segment excluded = true ->
  get_node_from (before ++ excluded :: after) node
  = (false, snd (get_node_from before node)).
Proof.
  intros Ha Hex. revert node. induction before as [|seg rest IH]; intros node.
  - cbn [app]. rewrite get_node_from_cons, Hex. reflexivity.
  - cbn [allowed forallb] in Ha. apply andb_true_iff in Ha as [Hseg Ha].
    apply negb_true_iff in Hseg. cbn [app]. rewrite !get_node_from_cons, Hseg.
    assert (E : descend seg (get_node_from (rest ++ excluded :: after)) (children node)
                = (false, snd (descend seg (get_node_from rest) (children node)))).
    { induction (children node) as [|c cs IHc]; cbn [descend].
      - rewrite (IH Ha). now destruct (get_node_from rest (new_node seg)).
      - destruct (String.eqb (name c) seg).
        + rewrite (IH Ha). now destruct (get_node_from rest c).
        + rewrite IHc. now destruct (descend seg (get_node_from rest) cs). }
    rewrite E. now destruct (descend seg (get_node_from rest) (children node)).
Qed.

(** X13: when [get_node] gives up at an excluded segment it returns no
    node, yet the tree keeps the nodes it made for the segments before:
    the tree is the one [get_node] leaves for the path cut before the
    excluded segment. *)
Theorem excluded_path_still_makes_the_nodes_before
    (path : string) (before after : list string) (excluded : string) (flamegraph : Node) :
  path_segments path = (before ++ excluded :: after)%list ->
  allowed before = true -> excluded_segment excluded = true ->
  get_node path flamegraph = (false, snd (get_node_from before flamegraph)).
Proof.
  intros Hpath Ha Hex. unfold get_node. rewrite Hpath. now apply get_node_from_excluded.
Qed.

Lemma excluded_path_still_makes_the_nodes_before_witness :
  get_node "./Kernel/.git/hooks/pre-commit.sh" (new_node ".")
  = (false, mkNode "." [new_node "Kernel"] 0 0).
Proof.
  apply (excluded_path_still_makes_the_nodes_before "./Kernel/.git/hooks/pre-commit.sh"
           ["Kernel"] ["hooks"; "pre-commit.sh"] ".git" (new_node ".")); reflexivity.
Defined.

(** ** Where the work tree is left *)

Lemma keeps_head_ret {A} (a : A) : keeps_head (mret a).
Proof. intros st. reflexivity. Qed.

Lemma keeps_head_raise {A} (e : Exn) : keeps_head (@raise A e).
Proof. intros st. reflexivity. Qed.

Lemma keeps_head_log (ev : Event) : keeps_head (log ev).
Proof. intros st. reflexivity. Qed.

Lemma keeps_head_assert (b : bool) : keeps_head (py_assert b).
Proof. destruct b; intros st; reflexivity. Qed.

Lemma keeps_head_bind {A B} (m : M A) (f : A -> M B) :
  keeps_head m -> (forall a, keeps_head (f a)) -> keeps_head (m ≫= f).
Proof.
  intros Hm Hf st. rewrite bind_run. specialize (Hm st).
  destruct (m st) as [[a|e] st1]; cbn [snd] in *; [|exact Hm].
  now rewrite (Hf a st1).
Qed.

Lemma keeps_head_run_checked (w : World) (argv : list string) :
  keeps_head (subprocess_run_checked w argv).
Proof. intros st. rewrite run_checked_run. now destruct (_ =? _)%Z. Qed.

Lemma keeps_head_mapM {A B} (f : A -> M B) (l : list A) :
  (forall a, keeps_head (f a)) -> keeps_head (mapM f l).
Proof.
  intros Hf. induction l as [|x xs IH]; [apply keeps_head_ret|].
  cbn [mapM]. apply keeps_head_bind; [apply Hf|]. intros y.
  apply keeps_head_bind; [exact IH|]. intros ys. apply keeps_head_ret.
Qed.

Lemma keeps_head_parse (line : string) : keeps_head (parse_log_line line).
Proof.
  unfold parse_log_line. destruct (Py.split " " line) as [|a [|b [|c l]]];
    try apply keeps_head_raise.
  destruct (int_of_str b); [apply keeps_head_ret|apply keeps_head_raise].
Qed.

Lemma keeps_head_determine (w : World) : keeps_head (determine_commit_and_date_list w).
Proof.
  apply keeps_head_bind; [apply keeps_head_run_checked|]. intros r.
  cbv zeta. apply keeps_head_bind; [apply keeps_head_assert|]. intros _.
  destruct (Py.last_item (removelast _)); [|apply keeps_head_raise].
  apply keeps_head_bind; [apply keeps_head_assert|]. intros _.
  apply keeps_head_bind; [apply keeps_head_log|]. intros _.
  apply keeps_head_mapM. intros l. apply keeps_head_parse.
Qed.

Lemma keeps_head_load_cache (w : World) : keeps_head (load_cache w).
Proof.
  intros st. unfold load_cache. rewrite bind_run. cbn [get_state].
  assert (Hj : forall text, keeps_head (json_load_text w text)).
  { intros text. unfold json_load_text.
    destruct (json_load w text); [apply keeps_head_ret|apply keeps_head_raise]. }
  destruct (live_file st) as [text|]; [apply Hj|].
  destruct (cold_file w) as [text|]; [|reflexivity].
  apply keeps_head_bind; [apply Hj|]. intros c.
  apply keeps_head_bind; [intros st'; reflexivity|]. intros _. apply keeps_head_ret.
Qed.

Lemma keeps_head_run_prefix (w : World) : keeps_head (run_prefix w).
Proof.
  unfold run_prefix.
  apply keeps_head_bind.
  { destruct (readme_exists w); [apply keeps_head_ret|].
    apply keeps_head_bind; [apply keeps_head_log|]. intros _. apply keeps_head_raise. }
  intros _. apply keeps_head_bind.
  { unfold fetch_new. apply keeps_head_bind; [apply keeps_head_run_checked|].
    intros _. apply keeps_head_ret. }
  intros _. apply keeps_head_bind; [apply keeps_head_determine|]. intros cds.
  apply keeps_head_bind; [apply keeps_head_load_cache|]. intros c.
  apply keeps_head_bind; [intros st; reflexivity|]. intros _. apply keeps_head_ret.
Qed.

Lemma uncached_insert (c : gmap string Triple) (commit : string) (t : Triple)
    (cds : list (string * Z)) :
  ~ In commit (map fst cds) -> uncached (<[commit := t]> c) cds = uncached c cds.
Proof.
  intros Hout. unfold uncached. apply filter_ext_in. intros cd Hcd.
  assert (Hne : commit <> cd.1) by (intros ->; apply Hout; now apply in_map).
  now rewrite lookup_insert_ne.
Qed.

Lemma lookup_all_head (w : World) (cds : list (string * Z)) (st st' : State) (rows : list Row) :
  List.NoDup (map fst cds) ->
  lookup_all w cds st = (Return rows, st') ->
  head st' = match last (uncached (cache st) cds) with
             | Some cd => Some cd.1
             | None => head st
             end.
Proof.
  revert st rows. induction cds as [|cd cds IH]; intros st rows Hnd Hrun.
  - rewrite lookup_all_nil in Hrun. now injection Hrun as _ <-.
  - cbn [map] in Hnd. apply List.NoDup_cons_iff in Hnd as [Hout Hnd].
    rewrite lookup_all_cons in Hrun.
    unfold uncached. cbn [List.filter]. fold (uncached (cache st) cds).
    destruct (cache st !! cd.1) as [t|] eqn:Hc.
    + rewrite (lookup_hit w st cd.1 cd.2 t Hc) in Hrun.
      rewrite bool_decide_eq_false_2 by discriminate.
      destruct (lookup_all w cds st) as [[rows'|e] st2] eqn:Hrest; [|discriminate].
      injection Hrun as _ <-. now apply (IH st rows').
    + rewrite bool_decide_eq_true_2 by reflexivity.
      destruct (fresh_triple w (head st) cd.1) as [t|] eqn:Hf.
      * rewrite (lookup_miss_success w st cd.1 cd.2 t Hc Hf) in Hrun.
        destruct (lookup_all w cds (after_miss st cd.1 t)) as [[rows'|e] st2] eqn:Hrest;
          [|discriminate].
        injection Hrun as _ <-. rewrite (IH _ rows' Hnd Hrest).
        cbn [after_miss cache head]. rewrite (uncached_insert _ _ _ _ Hout).
        destruct (uncached (cache st) cds) as [|x l] eqn:Hu; [reflexivity|].
        change (last (cd :: x :: l)) with (last (x :: l)).
        destruct (last (x :: l)) eqn:E; [reflexivity|].
        apply last_None in E. discriminate.
      * destruct (lookup_miss_failure w st cd.1 cd.2 Hc Hf) as (e & st1 & Hfail & _).
        rewrite Hfail in Hrun. discriminate.
Qed.

(** X14: when [run] gets as far as writing the time series over a commit
    list without repetition, the work tree is left at the last commit of the
    list that was no key of the loaded dict, the last one checked out; when
    every commit was a key, it is left as it was found.  Nothing checks out
    the tip of the history again before the flame graph is made. *)
Theorem work_tree_is_left_at_the_last_computed_commit
    (w : World) (st0 st1 st' : State) (cds : list (string * Z)) (csv : string) :
  run_prefix w st0 = (Return cds, st1) ->
  run w st0 = (Return csv, st') ->
  List.NoDup (map fst cds) ->
  head st' = match last (uncached (cache st1) cds) with
             | Some cd => Some cd.1
             | None => head st0
             end.
Proof.
  intros Hp Hrun Hnd. rewrite run_split, Hp in Hrun.
  destruct (lookup_all w cds st1) as [[rows|e] st2] eqn:Hall; [|discriminate].
  injection Hrun as _ <-. cbn [head].
  rewrite (lookup_all_head w cds st1 st2 rows Hnd Hall).
  pose proof (keeps_head_run_prefix w st0) as Hh. rewrite Hp in Hh. cbn [snd] in Hh.
  now rewrite Hh.
Qed.

Lemma work_tree_is_left_at_the_last_computed_commit_witness :
  head (snd (run two_commit_world fresh_state)) = Some "def".
Proof.
  apply (work_tree_is_left_at_the_last_computed_commit two_commit_world fresh_state
           (snd (run_prefix two_commit_world fresh_state))
           (snd (run two_commit_world fresh_state))
           [("abc", 7%Z); ("def", 9%Z)]
           ("7,1,1,1" +:+ Json.nl +:+ "9,1,1,1" +:+ Json.nl)).
  - vm_compute. reflexivity.
  - vm_compute. reflexivity.
  - repeat constructor; cbn; intros H; repeat (destruct H as [H|H]; [discriminate H|]);
      exact H.
Defined.
